(** * NoteWall maintenance scripts: a shallow embedding

    The repository is a handful of one-shot Python scripts that patch an
    Xcode project manifest (project.pbxproj) with regular expressions and
    rebuild the Localizable.strings tables of the app.

    Conventions of the embedding.
    - A Python [str] is a [text]: the list of its characters, each an 8-bit
      [ascii].  Non-ASCII text is read as its UTF-8 encoding, so equality of
      keys and substring tests agree with Python; the classes [\w], [\s] and
      [\d] are the ASCII ones, which is all the manifest grammar uses.
    - [re.search], [re.finditer], [re.findall] and [re.sub] are a backtracking
      matcher over the pattern constructs the scripts use (literals,
      one-character classes, greedy and lazy repetition of a class, capture
      groups), with the priorities of Python's engine.
    - The file system and the console are an explicit [world] threaded
      through the scripts; [open], [read] and [write] may raise. *)

From Stdlib Require Import List Ascii String Bool Arith Lia NArith DecimalString.
Import ListNotations.
Open Scope string_scope.
Open Scope list_scope.

(** ** Text *)

Definition text := list ascii.

Coercion list_ascii_of_string : string >-> list.

Definition NL : ascii := "010"%char.
Definition TAB : ascii := "009"%char.
Definition QUOTE : ascii := "034"%char.

Fixpoint text_eqb (a b : text) : bool :=
  match a, b with
  | [], [] => true
  | x :: a', y :: b' => Ascii.eqb x y && text_eqb a' b'
  | _, _ => false
  end.

(** [s.startswith(p)] *)
Fixpoint starts_with (p s : text) : bool :=
  match p, s with
  | [], _ => true
  | _ :: _, [] => false
  | a :: p', b :: s' => Ascii.eqb a b && starts_with p' s'
  end.

(** [p in s] for strings: substring test. *)
Fixpoint contains (p s : text) : bool :=
  starts_with p s ||
  match s with
  | [] => false
  | _ :: s' => contains p s'
  end.

(** [s.split('\n')]: never empty, [''.split('\n') == ['']]. *)
Fixpoint split_lines (s : text) : list text :=
  match s with
  | [] => [[]]
  | c :: s' =>
      if Ascii.eqb c NL then [] :: split_lines s'
      else match split_lines s' with
           | [] => [[c]]
           | l :: ls => (c :: l) :: ls
           end
  end.

(** ['\n'.join(ls)] *)
Fixpoint join_lines (ls : list text) : text :=
  match ls with
  | [] => []
  | [l] => l
  | l :: ls' => l ++ NL :: join_lines ls'
  end.

(** [s[:n] + t + s[n:]] *)
Definition splice (s : text) (n : nat) (t : text) : text :=
  firstn n s ++ t ++ skipn n s.

(** [s[a:b]] for [0 <= a], [0 <= b]. *)
Definition slice (s : text) (a b : nat) : text :=
  firstn (b - a) (skipn a s).

(** ** Character classes *)

Definition in_range (lo hi c : ascii) : bool :=
  Nat.leb (nat_of_ascii lo) (nat_of_ascii c) &&
  Nat.leb (nat_of_ascii c) (nat_of_ascii hi).

Definition is_digit (c : ascii) : bool := in_range "0" "9" c.
Definition is_upper (c : ascii) : bool := in_range "A" "Z" c.
Definition is_lower (c : ascii) : bool := in_range "a" "z" c.

(** [\w] *)
Definition is_word (c : ascii) : bool :=
  is_digit c || is_upper c || is_lower c || Ascii.eqb c "_".

(** [\s]: space, \t \n \v \f \r and the separators \x1c..\x1f. *)
Definition is_space (c : ascii) : bool :=
  Ascii.eqb c " " || in_range "009" "013" c || in_range "028" "031" c.

(** [\S] *)
Definition is_nonspace (c : ascii) : bool := negb (is_space c).

(** [.] under re.DOTALL *)
Definition any_char (c : ascii) : bool := true.

(** [.] without re.DOTALL *)
Definition not_newline (c : ascii) : bool := negb (Ascii.eqb c NL).

(** [[A-Z0-9]] *)
Definition is_upper_or_digit (c : ascii) : bool := is_upper c || is_digit c.

(** [[^}]] *)
Definition not_rbrace (c : ascii) : bool := negb (Ascii.eqb c "}").

(** the class of every character but the double quote *)
Definition not_quote (c : ascii) : bool := negb (Ascii.eqb c QUOTE).

(** ** Regular expressions

    A pattern is a sequence of items.  [Star true p] is the greedy [p*],
    [Star false p] the lazy [p*?]; [p+] is [One p] followed by [Star true p].
    [Open] and [Close] delimit a capture group; groups are numbered from 1 in
    the order they open, and none of the scripts' patterns nests them. *)

Inductive item : Type :=
| Lit (l : text)
| One (p : ascii -> bool)
| Star (greedy : bool) (p : ascii -> bool)
| Open
| Close.

Definition pattern := list item.

Definition Plus (p : ascii -> bool) : pattern := [One p; Star true p].
Definition Group (r : pattern) : pattern := Open :: r ++ [Close].

(** Captures so far: the start of the group being read, and the spans
    [(start, end)] of the groups already closed, most recent first. *)
Record caps : Type := mkCaps { cur : nat; closed : list (nat * nat) }.

Definition no_caps : caps := mkCaps 0 [].

(** [match_here r s pos cs]: match [r] against [s], the input from offset
    [pos] on.  Returns the end offset and the captures of the first match in
    backtracking order. *)
Fixpoint match_here (r : pattern) : text -> nat -> caps -> option (nat * caps) :=
  match r with
  | [] => fun _ pos cs => Some (pos, cs)
  | Lit l :: r' => fun s pos cs =>
      if starts_with l s
      then match_here r' (skipn (List.length l) s) (pos + List.length l) cs
      else None
  | One p :: r' => fun s pos cs =>
      match s with
      | c :: s' => if p c then match_here r' s' (S pos) cs else None
      | [] => None
      end
  | Star false p :: r' =>
      fix lazy (s : text) (pos : nat) (cs : caps) : option (nat * caps) :=
        match match_here r' s pos cs with
        | Some m => Some m
        | None =>
            match s with
            | c :: s' => if p c then lazy s' (S pos) cs else None
            | [] => None
            end
        end
  | Star true p :: r' =>
      fix greedy (s : text) (pos : nat) (cs : caps) : option (nat * caps) :=
        match s with
        | c :: s' =>
            if p c
            then match greedy s' (S pos) cs with
                 | Some m => Some m
                 | None => match_here r' s pos cs
                 end
            else match_here r' s pos cs
        | [] => match_here r' s pos cs
        end
  | Open :: r' => fun s pos cs =>
      match_here r' s pos (mkCaps pos (closed cs))
  | Close :: r' => fun s pos cs =>
      match_here r' s pos (mkCaps (cur cs) ((cur cs, pos) :: closed cs))
  end.

(** A match object: [m.start()], [m.end()] and the group spans in order. *)
Record rmatch : Type := mkMatch {
  m_start : nat;
  m_end : nat;
  m_groups : list (nat * nat)
}.

Definition match_at (r : pattern) (s : text) (pos : nat) : option rmatch :=
  match match_here r s pos no_caps with
  | Some (e, cs) => Some (mkMatch pos e (rev (closed cs)))
  | None => None
  end.

(** [re.search(r, s)] on [s], the input from offset [pos] on: the match at
    the leftmost offset that has one. *)
Fixpoint search_from (r : pattern) (s : text) (pos : nat) : option rmatch :=
  match match_at r s pos with
  | Some m => Some m
  | None =>
      match s with
      | [] => None
      | _ :: s' => search_from r s' (S pos)
      end
  end.

Definition re_search (r : pattern) (s : text) : option rmatch :=
  search_from r s 0.

(** [m.start(k)], [m.end(k)], [m.group(k)] for [k >= 1]. *)
Definition group_span (m : rmatch) (k : nat) : nat * nat :=
  nth (k - 1) (m_groups m) (0, 0).
Definition start_of (m : rmatch) (k : nat) : nat := fst (group_span m k).
Definition end_of (m : rmatch) (k : nat) : nat := snd (group_span m k).
Definition group (s : text) (m : rmatch) (k : nat) : text :=
  slice s (start_of m k) (end_of m k).

(** [re.finditer(r, s)]: the successive non-overlapping matches, scanning on
    from the end of each match.  [skip] counts the characters of the current
    match still to step over.  A match that is empty lets the scan advance by
    one character, as Python does. *)
Fixpoint finditer_from (r : pattern) (s : text) (pos skip : nat) : list rmatch :=
  match skip with
  | S k =>
      match s with
      | [] => []
      | _ :: s' => finditer_from r s' (S pos) k
      end
  | 0 =>
      match match_at r s pos with
      | Some m =>
          m :: match s with
               | [] => []
               | _ :: s' => finditer_from r s' (S pos) (m_end m - pos - 1)
               end
      | None =>
          match s with
          | [] => []
          | _ :: s' => finditer_from r s' (S pos) 0
          end
      end
  end.

Definition re_finditer (r : pattern) (s : text) : list rmatch :=
  finditer_from r s 0 0.

(** [re.sub(r, f, s)] with a callable [f]: text outside the matches is
    copied, each match is replaced by [f] of it. *)
Fixpoint sub_from (r : pattern) (f : rmatch -> text) (s : text) (pos skip : nat)
  : text :=
  match skip with
  | S k =>
      match s with
      | [] => []
      | _ :: s' => sub_from r f s' (S pos) k
      end
  | 0 =>
      match match_at r s pos with
      | Some m =>
          f m ++ match s with
                 | [] => []
                 | c :: s' =>
                     if Nat.eqb (m_end m) pos
                     then c :: sub_from r f s' (S pos) 0
                     else sub_from r f s' (S pos) (m_end m - pos - 1)
                 end
      | None =>
          match s with
          | [] => []
          | c :: s' => c :: sub_from r f s' (S pos) 0
          end
      end
  end.

Definition re_sub (r : pattern) (f : rmatch -> text) (s : text) : text :=
  sub_from r f s 0 0.

(** ** The world: files, console, randomness *)

Definition path := string.

Inductive exn : Type :=
| FileNotFoundError
| PermissionError
| OSError
| KeyError.

Record world : Type := mkWorld {
  files : path -> option text;     (* content of each existing file *)
  unreadable : path -> bool;       (* open(p, 'r') is refused *)
  refused : path -> bool;          (* open(p, 'w') is refused *)
  cut_at : path -> option nat;     (* a write to the file fails after that
                                      many characters have reached it *)
  urandom : nat -> N;              (* the successive draws of os.urandom(16) *)
  drawn : nat;                     (* how many have been taken *)
  stdout : list text;              (* lines printed so far, oldest first *)
  written : list (path * text)     (* the files overwritten so far, oldest first *)
}.

Inductive result (A : Type) : Type :=
| Ret (a : A)
| Raise (e : exn).
Arguments Ret {A} a.
Arguments Raise {A} e.

Definition M (A : Type) : Type := world -> result A * world.

Definition ret {A} (a : A) : M A := fun w => (Ret a, w).

Definition bind {A B} (m : M A) (k : A -> M B) : M B :=
  fun w =>
    match m w with
    | (Ret a, w') => k a w'
    | (Raise e, w') => (Raise e, w')
    end.

Definition raise {A} (e : exn) : M A := fun w => (Raise e, w).

Notation "x <- m ;; k" := (bind m (fun x => k))
  (at level 61, m at next level, right associativity).
Notation "m ;;; k" := (bind m (fun _ => k))
  (at level 61, right associativity).
Notation "m >>= k" := (bind m k) (at level 61, right associativity).

(** [try: m except FileNotFoundError: h] *)
Definition except_not_found {A} (m : M A) (h : M A) : M A :=
  fun w =>
    match m w with
    | (Raise FileNotFoundError, w') => h w'
    | r => r
    end.

(** [try: m except Exception as e: h] *)
Definition except_any {A} (m : M A) (h : exn -> M A) : M A :=
  fun w =>
    match m w with
    | (Raise e, w') => h e w'
    | r => r
    end.

(** A write to the file does not go through: the file cannot be opened for
    writing, or the write fails under way. *)
Definition unwritable (w : world) (p : path) : bool :=
  refused w p || match cut_at w p with Some _ => true | None => false end.

Definition print (line : text) : M unit :=
  fun w => (Ret tt, mkWorld (files w) (unreadable w) (refused w) (cut_at w)
                            (urandom w) (drawn w) (stdout w ++ [line]) (written w)).

(** The world after printing [lines]. *)
Definition say (lines : list text) (w : world) : world :=
  mkWorld (files w) (unreadable w) (refused w) (cut_at w) (urandom w) (drawn w)
          (stdout w ++ lines) (written w).

(** [with open(p, 'r') as f: f.read()] *)
Definition read_file (p : path) : M text :=
  fun w =>
    match files w p with
    | None => (Raise FileNotFoundError, w)
    | Some c => if unreadable w p then (Raise PermissionError, w) else (Ret c, w)
    end.

(** The world in which the file holds [c], whatever it held before. *)
Definition store (p : path) (c : text) (w : world) : world :=
  mkWorld (fun q => if String.eqb q p then Some c else files w q)
          (unreadable w) (refused w) (cut_at w)
          (urandom w) (drawn w) (stdout w)
          (written w ++ [(p, c)]).

(** [with open(p, 'w') as f: f.write(c)].  Opening truncates the file, so a
    write that fails under way leaves it cut: the old content is gone and of
    the new one only what had reached the file is there. *)
Definition write_file (p : path) (c : text) : M unit :=
  fun w =>
    if refused w p then (Raise PermissionError, w)
    else match cut_at w p with
         | None => (Ret tt, store p c w)
         | Some n => (Raise OSError, store p (firstn n c) w)
         end.

(** The exception a write to the file raises, if any. *)
Definition write_error (w : world) (p : path) : option exn :=
  if refused w p then Some PermissionError
  else match cut_at w p with Some _ => Some OSError | None => None end.

(** The world after [write_file p c], raised or not: as it was when the
    file could not be opened, else with what reached the file in it. *)
Definition after_write (p : path) (c : text) (w : world) : world :=
  if refused w p then w
  else store p (match cut_at w p with Some n => firstn n c | None => c end) w.

(** [os.path.exists(p)] *)
Definition path_exists (p : path) : M bool :=
  fun w => (Ret (match files w p with Some _ => true | None => false end), w).

Definition exn_text (e : exn) : text :=
  match e with
  | FileNotFoundError => "[Errno 2] No such file or directory"
  | PermissionError => "[Errno 13] Permission denied"
  | OSError => "[Errno 28] No space left on device"
  | KeyError => "KeyError"
  end.

(** The exit status of a script whose body is [m]: the value handed to
    [sys.exit], and 1 when an exception reaches the top level. *)
Definition exit_status (m : M nat) (w : world) : nat * world :=
  match m w with
  | (Ret code, w') => (code, w')
  | (Raise _, w') => (1, w')
  end.

(** *** uuid.uuid4 *)

(** [uuid.uuid4().int]: 128 random bits with the variant and the version
    forced. *)
Definition uuid4_int (r : N) : N :=
  let i := N.land r (N.ones 128) in
  let i := N.ldiff i (N.shiftl 49152 48) in     (* int &= ~(0xc000 << 48) *)
  let i := N.lor i (N.shiftl 32768 48) in       (* int |= 0x8000 << 48 *)
  let i := N.ldiff i (N.shiftl 61440 64) in     (* int &= ~(0xf000 << 64) *)
  N.lor i (N.shiftl 4 76).                      (* int |= version << 76 *)

Definition hex_upper (d : N) : ascii :=
  if N.ltb d 10 then ascii_of_N (48 + d) else ascii_of_N (55 + d).

(** The [k]-th of the 32 hexadecimal digits of [i], most significant first. *)
Definition hex_digit_at (i : N) (k : nat) : ascii :=
  hex_upper (N.land (N.shiftr i (4 * N.of_nat (31 - k))) 15).

(** [str(u).replace('-', '').upper()[:24]] *)
Definition id_of_uuid (i : N) : text :=
  map (hex_digit_at i) (seq 0 24).

Definition uuid4 : M N :=
  fun w => (Ret (uuid4_int (urandom w (drawn w))),
            mkWorld (files w) (unreadable w) (refused w) (cut_at w)
                    (urandom w) (S (drawn w)) (stdout w) (written w)).

Definition fresh_id : M text :=
  u <- uuid4 ;; ret (id_of_uuid u).

(** ** Dictionaries

    A Python [dict] with text keys, in insertion order. *)

Definition dict (V : Type) := list (text * V).

Fixpoint dict_get {V} (d : dict V) (k : text) : option V :=
  match d with
  | [] => None
  | (k', v) :: d' => if text_eqb k' k then Some v else dict_get d' k
  end.

Definition dict_has {V} (d : dict V) (k : text) : bool :=
  match dict_get d k with Some _ => true | None => false end.

(** [d[k] = v] *)
Fixpoint dict_set {V} (d : dict V) (k : text) (v : V) : dict V :=
  match d with
  | [] => [(k, v)]
  | (k', v') :: d' =>
      if text_eqb k' k then (k', v) :: d' else (k', v') :: dict_set d' k v
  end.

Definition dict_keys {V} (d : dict V) : list text := map fst d.

(** A dict display [{k1: v1, k2: v2, ...}]: later items win. *)
Definition dict_of {V} (items : list (text * V)) : dict V :=
  fold_left (fun d kv => dict_set d (fst kv) (snd kv)) items [].

(** A [set] of texts, as the list of its distinct members. *)
Definition set_add (x : text) (s : list text) : list text :=
  if existsb (text_eqb x) s then s else s ++ [x].

Definition nat_text (n : nat) : text :=
  DecimalString.NilZero.string_of_uint (Nat.to_uint n).

(** ** add_file_to_xcode.py *)

Module AddFile.

(** [(/\* Begin PBXFileReference section \*/)(.*?)(\t\t/\* End PBXFileReference section \*/)]
    under re.DOTALL *)
Definition file_ref_pattern : pattern :=
  Group [Lit "/* Begin PBXFileReference section */"] ++
  Group [Star false any_char] ++
  Group [Lit ([TAB; TAB] ++ "/* End PBXFileReference section */")].

(** [(/\* Begin PBXBuildFile section \*/)(.*?)(\t\t/\* End PBXBuildFile section \*/)]
    under re.DOTALL *)
Definition build_file_pattern : pattern :=
  Group [Lit "/* Begin PBXBuildFile section */"] ++
  Group [Star false any_char] ++
  Group [Lit ([TAB; TAB] ++ "/* End PBXBuildFile section */")].

(** [([A-Z0-9]{24}) /\* NoteWall \*/ = \{[^}]*?children = \((.*?)\);]
    under re.DOTALL *)
Definition group_pattern : pattern :=
  Group (repeat (One is_upper_or_digit) 24) ++
  [Lit " /* NoteWall */ = {"; Star false not_rbrace; Lit "children = ("] ++
  Group [Star false any_char] ++
  [Lit ");"].

(** [(isa = PBXSourcesBuildPhase;[^}]*?files = \()(.*?)(\n\t\t\t\);)]
    under re.DOTALL *)
Definition sources_pattern : pattern :=
  Group [Lit "isa = PBXSourcesBuildPhase;"; Star false not_rbrace; Lit "files = ("] ++
  Group [Star false any_char] ++
  Group [Lit ([NL; TAB; TAB; TAB] ++ ");")].

Definition file_ref_entry (file_ref_id swift_file_name : text) : text :=
  [TAB; TAB] ++ file_ref_id ++ " /* " ++ swift_file_name ++
  " */ = {isa = PBXFileReference; lastKnownFileType = sourcecode.swift; path = " ++
  swift_file_name ++ "; sourceTree = " ++ [QUOTE] ++ "<group>" ++ [QUOTE] ++
  "; };" ++ [NL].

Definition build_file_entry (build_file_id file_ref_id swift_file_name : text) : text :=
  [TAB; TAB] ++ build_file_id ++ " /* " ++ swift_file_name ++
  " in Sources */ = {isa = PBXBuildFile; fileRef = " ++ file_ref_id ++
  " /* " ++ swift_file_name ++ " */; };" ++ [NL].

Definition children_entry (file_ref_id swift_file_name : text) : text :=
  [NL; TAB; TAB; TAB; TAB] ++ file_ref_id ++ " /* " ++ swift_file_name ++ " */,".

Definition sources_entry (build_file_id swift_file_name : text) : text :=
  [NL; TAB; TAB; TAB; TAB] ++ build_file_id ++ " /* " ++ swift_file_name ++
  " in Sources */,".

(** The four splices, each on the blob as mutated so far.  [None]: the
    pattern of the step has no match. *)

(** Step 1: [content[:m.end(2)] + file_ref_entry + content[m.end(2):]] *)
Definition step_file_ref (file_ref_id swift_file_name content : text) : option text :=
  match re_search file_ref_pattern content with
  | None => None
  | Some m => Some (splice content (end_of m 2)
                           (file_ref_entry file_ref_id swift_file_name))
  end.

(** Step 2 *)
Definition step_build_file (build_file_id file_ref_id swift_file_name content : text)
  : option text :=
  match re_search build_file_pattern content with
  | None => None
  | Some m => Some (splice content (end_of m 2)
                           (build_file_entry build_file_id file_ref_id swift_file_name))
  end.

(** Step 3:
    [content[:m.start(2)] + m.group(2) + children_entry + content[m.end(2):]] *)
Definition step_group (file_ref_id swift_file_name content : text) : option text :=
  match re_search group_pattern content with
  | None => None
  | Some m =>
      Some (firstn (start_of m 2) content ++
            (group content m 2 ++ children_entry file_ref_id swift_file_name) ++
            skipn (end_of m 2) content)
  end.

(** Step 4 *)
Definition step_sources (build_file_id swift_file_name content : text) : option text :=
  match re_search sources_pattern content with
  | None => None
  | Some m => Some (splice content (end_of m 2)
                           (sources_entry build_file_id swift_file_name))
  end.

Definition add_file_to_xcode_project (project_file_path : path) (swift_file_name : text)
  : M bool :=
  except_not_found
    (content <- read_file project_file_path ;; ret (Some content))
    (print ("❌ Error: Could not find project file at " ++
            list_ascii_of_string project_file_path) ;;;
     ret None) >>= fun read =>
  match read with
  | None => ret false
  | Some content =>
  file_ref_id <- fresh_id ;;
  build_file_id <- fresh_id ;;
  print ("📝 Adding " ++ swift_file_name ++ " to Xcode project...") ;;;
  print ("   File Reference ID: " ++ file_ref_id) ;;;
  print ("   Build File ID: " ++ build_file_id) ;;;
  match step_file_ref file_ref_id swift_file_name content with
  | None => print "❌ Could not find PBXFileReference section" ;;; ret false
  | Some content =>
  print "   ✅ Added to PBXFileReference section" ;;;
  match step_build_file build_file_id file_ref_id swift_file_name content with
  | None => print "❌ Could not find PBXBuildFile section" ;;; ret false
  | Some content =>
  print "   ✅ Added to PBXBuildFile section" ;;;
  match step_group file_ref_id swift_file_name content with
  | None => print "❌ Could not find NoteWall group" ;;; ret false
  | Some content =>
  print "   ✅ Added to NoteWall group" ;;;
  match step_sources build_file_id swift_file_name content with
  | None => print "❌ Could not find PBXSourcesBuildPhase section" ;;; ret false
  | Some content =>
  print "   ✅ Added to PBXSourcesBuildPhase" ;;;
  except_any
    (write_file project_file_path content ;;;
     print ([NL] ++ "✅ Successfully added " ++ swift_file_name ++ " to Xcode project!") ;;;
     ret true)
    (fun e =>
       print ("❌ Error writing to project file: " ++ exn_text e) ;;;
       ret false)
  end end end end end.

(** The blob after the four splices; [None] when a pattern has no match at
    its step. *)
Definition patched (file_ref_id build_file_id swift_file_name content : text)
  : option text :=
  match step_file_ref file_ref_id swift_file_name content with
  | None => None
  | Some content =>
  match step_build_file build_file_id file_ref_id swift_file_name content with
  | None => None
  | Some content =>
  match step_group file_ref_id swift_file_name content with
  | None => None
  | Some content => step_sources build_file_id swift_file_name content
  end end end.

(** The two identifiers a run started in [w] draws. *)
Definition first_id (w : world) : text := id_of_uuid (uuid4_int (urandom w (drawn w))).
Definition second_id (w : world) : text :=
  id_of_uuid (uuid4_int (urandom w (S (drawn w)))).

(** Some pattern has no match at its step. *)
Definition missing_section (file_ref_id build_file_id swift_file_name content : text)
  : Prop :=
  re_search file_ref_pattern content = None \/
  exists c1, step_file_ref file_ref_id swift_file_name content = Some c1 /\
  (re_search build_file_pattern c1 = None \/
   exists c2, step_build_file build_file_id file_ref_id swift_file_name c1 = Some c2 /\
   (re_search group_pattern c2 = None \/
    exists c3, step_group file_ref_id swift_file_name c2 = Some c3 /\
               re_search sources_pattern c3 = None)).

Definition project_file : path := "NoteWall.xcodeproj/project.pbxproj".
Definition swift_file : text := "WhatsNewView.swift".

(** [if __name__ == '__main__': ... sys.exit(0 if success else 1)] *)
Definition main : M nat :=
  success <- add_file_to_xcode_project project_file swift_file ;;
  ret (if success then 0 else 1).

End AddFile.

(** ** add_resource_to_xcode.py *)

Module AddResource.

(** Three groups: [/\* Begin PBXFileReference section \*/\s*], then [.*?],
    then [\s*/\* End PBXFileReference section \*/]; re.DOTALL. *)
Definition file_ref_pattern : pattern :=
  Group [Lit "/* Begin PBXFileReference section */"; Star true is_space] ++
  Group [Star false any_char] ++
  Group [Star true is_space; Lit "/* End PBXFileReference section */"].

(** Three groups: [/\* Begin PBXBuildFile section \*/\s*], then [.*?],
    then [\s*/\* End PBXBuildFile section \*/]; re.DOTALL. *)
Definition build_file_pattern : pattern :=
  Group [Lit "/* Begin PBXBuildFile section */"; Star true is_space] ++
  Group [Star false any_char] ++
  Group [Star true is_space; Lit "/* End PBXBuildFile section */"].

(** [(A5000002000000000000001)\s*/\* NoteWall \*/\s*=\s*\{.*?children\s*=\s*\((.*?)\);]
    under re.DOTALL *)
Definition group_pattern : pattern :=
  Group [Lit "A5000002000000000000001"] ++
  [Star true is_space; Lit "/* NoteWall */"; Star true is_space; Lit "=";
   Star true is_space; Lit "{"; Star false any_char; Lit "children";
   Star true is_space; Lit "="; Star true is_space; Lit "("] ++
  Group [Star false any_char] ++
  [Lit ");"].

(** [(isa = PBXResourcesBuildPhase;[^}]*?files = \()(.*?)(\);)] under re.DOTALL *)
Definition resources_pattern : pattern :=
  Group [Lit "isa = PBXResourcesBuildPhase;"; Star false not_rbrace; Lit "files = ("] ++
  Group [Star false any_char] ++
  Group [Lit ");"].

Definition file_ref_entry (file_ref_id file_name file_type : text) : text :=
  [TAB; TAB] ++ file_ref_id ++ " /* " ++ file_name ++
  " */ = {isa = PBXFileReference; lastKnownFileType = " ++ file_type ++ "; path = " ++
  file_name ++ "; sourceTree = " ++ [QUOTE] ++ "<group>" ++ [QUOTE] ++
  "; };" ++ [NL].

Definition build_file_entry (build_file_id file_ref_id file_name : text) : text :=
  [TAB; TAB] ++ build_file_id ++ " /* " ++ file_name ++
  " in Resources */ = {isa = PBXBuildFile; fileRef = " ++ file_ref_id ++
  " /* " ++ file_name ++ " */; };" ++ [NL].

Definition children_entry (file_ref_id file_name : text) : text :=
  [NL; TAB; TAB; TAB; TAB] ++ file_ref_id ++ " /* " ++ file_name ++ " */,".

Definition resources_entry (build_file_id file_name : text) : text :=
  [NL; TAB; TAB; TAB; TAB] ++ build_file_id ++ " /* " ++ file_name ++
  " in Resources */,".

(** [content[:m.end(2)] + entry + content[m.end(2):]] for the match of [r] *)
Definition insert_at_end2 (r : pattern) (entry content : text) : option text :=
  match re_search r content with
  | None => None
  | Some m => Some (splice content (end_of m 2) entry)
  end.

Definition add_resource_to_xcode_project
  (project_file_path : path) (file_name file_type : text) : M bool :=
  except_not_found
    (content <- read_file project_file_path ;; ret (Some content))
    (print ("❌ Error: Could not find project file at " ++
            list_ascii_of_string project_file_path) ;;;
     ret None) >>= fun read =>
  match read with
  | None => ret false
  | Some content =>
  file_ref_id <- fresh_id ;;
  build_file_id <- fresh_id ;;
  print ("📝 Adding " ++ file_name ++ " to Xcode project...") ;;;
  print ("   File Reference ID: " ++ file_ref_id) ;;;
  print ("   Build File ID: " ++ build_file_id) ;;;
  match insert_at_end2 file_ref_pattern
          (file_ref_entry file_ref_id file_name file_type) content with
  | None => print "❌ Could not find PBXFileReference section" ;;; ret false
  | Some content =>
  print "   ✅ Added to PBXFileReference section" ;;;
  match insert_at_end2 build_file_pattern
          (build_file_entry build_file_id file_ref_id file_name) content with
  | None => print "❌ Could not find PBXBuildFile section" ;;; ret false
  | Some content =>
  print "   ✅ Added to PBXBuildFile section" ;;;
  match re_search group_pattern content with
  | None => print "❌ Could not find NoteWall group" ;;; ret false
  | Some m =>
  let content :=
    firstn (start_of m 2) content ++
    (group content m 2 ++ children_entry file_ref_id file_name) ++
    skipn (end_of m 2) content in
  print "   ✅ Added to NoteWall group" ;;;
  match insert_at_end2 resources_pattern
          (resources_entry build_file_id file_name) content with
  | None => print "❌ Could not find PBXResourcesBuildPhase section" ;;; ret false
  | Some content =>
  print "   ✅ Added to PBXResourcesBuildPhase" ;;;
  except_any
    (write_file project_file_path content ;;;
     print ([NL] ++ "✅ Successfully added " ++ file_name ++ " to Xcode project!") ;;;
     ret true)
    (fun e =>
       print ("❌ Error writing to project file: " ++ exn_text e) ;;;
       ret false)
  end end end end end.

(** The blob after the four splices; [None] when a pattern has no match at
    its step. *)
Definition patched (file_ref_id build_file_id file_name file_type content : text)
  : option text :=
  match insert_at_end2 file_ref_pattern
          (file_ref_entry file_ref_id file_name file_type) content with
  | None => None
  | Some content =>
  match insert_at_end2 build_file_pattern
          (build_file_entry build_file_id file_ref_id file_name) content with
  | None => None
  | Some content =>
  match re_search group_pattern content with
  | None => None
  | Some m =>
  insert_at_end2 resources_pattern (resources_entry build_file_id file_name)
    (firstn (start_of m 2) content ++
     (group content m 2 ++ children_entry file_ref_id file_name) ++
     skipn (end_of m 2) content)
  end end end.

Definition project_file : path := "NoteWall.xcodeproj/project.pbxproj".
Definition resource_file : text := "PrivacyInfo.xcprivacy".

(** [success = add_resource_to_xcode_project(project_file, resource_file)],
    with the default [file_type="text.xml"], then
    [sys.exit(0 if success else 1)] *)
Definition main : M nat :=
  success <- add_resource_to_xcode_project project_file resource_file "text.xml" ;;
  ret (if success then 0 else 1).

End AddResource.

(** ** fix_xcode_resources.py *)

Module FixResources.

(** [(\w+)\s+/\*\s+NAME in Resources\s+\*/], where NAME is the pattern [name] *)
Definition asset_pattern (name : pattern) : pattern :=
  Group (Plus is_word) ++ Plus is_space ++ [Lit "/*"] ++ Plus is_space ++
  name ++ [Lit " in Resources"] ++ Plus is_space ++ [Lit "*/"].

(** [(\w+)\s+/\*\s+Contents\.json in Resources\s+\*/\s+=\s+\{isa\s+=\s+PBXBuildFile;] *)
Definition buildfile_pattern : pattern :=
  asset_pattern [Lit "Contents.json"] ++
  Plus is_space ++ [Lit "="] ++ Plus is_space ++ [Lit "{isa"] ++
  Plus is_space ++ [Lit "="] ++ Plus is_space ++ [Lit "PBXBuildFile;"].

Definition asset_file_patterns : list pattern :=
  [ asset_pattern ([Lit "Icon-App-"] ++ Plus is_nonspace ++ [Lit ".png"]);
    asset_pattern [Lit "mockup"; Star true not_newline; Lit ".png"];
    asset_pattern [Lit "experiment-icon.png"];
    asset_pattern [Lit "FAITHWALL.png"];
    asset_pattern [Lit "skipForward3s.png"];
    asset_pattern [Lit "skipBackward3s.png"];
    asset_pattern [Lit "safari-logo"; Star true not_newline; Lit ".png"];
    asset_pattern [Lit "shortcuts-app-logo.png"];
    asset_pattern [Lit "stuck-placeholder.png"];
    asset_pattern [Lit "notificationes.png"];
    asset_pattern [Lit "image-"; One is_digit; Lit "-review.png"];
    asset_pattern [Lit "logo-icon.png"];
    asset_pattern [Lit "instruction_wallpaper.png"];
    asset_pattern [Lit "arrow.png"] ].

(** [for match in re.finditer(pattern, content): ids.add(match.group(1))] *)
Definition add_matches (r : pattern) (content : text) (ids : list text) : list text :=
  fold_left (fun ids m => set_add (group content m 1) ids) (re_finditer r content) ids.

Definition ids_to_remove (content : text) : list text :=
  fold_left (fun ids r => add_matches r content ids) asset_file_patterns
            (add_matches buildfile_pattern content []).

(** [(\/\* Begin PBXResourcesBuildPhase section \*\/.*?)(files = \()(.*?)(\);)(.*?\/\* End PBXResourcesBuildPhase section \*\/)]
    under re.DOTALL *)
Definition resources_section_pattern : pattern :=
  Group [Lit "/* Begin PBXResourcesBuildPhase section */"; Star false any_char] ++
  Group [Lit "files = ("] ++
  Group [Star false any_char] ++
  Group [Lit ");"] ++
  Group [Star false any_char; Lit "/* End PBXResourcesBuildPhase section */"].

(** The inner loop: is some identifier of the set in the line, the line
    mentioning [in Resources]? *)
Definition should_remove (ids : list text) (line : text) : bool :=
  existsb (fun id_to_remove => contains id_to_remove line &&
                               contains "in Resources" line) ids.

Definition kept_lines (ids : list text) (lines : list text) : list text :=
  filter (fun line => negb (should_remove ids line)) lines.

Definition removed_count (ids : list text) (lines : list text) : nat :=
  List.length (filter (should_remove ids) lines).

(** The callback handed to [re.sub]: what it returns ... *)
Definition remove_ids_from_files (ids : list text) (content : text) (m : rmatch) : text :=
  let before := group content m 1 in
  let files_start := group content m 2 in
  let files_content := group content m 3 in
  let files_end := group content m 4 in
  let after := group content m 5 in
  let lines := split_lines files_content in
  let new_files_content := join_lines (kept_lines ids lines) in
  before ++ files_start ++ new_files_content ++ files_end ++ after.

(** ... and what it prints. *)
Definition remove_ids_report (ids : list text) (content : text) (m : rmatch) : text :=
  "Removed " ++ nat_text (removed_count ids (split_lines (group content m 3))) ++
  " entries from Resources build phase".

Fixpoint print_all (lines : list text) : M unit :=
  match lines with
  | [] => ret tt
  | l :: ls => print l ;;; print_all ls
  end.

(** The blob after the pass. *)
Definition fixed_content (content : text) : text :=
  re_sub resources_section_pattern
         (remove_ids_from_files (ids_to_remove content) content) content.

Definition found_message (ids : list text) : text :=
  "Found " ++ nat_text (List.length ids) ++ " asset catalog file references to remove".

Definition no_changes_message : text :=
  "No changes were made - this might mean the pattern didn't match".

Definition success_message (pbxproj_path : path) : text :=
  "Successfully updated " ++ list_ascii_of_string pbxproj_path.

(** The lines the pass prints before it compares the blobs. *)
Definition fix_reports (content : text) : list text :=
  found_message (ids_to_remove content) ::
  map (remove_ids_report (ids_to_remove content) content)
      (re_finditer resources_section_pattern content).

Definition fix_xcode_project (pbxproj_path : path) : M bool :=
  content <- read_file pbxproj_path ;;
  let original_content := content in
  let ids := ids_to_remove content in
  print (found_message ids) ;;;
  print_all (map (remove_ids_report ids content)
                 (re_finditer resources_section_pattern content)) ;;;
  let content := fixed_content content in
  if text_eqb content original_content then
    print no_changes_message ;;;
    ret false
  else
    write_file pbxproj_path content ;;;
    print (success_message pbxproj_path) ;;;
    ret true.

Definition pbxproj_path : path :=
  "/Users/carly/GITHUB REPOS/STRANKY:APLIKACIE/NOTEWALL-CLAUDECODE/NoteWall.xcodeproj/project.pbxproj".

(** The script body: exits 1 on failure, falls off the end (status 0) on
    success. *)
Definition main : M nat :=
  print "Fixing Xcode project resource conflicts..." ;;;
  print ("Project file: " ++ list_ascii_of_string pbxproj_path) ;;;
  print [] ;;;
  success <- fix_xcode_project pbxproj_path ;;
  if success then
    print [] ;;;
    print "✅ Fix complete!" ;;;
    print "Please clean your build folder and rebuild:" ;;;
    print "  Product > Clean Build Folder (Shift+Cmd+K)" ;;;
    print "  Then build again" ;;;
    ret 0
  else
    print "❌ No changes made - please check the script" ;;;
    ret 1.

End FixResources.

(** ** localize_app.py *)

Module Localize.

Definition dq : string := String QUOTE EmptyString.

(** *** The hardcoded dictionaries, [TRANSLATIONS["de"]], ["es"], ["fr"] *)

Definition TRANSLATIONS_de_items : list (string * string) := [
  ("Continue",
   "Weiter");
  ("Cancel",
   "Abbrechen");
  ("Delete",
   "Löschen");
  ("Done",
   "Fertig");
  ("Close",
   "Schließen");
  ("OK",
   "OK");
  ("Skip",
   "Überspringen");
  ("Next",
   "Weiter");
  ("Yes",
   "Ja");
  ("No",
   "Nein");
  ("Send",
   "Senden");
  ("Apply",
   "Anwenden");
  ("Save",
   "Speichern");
  ("Loading...",
   "Lädt...");
  ("Sending...",
   "Wird gesendet...");
  ("Updating…",
   "Aktualisiert...");
  ("Generating...",
   "Generiert...");
  ("Saving…",
   "Speichert...");
  ("Preview",
   "Vorschau");
  ("Install",
   "Installieren");
  ("Error",
   "Fehler");
  ("Success",
   "Erfolg");
  ("Warning",
   "Warnung");
  ("Info",
   "Info");
  ("Issues found:",
   "Gefundene Probleme:");
  ("Contact Support",
   "Support kontaktieren");
  ("Start Auto-Fix",
   "Auto-Fix starten");
  ("Delete Previous Wallpaper?",
   "Vorheriges Hintergrundbild löschen?");
  ("To avoid filling your Photos library, NoteWall can delete the previous wallpaper. If you continue, iOS will ask for permission to delete the photo.",
   "Um deine Fotomediathek nicht zu füllen, kann NoteWall das vorherige Hintergrundbild löschen. Wenn du fortsetzt, wird iOS um Erlaubnis zum Löschen des Fotos bitten.");
  ("Delete Note?",
   "Notiz löschen?");
  ("Are you sure you want to delete this note? This action cannot be undone.",
   "Bist du sicher, dass du diese Notiz löschen möchtest? Diese Aktion kann nicht rückgängig gemacht werden.");
  ("Delete Selected Notes?",
   "Ausgewählte Notizen löschen?");
  ("Are you sure you want to delete the selected notes? This action cannot be undone.",
   "Bist du sicher, dass du die ausgewählten Notizen löschen möchtest? Diese Aktion kann nicht rückgängig gemacht werden.");
  ("Wallpaper Full",
   "Hintergrundbild voll");
  ("Your wallpaper has reached its maximum capacity. Complete or delete existing notes to add new ones.",
   "Dein Hintergrundbild hat seine maximale Kapazität erreicht. Erledige oder lösche bestehende Notizen, um neue hinzuzufügen.");
  ("No notes yet",
   "Noch keine Notizen");
  ("Add a note below to get started",
   "Füge unten eine Notiz hinzu, um zu beginnen");
  ("Delete (%lld)",
   "Löschen (%lld)");
  ("Wallpaper Not Showing?",
   "Hintergrundbild wird nicht angezeigt?");
  ("We can help you fix it in just a few steps.",
   "Wir können dir helfen, es in wenigen Schritten zu beheben.");
  ("Get Help",
   "Hilfe erhalten");
  ("Friendly Reminder",
   "Freundliche Erinnerung");
  ("Your free trial subscription will be ending soon.",
   "Dein kostenloses Testabonnement endet bald.");
  ("Great! You added your first note",
   "Großartig! Du hast deine erste Notiz hinzugefügt");
  (("Add more notes using the + button, then tap " ++ dq ++ "Update Wallpaper" ++ dq ++ " to apply them to your lock screen."),
   ("Füge weitere Notizen mit der +-Schaltfläche hinzu und tippe dann auf " ++ dq ++ "Hintergrundbild aktualisieren" ++ dq ++ ", um sie auf deinen Sperrbildschirm anzuwenden."));
  ("Deleting notes...",
   "Notizen werden gelöscht...");
  ("Notes Deleted!",
   "Notizen gelöscht!");
  ("sec",
   "Sek.");
  ("Device Category:",
   "Gerätekategorie:");
  ("Screen:",
   "Bildschirm:");
  ("Scale Factor:",
   "Skalierungsfaktor:");
  ("Is Compact:",
   "Ist kompakt:");
  ("Max Video Height:",
   "Max. Videohöhe:");
  ("Before You Go...",
   "Bevor du gehst...");
  ("Hey! I built NoteWall myself and I'm genuinely trying to make it better every day.",
   "Hey! Ich habe NoteWall selbst entwickelt und versuche wirklich, es jeden Tag besser zu machen.");
  ("If something didn't work or felt off, I really want to know. Your feedback directly shapes what I fix next.",
   "Wenn etwas nicht funktioniert hat oder sich merkwürdig anfühlte, möchte ich es wirklich wissen. Dein Feedback bestimmt direkt, was ich als nächstes behebe.");
  ("What could be better?",
   "Was könnte besser sein?");
  ("Tell me what went wrong...",
   "Sag mir, was schief gelaufen ist...");
  ("Send Feedback",
   "Feedback senden");
  ("Maybe Later",
   "Vielleicht später");
  ("Thanks for Your Feedback!",
   "Danke für dein Feedback!");
  ("I'll read this personally and work on making NoteWall better.",
   "Ich werde das persönlich lesen und daran arbeiten, NoteWall besser zu machen.");
  ("Privacy Policy",
   "Datenschutzrichtlinie");
  ("Terms of Service",
   "Nutzungsbedingungen");
  ("End User License Agreement",
   "Endbenutzer-Lizenzvereinbarung");
  ("Unlock Full Access",
   "Vollen Zugriff freischalten");
  ("Get Premium",
   "Premium erhalten");
  ("Restore Purchase",
   "Kauf wiederherstellen");
  ("Already subscribed?",
   "Schon abonniert?");
  ("Unlimited wallpaper updates",
   "Unbegrenzte Hintergrundbild-Updates");
  ("Custom fonts & styles",
   "Benutzerdefinierte Schriftarten & Stile");
  ("Priority support",
   "Vorrangiger Support");
  ("No ads, ever",
   "Keine Werbung, niemals");
  ("Start Free Trial",
   "Kostenlose Testversion starten");
  ("Subscribe",
   "Abonnieren");
  ("Lifetime Access",
   "Lebenslanger Zugriff");
  ("Monthly",
   "Monatlich");
  ("Yearly",
   "Jährlich");
  ("Settings",
   "Einstellungen");
  ("Wallpaper Settings",
   "Hintergrundbild-Einstellungen");
  ("Text Style",
   "Textstil");
  ("Help & Support",
   "Hilfe & Support");
  ("About",
   "Über");
  ("Version",
   "Version");
  ("Build",
   "Build");
  ("Share NoteWall",
   "NoteWall teilen");
  ("Rate Us",
   "Bewerte uns");
  ("Send us Feedback",
   "Feedback senden");
  ("Welcome to NoteWall",
   "Willkommen bei NoteWall");
  ("Never forget what matters",
   "Vergiss nie, was wichtig ist");
  ("Your notes, always visible",
   "Deine Notizen, immer sichtbar");
  ("Let's get started",
   "Lass uns beginnen");
  ("What's your name?",
   "Wie heißt du?");
  ("Enter your name",
   "Gib deinen Namen ein");
  ("Skip this step",
   "Diesen Schritt überspringen");
  ("Grant Permissions First",
   "Erteile zuerst die Berechtigungen");
  ("Permissions granted!",
   "Berechtigungen erteilt!");
  ("Allow ALL Permissions",
   "ALLE Berechtigungen erlauben");
  ("Permission popups appear here",
   "Berechtigungs-Popups erscheinen hier");
  ("click ALLOW for all",
   "ERLAUBEN für alle anklicken");
  ("(this is how it should look)",
   "(so sollte es aussehen)");
  ("Start Using NoteWall",
   "NoteWall verwenden");
  ("We Owe You an Apology",
   "Wir schulden dir eine Entschuldigung");
  ("You might have experienced a bug that prevented your wallpaper from updating. That's on us — let's get you back on track.",
   "Möglicherweise hast du einen Fehler erlebt, der die Aktualisierung deines Hintergrundbilds verhindert hat. Das liegt an uns – lass uns das in Ordnung bringen.");
  ("What Happened?",
   "Was ist passiert?");
  ("The Issue",
   "Das Problem");
  ("A technical bug prevented wallpapers from updating correctly for some users.",
   "Ein technischer Fehler verhinderte die korrekte Aktualisierung von Hintergrundbildern für einige Benutzer.");
  ("Your Notes Are Safe",
   "Deine Notizen sind sicher");
  ("All your notes and data are perfectly intact.",
   "Alle deine Notizen und Daten sind vollkommen intakt.");
  ("The Fix",
   "Die Lösung");
  ("We've completely rebuilt the system. It now works faster and more reliably.",
   "Wir haben das System komplett neu aufgebaut. Es funktioniert jetzt schneller und zuverlässiger.");
  ("What You Need to Do",
   "Was du tun musst");
  ("Quick 1-minute setup to install the new system.",
   "Schnelle 1-Minuten-Einrichtung zur Installation des neuen Systems.");
  ("Let's Fix This Together",
   "Lass uns das gemeinsam beheben");
  ("I'll Handle It Later",
   "Ich kümmere mich später darum");
  ("What's New",
   "Was ist neu");
  ("New in this version",
   "Neu in dieser Version");
  ("Improvements and bug fixes",
   "Verbesserungen und Fehlerbehebungen");
  ("Got It",
   "Verstanden");
  ("Troubleshooting",
   "Fehlerbehebung");
  ("Common Issues",
   "Häufige Probleme");
  ("Wallpaper not updating?",
   "Hintergrundbild wird nicht aktualisiert?");
  ("Try these steps:",
   "Versuche diese Schritte:");
  ("Restart your device",
   "Starte dein Gerät neu");
  ("Reinstall the shortcut",
   "Installiere die Verknüpfung neu");
  ("Check permissions",
   "Überprüfe die Berechtigungen");
  ("Still having issues?",
   "Hast du immer noch Probleme?");
  ("Contact our support team",
   "Kontaktiere unser Support-Team");
  ("Why are you canceling?",
   "Warum kündigst du?");
  ("Your feedback helps us improve",
   "Dein Feedback hilft uns bei der Verbesserung");
  ("Too expensive",
   "Zu teuer");
  ("Not using it enough",
   "Nutze es nicht genug");
  ("Technical issues",
   "Technische Probleme");
  ("Missing features",
   "Fehlende Funktionen");
  ("Other reason",
   "Anderer Grund");
  ("Tell us more (optional)",
   "Erzähl uns mehr (optional)");
  ("Submit Feedback",
   "Feedback absenden");
  ("Thank you for your feedback",
   "Danke für dein Feedback")
]%string.

Definition TRANSLATIONS_es_items : list (string * string) := [
  ("Continue",
   "Continuar");
  ("Cancel",
   "Cancelar");
  ("Delete",
   "Eliminar");
  ("Done",
   "Listo");
  ("Close",
   "Cerrar");
  ("OK",
   "OK");
  ("Skip",
   "Omitir");
  ("Next",
   "Siguiente");
  ("Yes",
   "Sí");
  ("No",
   "No");
  ("Send",
   "Enviar");
  ("Apply",
   "Aplicar");
  ("Save",
   "Guardar");
  ("Loading...",
   "Cargando...");
  ("Sending...",
   "Enviando...");
  ("Updating…",
   "Actualizando...");
  ("Generating...",
   "Generando...");
  ("Saving…",
   "Guardando...");
  ("Preview",
   "Vista previa");
  ("Install",
   "Instalar");
  ("Error",
   "Error");
  ("Success",
   "Éxito");
  ("Warning",
   "Advertencia");
  ("Info",
   "Info");
  ("Issues found:",
   "Problemas encontrados:");
  ("Contact Support",
   "Contactar soporte");
  ("Start Auto-Fix",
   "Iniciar corrección automática");
  ("Delete Previous Wallpaper?",
   "¿Eliminar fondo anterior?");
  ("To avoid filling your Photos library, NoteWall can delete the previous wallpaper. If you continue, iOS will ask for permission to delete the photo.",
   "Para evitar llenar tu biblioteca de Fotos, NoteWall puede eliminar el fondo anterior. Si continúas, iOS pedirá permiso para eliminar la foto.");
  ("Delete Note?",
   "¿Eliminar nota?");
  ("Are you sure you want to delete this note? This action cannot be undone.",
   "¿Estás seguro de que quieres eliminar esta nota? Esta acción no se puede deshacer.");
  ("Delete Selected Notes?",
   "¿Eliminar notas seleccionadas?");
  ("Are you sure you want to delete the selected notes? This action cannot be undone.",
   "¿Estás seguro de que quieres eliminar las notas seleccionadas? Esta acción no se puede deshacer.");
  ("Wallpaper Full",
   "Fondo lleno");
  ("Your wallpaper has reached its maximum capacity. Complete or delete existing notes to add new ones.",
   "Tu fondo ha alcanzado su capacidad máxima. Completa o elimina notas existentes para añadir nuevas.");
  ("No notes yet",
   "Sin notas aún");
  ("Add a note below to get started",
   "Añade una nota abajo para empezar");
  ("Delete (%lld)",
   "Eliminar (%lld)");
  ("Wallpaper Not Showing?",
   "¿El fondo no se muestra?");
  ("We can help you fix it in just a few steps.",
   "Podemos ayudarte a solucionarlo en pocos pasos.");
  ("Get Help",
   "Obtener ayuda");
  ("Friendly Reminder",
   "Recordatorio amistoso");
  ("Your free trial subscription will be ending soon.",
   "Tu período de prueba gratuito terminará pronto.");
  ("Great! You added your first note",
   "¡Genial! Añadiste tu primera nota");
  (("Add more notes using the + button, then tap " ++ dq ++ "Update Wallpaper" ++ dq ++ " to apply them to your lock screen."),
   ("Añade más notas usando el botón + y luego toca " ++ dq ++ "Actualizar fondo" ++ dq ++ " para aplicarlas a tu pantalla de bloqueo."));
  ("Deleting notes...",
   "Eliminando notas...");
  ("Notes Deleted!",
   "¡Notas eliminadas!");
  ("sec",
   "seg");
  ("Device Category:",
   "Categoría del dispositivo:");
  ("Screen:",
   "Pantalla:");
  ("Scale Factor:",
   "Factor de escala:");
  ("Is Compact:",
   "Es compacto:");
  ("Max Video Height:",
   "Altura máx. de video:");
  ("Before You Go...",
   "Antes de irte...");
  ("Hey! I built NoteWall myself and I'm genuinely trying to make it better every day.",
   "¡Hola! Construí NoteWall yo mismo y realmente intento mejorarlo cada día.");
  ("If something didn't work or felt off, I really want to know. Your feedback directly shapes what I fix next.",
   "Si algo no funcionó o se sintió extraño, realmente quiero saberlo. Tu opinión determina directamente lo que arreglo después.");
  ("What could be better?",
   "¿Qué podría ser mejor?");
  ("Tell me what went wrong...",
   "Cuéntame qué salió mal...");
  ("Send Feedback",
   "Enviar opinión");
  ("Maybe Later",
   "Quizás más tarde");
  ("Thanks for Your Feedback!",
   "¡Gracias por tu opinión!");
  ("I'll read this personally and work on making NoteWall better.",
   "Leeré esto personalmente y trabajaré en mejorar NoteWall.");
  ("Privacy Policy",
   "Política de privacidad");
  ("Terms of Service",
   "Términos de servicio");
  ("End User License Agreement",
   "Acuerdo de licencia de usuario final");
  ("Unlock Full Access",
   "Desbloquear acceso completo");
  ("Get Premium",
   "Obtener Premium");
  ("Restore Purchase",
   "Restaurar compra");
  ("Already subscribed?",
   "¿Ya estás suscrito?");
  ("Unlimited wallpaper updates",
   "Actualizaciones ilimitadas de fondos");
  ("Custom fonts & styles",
   "Fuentes y estilos personalizados");
  ("Priority support",
   "Soporte prioritario");
  ("No ads, ever",
   "Sin anuncios, nunca");
  ("Start Free Trial",
   "Iniciar prueba gratuita");
  ("Subscribe",
   "Suscribirse");
  ("Lifetime Access",
   "Acceso de por vida");
  ("Monthly",
   "Mensual");
  ("Yearly",
   "Anual");
  ("Settings",
   "Ajustes");
  ("Wallpaper Settings",
   "Ajustes de fondo");
  ("Text Style",
   "Estilo de texto");
  ("Help & Support",
   "Ayuda y soporte");
  ("About",
   "Acerca de");
  ("Version",
   "Versión");
  ("Build",
   "Compilación");
  ("Share NoteWall",
   "Compartir NoteWall");
  ("Rate Us",
   "Califícanos");
  ("Send us Feedback",
   "Enviar opinión");
  ("Welcome to NoteWall",
   "Bienvenido a NoteWall");
  ("Never forget what matters",
   "Nunca olvides lo que importa");
  ("Your notes, always visible",
   "Tus notas, siempre visibles");
  ("Let's get started",
   "Empecemos");
  ("What's your name?",
   "¿Cómo te llamas?");
  ("Enter your name",
   "Ingresa tu nombre");
  ("Skip this step",
   "Omitir este paso");
  ("Grant Permissions First",
   "Primero concede los permisos");
  ("Permissions granted!",
   "¡Permisos concedidos!");
  ("Allow ALL Permissions",
   "Permitir TODOS los permisos");
  ("Permission popups appear here",
   "Los permisos aparecen aquí");
  ("click ALLOW for all",
   "toca PERMITIR en todos");
  ("(this is how it should look)",
   "(así debería verse)");
  ("Start Using NoteWall",
   "Empezar a usar NoteWall");
  ("We Owe You an Apology",
   "Te debemos una disculpa");
  ("You might have experienced a bug that prevented your wallpaper from updating. That's on us — let's get you back on track.",
   "Puede que hayas experimentado un error que impidió actualizar tu fondo. Eso es culpa nuestra — pongámoslo en orden.");
  ("What Happened?",
   "¿Qué pasó?");
  ("The Issue",
   "El problema");
  ("A technical bug prevented wallpapers from updating correctly for some users.",
   "Un error técnico impidió que los fondos se actualizaran correctamente para algunos usuarios.");
  ("Your Notes Are Safe",
   "Tus notas están seguras");
  ("All your notes and data are perfectly intact.",
   "Todas tus notas y datos están perfectamente intactos.");
  ("The Fix",
   "La solución");
  ("We've completely rebuilt the system. It now works faster and more reliably.",
   "Hemos reconstruido completamente el sistema. Ahora funciona más rápido y de manera más confiable.");
  ("What You Need to Do",
   "Lo que necesitas hacer");
  ("Quick 1-minute setup to install the new system.",
   "Configuración rápida de 1 minuto para instalar el nuevo sistema.");
  ("Let's Fix This Together",
   "Arreglemos esto juntos");
  ("I'll Handle It Later",
   "Lo manejaré más tarde");
  ("What's New",
   "Novedades");
  ("New in this version",
   "Nuevo en esta versión");
  ("Improvements and bug fixes",
   "Mejoras y correcciones de errores");
  ("Got It",
   "Entendido");
  ("Troubleshooting",
   "Solución de problemas");
  ("Common Issues",
   "Problemas comunes");
  ("Wallpaper not updating?",
   "¿El fondo no se actualiza?");
  ("Try these steps:",
   "Prueba estos pasos:");
  ("Restart your device",
   "Reinicia tu dispositivo");
  ("Reinstall the shortcut",
   "Reinstala el atajo");
  ("Check permissions",
   "Verifica los permisos");
  ("Still having issues?",
   "¿Sigues teniendo problemas?");
  ("Contact our support team",
   "Contacta a nuestro equipo de soporte");
  ("Why are you canceling?",
   "¿Por qué estás cancelando?");
  ("Your feedback helps us improve",
   "Tu opinión nos ayuda a mejorar");
  ("Too expensive",
   "Demasiado caro");
  ("Not using it enough",
   "No lo uso suficiente");
  ("Technical issues",
   "Problemas técnicos");
  ("Missing features",
   "Faltan características");
  ("Other reason",
   "Otra razón");
  ("Tell us more (optional)",
   "Cuéntanos más (opcional)");
  ("Submit Feedback",
   "Enviar opinión");
  ("Thank you for your feedback",
   "Gracias por tu opinión")
]%string.

Definition TRANSLATIONS_fr_items : list (string * string) := [
  ("Continue",
   "Continuer");
  ("Cancel",
   "Annuler");
  ("Delete",
   "Supprimer");
  ("Done",
   "Terminé");
  ("Close",
   "Fermer");
  ("OK",
   "OK");
  ("Skip",
   "Passer");
  ("Next",
   "Suivant");
  ("Yes",
   "Oui");
  ("No",
   "Non");
  ("Send",
   "Envoyer");
  ("Apply",
   "Appliquer");
  ("Save",
   "Enregistrer");
  ("Loading...",
   "Chargement...");
  ("Sending...",
   "Envoi...");
  ("Updating…",
   "Mise à jour...");
  ("Generating...",
   "Génération...");
  ("Saving…",
   "Enregistrement...");
  ("Preview",
   "Aperçu");
  ("Install",
   "Installer");
  ("Error",
   "Erreur");
  ("Success",
   "Succès");
  ("Warning",
   "Avertissement");
  ("Info",
   "Info");
  ("Issues found:",
   "Problèmes trouvés:");
  ("Contact Support",
   "Contacter le support");
  ("Start Auto-Fix",
   "Démarrer la correction automatique");
  ("Delete Previous Wallpaper?",
   "Supprimer le fond d'écran précédent?");
  ("To avoid filling your Photos library, NoteWall can delete the previous wallpaper. If you continue, iOS will ask for permission to delete the photo.",
   "Pour éviter de remplir votre photothèque, NoteWall peut supprimer le fond d'écran précédent. Si vous continuez, iOS demandera la permission de supprimer la photo.");
  ("Delete Note?",
   "Supprimer la note?");
  ("Are you sure you want to delete this note? This action cannot be undone.",
   "Êtes-vous sûr de vouloir supprimer cette note? Cette action ne peut pas être annulée.");
  ("Delete Selected Notes?",
   "Supprimer les notes sélectionnées?");
  ("Are you sure you want to delete the selected notes? This action cannot be undone.",
   "Êtes-vous sûr de vouloir supprimer les notes sélectionnées? Cette action ne peut pas être annulée.");
  ("Wallpaper Full",
   "Fond d'écran plein");
  ("Your wallpaper has reached its maximum capacity. Complete or delete existing notes to add new ones.",
   "Votre fond d'écran a atteint sa capacité maximale. Complétez ou supprimez les notes existantes pour en ajouter de nouvelles.");
  ("No notes yet",
   "Pas encore de notes");
  ("Add a note below to get started",
   "Ajoutez une note ci-dessous pour commencer");
  ("Delete (%lld)",
   "Supprimer (%lld)");
  ("Wallpaper Not Showing?",
   "Le fond d'écran ne s'affiche pas?");
  ("We can help you fix it in just a few steps.",
   "Nous pouvons vous aider à le corriger en quelques étapes.");
  ("Get Help",
   "Obtenir de l'aide");
  ("Friendly Reminder",
   "Rappel amical");
  ("Your free trial subscription will be ending soon.",
   "Votre période d'essai gratuite se terminera bientôt.");
  ("Great! You added your first note",
   "Génial! Vous avez ajouté votre première note");
  (("Add more notes using the + button, then tap " ++ dq ++ "Update Wallpaper" ++ dq ++ " to apply them to your lock screen."),
   ("Ajoutez plus de notes avec le bouton + puis appuyez sur " ++ dq ++ "Mettre à jour le fond d'écran" ++ dq ++ " pour les appliquer à votre écran de verrouillage."));
  ("Deleting notes...",
   "Suppression des notes...");
  ("Notes Deleted!",
   "Notes supprimées!");
  ("sec",
   "sec");
  ("Device Category:",
   "Catégorie d'appareil:");
  ("Screen:",
   "Écran:");
  ("Scale Factor:",
   "Facteur d'échelle:");
  ("Is Compact:",
   "Est compact:");
  ("Max Video Height:",
   "Hauteur vidéo max:");
  ("Before You Go...",
   "Avant de partir...");
  ("Hey! I built NoteWall myself and I'm genuinely trying to make it better every day.",
   "Salut! J'ai créé NoteWall moi-même et j'essaie vraiment de l'améliorer chaque jour.");
  ("If something didn't work or felt off, I really want to know. Your feedback directly shapes what I fix next.",
   "Si quelque chose n'a pas fonctionné ou semblait bizarre, je veux vraiment le savoir. Vos commentaires déterminent directement ce que je corrige ensuite.");
  ("What could be better?",
   "Qu'est-ce qui pourrait être mieux?");
  ("Tell me what went wrong...",
   "Dites-moi ce qui n'a pas marché...");
  ("Send Feedback",
   "Envoyer des commentaires");
  ("Maybe Later",
   "Peut-être plus tard");
  ("Thanks for Your Feedback!",
   "Merci pour vos commentaires!");
  ("I'll read this personally and work on making NoteWall better.",
   "Je lirai ceci personnellement et travaillerai à améliorer NoteWall.");
  ("Privacy Policy",
   "Politique de confidentialité");
  ("Terms of Service",
   "Conditions d'utilisation");
  ("End User License Agreement",
   "Accord de licence utilisateur final");
  ("Unlock Full Access",
   "Débloquer l'accès complet");
  ("Get Premium",
   "Obtenir Premium");
  ("Restore Purchase",
   "Restaurer l'achat");
  ("Already subscribed?",
   "Déjà abonné?");
  ("Unlimited wallpaper updates",
   "Mises à jour illimitées de fond d'écran");
  ("Custom fonts & styles",
   "Polices et styles personnalisés");
  ("Priority support",
   "Support prioritaire");
  ("No ads, ever",
   "Pas de publicité, jamais");
  ("Start Free Trial",
   "Démarrer l'essai gratuit");
  ("Subscribe",
   "S'abonner");
  ("Lifetime Access",
   "Accès à vie");
  ("Monthly",
   "Mensuel");
  ("Yearly",
   "Annuel");
  ("Settings",
   "Réglages");
  ("Wallpaper Settings",
   "Paramètres du fond d'écran");
  ("Text Style",
   "Style de texte");
  ("Help & Support",
   "Aide et support");
  ("About",
   "À propos");
  ("Version",
   "Version");
  ("Build",
   "Build");
  ("Share NoteWall",
   "Partager NoteWall");
  ("Rate Us",
   "Évaluez-nous");
  ("Send us Feedback",
   "Envoyez-nous des commentaires");
  ("Welcome to NoteWall",
   "Bienvenue sur NoteWall");
  ("Never forget what matters",
   "N'oubliez jamais ce qui compte");
  ("Your notes, always visible",
   "Vos notes, toujours visibles");
  ("Let's get started",
   "Commençons");
  ("What's your name?",
   "Quel est votre nom?");
  ("Enter your name",
   "Entrez votre nom");
  ("Skip this step",
   "Passer cette étape");
  ("Grant Permissions First",
   "Accordez d'abord les autorisations");
  ("Permissions granted!",
   "Autorisations accordées!");
  ("Allow ALL Permissions",
   "Autoriser TOUTES les autorisations");
  ("Permission popups appear here",
   "Les autorisations apparaissent ici");
  ("click ALLOW for all",
   "appuyez sur AUTORISER pour tous");
  ("(this is how it should look)",
   "(voici à quoi cela devrait ressembler)");
  ("Start Using NoteWall",
   "Commencer à utiliser NoteWall");
  ("We Owe You an Apology",
   "Nous vous devons des excuses");
  ("You might have experienced a bug that prevented your wallpaper from updating. That's on us — let's get you back on track.",
   "Vous avez peut-être rencontré un bug qui a empêché la mise à jour de votre fond d'écran. C'est de notre faute — remettons les choses en ordre.");
  ("What Happened?",
   "Que s'est-il passé?");
  ("The Issue",
   "Le problème");
  ("A technical bug prevented wallpapers from updating correctly for some users.",
   "Un bug technique a empêché les fonds d'écran de se mettre à jour correctement pour certains utilisateurs.");
  ("Your Notes Are Safe",
   "Vos notes sont en sécurité");
  ("All your notes and data are perfectly intact.",
   "Toutes vos notes et données sont parfaitement intactes.");
  ("The Fix",
   "La solution");
  ("We've completely rebuilt the system. It now works faster and more reliably.",
   "Nous avons complètement reconstruit le système. Il fonctionne maintenant plus rapidement et de manière plus fiable.");
  ("What You Need to Do",
   "Ce que vous devez faire");
  ("Quick 1-minute setup to install the new system.",
   "Configuration rapide d'1 minute pour installer le nouveau système.");
  ("Let's Fix This Together",
   "Réparons cela ensemble");
  ("I'll Handle It Later",
   "Je m'en occuperai plus tard");
  ("What's New",
   "Nouveautés");
  ("New in this version",
   "Nouveau dans cette version");
  ("Improvements and bug fixes",
   "Améliorations et corrections de bugs");
  ("Got It",
   "Compris");
  ("Troubleshooting",
   "Dépannage");
  ("Common Issues",
   "Problèmes courants");
  ("Wallpaper not updating?",
   "Le fond d'écran ne se met pas à jour?");
  ("Try these steps:",
   "Essayez ces étapes:");
  ("Restart your device",
   "Redémarrez votre appareil");
  ("Reinstall the shortcut",
   "Réinstallez le raccourci");
  ("Check permissions",
   "Vérifiez les autorisations");
  ("Still having issues?",
   "Vous avez toujours des problèmes?");
  ("Contact our support team",
   "Contactez notre équipe de support");
  ("Why are you canceling?",
   "Pourquoi annulez-vous?");
  ("Your feedback helps us improve",
   "Vos commentaires nous aident à nous améliorer");
  ("Too expensive",
   "Trop cher");
  ("Not using it enough",
   "Je ne l'utilise pas assez");
  ("Technical issues",
   "Problèmes techniques");
  ("Missing features",
   "Fonctionnalités manquantes");
  ("Other reason",
   "Autre raison");
  ("Tell us more (optional)",
   "Dites-nous en plus (optionnel)");
  ("Submit Feedback",
   "Soumettre des commentaires");
  ("Thank you for your feedback",
   "Merci pour vos commentaires")
]%string.

Definition as_dict (items : list (string * string)) : dict text :=
  dict_of (map (fun kv => (list_ascii_of_string (fst kv),
                           list_ascii_of_string (snd kv))) items).

Definition TRANSLATIONS : dict (dict text) :=
  dict_of [ ("de" : text, as_dict TRANSLATIONS_de_items);
            ("es" : text, as_dict TRANSLATIONS_es_items);
            ("fr" : text, as_dict TRANSLATIONS_fr_items) ].

(** *** read_existing_translations *)

(** A quoted key, [=] between optional blanks, a quoted value, a semicolon;
    key and value are the two groups, each one or more characters other than
    the double quote. *)
Definition strings_pattern : pattern :=
  [Lit [QUOTE]] ++ Group (Plus not_quote) ++
  [Lit [QUOTE]; Star true is_space; Lit "="; Star true is_space; Lit [QUOTE]] ++
  Group (Plus not_quote) ++
  [Lit [QUOTE]; Lit ";"].

(** [for english, translation in re.findall(pattern, content):
       translations[english] = translation] *)
Definition parse_translations (content : text) : dict text :=
  fold_left (fun translations m =>
               dict_set translations (group content m 1) (group content m 2))
            (re_finditer strings_pattern content) [].

Definition read_existing_translations (localizable_path : path) : M (dict text) :=
  present <- path_exists localizable_path ;;
  if negb present then ret []
  else content <- read_file localizable_path ;; ret (parse_translations content).

(** *** main, steps 2 and 3 *)

Definition notewall_dir : string :=
  "/Users/carly/GITHUB REPOS/STRANKY:APLIKACIE/NOTEWALL-CLAUDECODE/NoteWall".

(** [notewall_dir / f"{lang_code}.lproj" / "Localizable.strings"] *)
Definition localizable_path (lang_code : text) : path :=
  (notewall_dir ++ "/" ++ string_of_list_ascii lang_code
                ++ ".lproj/Localizable.strings")%string.

(** Where a translation was taken from. *)
Inductive origin : Type := Existing | Dictionary | Fallback.

(** The body of the loop over [complete_translations["en"]]: the persisted
    file first, then the dictionary of the language, else the English text. *)
Definition translate (lang_existing table : dict text) (english_text : text)
  : text * origin :=
  match dict_get lang_existing english_text with
  | Some translation => (translation, Existing)
  | None =>
      match dict_get table english_text with
      | Some translation => (translation, Dictionary)
      | None => (english_text, Fallback)
      end
  end.

Definition warning (english_text lang_code : text) : text :=
  "   ⚠️  No translation for '" ++ english_text ++ "' in " ++ lang_code.

Fixpoint translate_all (lang_code : text) (lang_existing table : dict text)
  (keys : list text) (complete : dict text) : M (dict text) :=
  match keys with
  | [] => ret complete
  | english_text :: keys' =>
      match translate lang_existing table english_text with
      | (translation, Fallback) =>
          print (warning english_text lang_code) ;;;
          translate_all lang_code lang_existing table keys'
                        (dict_set complete english_text translation)
      | (translation, _) =>
          translate_all lang_code lang_existing table keys'
                        (dict_set complete english_text translation)
      end
  end.

(** [complete_translations["en"]]: the persisted English entries, then every
    extracted string not yet there, mapped to itself. *)
Definition complete_english (existing_en : dict text) (meaningful_strings : list text)
  : dict text :=
  fold_left (fun en string =>
               if dict_has en string then en else dict_set en string string)
            meaningful_strings
            (fold_left (fun en string =>
                          match dict_get existing_en string with
                          | Some v => dict_set en string v
                          | None => en
                          end)
                       (dict_keys existing_en) []).

(** One round of [for lang_code in ["de", "es", "fr"]]. *)
Definition complete_language (en : dict text) (lang_code : text) : M (dict text) :=
  lang_existing <- read_existing_translations (localizable_path lang_code) ;;
  match dict_get TRANSLATIONS lang_code with
  | None => raise KeyError
  | Some table => translate_all lang_code lang_existing table (dict_keys en) []
  end.

(** Steps 2 and 3 of [main], from the strings step 1 extracted out of the
    Swift sources (a set, taken in the order it iterates): the four complete
    tables, keyed by language. *)
Definition build_translations (meaningful_strings : list text) : M (dict (dict text)) :=
  print ([NL] ++ "📚 Step 2: Checking existing translations...") ;;;
  existing_en <- read_existing_translations (localizable_path "en") ;;
  print ("   Found " ++ nat_text (List.length existing_en) ++
         " existing English translations") ;;;
  let missing_strings :=
    filter (fun s => negb (dict_has existing_en s)) meaningful_strings in
  print ("   Missing " ++ nat_text (List.length missing_strings) ++
         " strings from localization") ;;;
  print ([NL] ++ "🔤 Step 3: Building translation dictionaries...") ;;;
  let en := complete_english existing_en meaningful_strings in
  de <- complete_language en "de" ;;
  es <- complete_language en "es" ;;
  fr <- complete_language en "fr" ;;
  ret (dict_of [("en" : text, en); ("de" : text, de);
                ("es" : text, es); ("fr" : text, fr)]).

End Localize.

(** ** Fixtures *)

(** A manifest with a file-reference section but no build-file section. *)
Definition manifest_without_build_files : text :=
  "/* Begin PBXFileReference section */" ++ [NL; TAB; TAB] ++
  "/* End PBXFileReference section */" ++ [NL].

(** A world with one file, readable and writable, nothing printed yet. *)
Definition world_with (p : path) (c : text) : world :=
  mkWorld (fun q => if String.eqb q p then Some c else None)
          (fun _ => false) (fun _ => false) (fun _ => None)
          (fun n => (N.of_nat (S n) * 1512366075204170929049582354406559215)%N)
          0 [] [].

(** A manifest in the layout the add-file patterns expect: the closing
    marker of a section is indented by two tabs, the closing parenthesis of
    a list by three.  The four arguments are what stands at the four places
    where the script splices. *)
Definition manifest (build_files file_refs children sources : text) : text :=
  "// !$*UTF8*$!" ++ [NL] ++ "{" ++ [NL; TAB] ++ "objects = {" ++ [NL; NL] ++
  "/* Begin PBXBuildFile section */" ++ [NL] ++ build_files ++
  [TAB; TAB] ++ "/* End PBXBuildFile section */" ++ [NL; NL] ++
  "/* Begin PBXFileReference section */" ++ [NL] ++ file_refs ++
  [TAB; TAB] ++ "/* End PBXFileReference section */" ++ [NL; NL] ++
  "/* Begin PBXGroup section */" ++ [NL; TAB; TAB] ++
  "A50000020000000000000001 /* NoteWall */ = {" ++ [NL; TAB; TAB; TAB] ++
  "isa = PBXGroup;" ++ [NL; TAB; TAB; TAB] ++
  "children = (" ++ [NL; TAB; TAB; TAB] ++ children ++ ");" ++ [NL; TAB; TAB; TAB] ++
  "path = NoteWall;" ++ [NL; TAB; TAB] ++ "};" ++ [NL] ++
  "/* End PBXGroup section */" ++ [NL; NL] ++
  "/* Begin PBXSourcesBuildPhase section */" ++ [NL; TAB; TAB] ++
  "A50000070000000000000001 /* Sources */ = {" ++ [NL; TAB; TAB; TAB] ++
  "isa = PBXSourcesBuildPhase;" ++ [NL; TAB; TAB; TAB] ++
  "files = (" ++ sources ++ [NL; TAB; TAB; TAB] ++ ");" ++ [NL; TAB; TAB] ++
  "};" ++ [NL] ++
  "/* End PBXSourcesBuildPhase section */" ++ [NL; TAB] ++ "};" ++ [NL] ++ "}" ++ [NL].


(** ** Lines *)

Fixpoint count_nl (s : text) : nat :=
  match s with
  | [] => 0
  | c :: s' => (if Ascii.eqb c NL then 1 else 0) + count_nl s'
  end.




(** The spans of a match are well ordered. *)
Definition ordered (cs : caps) : Prop :=
  Forall (fun ab => fst ab <= snd ab) (closed cs).

(** ** When the scripts succeed *)

(** The add-file script has all it needs: a readable manifest in which the
    four patterns match, and a writable file. *)
Definition add_file_can_succeed (w : world) : Prop :=
  exists content out,
    files w AddFile.project_file = Some content /\
    unreadable w AddFile.project_file = false /\
    AddFile.patched (AddFile.first_id w) (AddFile.second_id w)
                    AddFile.swift_file content = Some out /\
    unwritable w AddFile.project_file = false.

Definition add_resource_can_succeed (w : world) : Prop :=
  exists content out,
    files w AddResource.project_file = Some content /\
    unreadable w AddResource.project_file = false /\
    AddResource.patched (AddFile.first_id w) (AddFile.second_id w)
                        AddResource.resource_file "text.xml" content = Some out /\
    unwritable w AddResource.project_file = false.

(** The fix script has all it needs: a readable manifest that the pass
    changes, and a writable file. *)
Definition fix_can_succeed (w : world) : Prop :=
  exists content,
    files w FixResources.pbxproj_path = Some content /\
    unreadable w FixResources.pbxproj_path = false /\
    FixResources.fixed_content content <> content /\
    unwritable w FixResources.pbxproj_path = false.

(** A German Localizable.strings that already translates [Cancel]. *)
Definition persisted_de : text :=
  [QUOTE] ++ "Cancel" ++ [QUOTE] ++ " = " ++ [QUOTE] ++ "Stornieren" ++ [QUOTE] ++
  ";" ++ [NL].

(** The warnings the loop over [keys] prints. *)
Definition warnings (lang_code : text) (lang_existing table : dict text)
  (keys : list text) : list text :=
  map (fun k => Localize.warning k lang_code)
      (filter (fun k => match snd (Localize.translate lang_existing table k) with
                        | Localize.Fallback => true
                        | _ => false
                        end) keys).

(** The dictionary the loop over [keys] builds on top of [complete]. *)
Definition translated (lang_existing table : dict text) (keys : list text)
  (complete : dict text) : dict text :=
  fold_left (fun d k => dict_set d k (fst (Localize.translate lang_existing table k)))
            keys complete.

(** The three hardcoded dictionaries. *)
Definition table_de : dict text := Localize.as_dict Localize.TRANSLATIONS_de_items.
Definition table_es : dict text := Localize.as_dict Localize.TRANSLATIONS_es_items.
Definition table_fr : dict text := Localize.as_dict Localize.TRANSLATIONS_fr_items.

Definition nonempty (t : text) : bool :=
  match t with [] => false | _ :: _ => true end.

Definition world_with_de : world :=
  world_with (Localize.localizable_path "de") persisted_de.

(** The run of the add-file script on the empty manifest, for [Foo.swift]. *)
Definition empty_manifest : text := manifest [] [] [] [].
Definition world_empty : world := world_with AddFile.project_file empty_manifest.
Definition foo_ref_id : text := AddFile.first_id world_empty.
Definition foo_build_id : text := AddFile.second_id world_empty.
Definition foo_manifest : text :=
  manifest (AddFile.build_file_entry foo_build_id foo_ref_id "Foo.swift")
           (AddFile.file_ref_entry foo_ref_id "Foo.swift")
           (AddFile.children_entry foo_ref_id "Foo.swift")
           (AddFile.sources_entry foo_build_id "Foo.swift").






(** ** First occurrences *)

(** [s.find(x)]: the offset of the first occurrence of [x] in [s]. *)
Fixpoint str_find (x s : text) : option nat :=
  if starts_with x s then Some 0
  else match s with
       | [] => None
       | _ :: s' => option_map S (str_find x s')
       end.

(** The first offset of [s], from [pos] on, at which [K] succeeds: the
    search of a lazy [.*?] for its continuation, and of [re.search] for a
    match. *)
Fixpoint first_success {R : Type} (K : text -> nat -> option R) (s : text) (pos : nat)
  : option R :=
  match K s pos with
  | Some m => Some m
  | None =>
      match s with
      | [] => None
      | _ :: s' => first_success K s' (S pos)
      end
  end.

(** A continuation that fails on a text fails on its suffixes too, whatever
    the offset and the captures. *)
Definition fails_on_suffixes {R : Type} (K : text -> nat -> caps -> option R) : Prop :=
  forall s pos cs, K s pos cs = None ->
  forall n pos' cs', K (skipn n s) pos' cs' = None.

(** ** The resources section, by first occurrences *)

Definition BEGIN_RESOURCES : text := "/* Begin PBXResourcesBuildPhase section */".
Definition FILES_OPEN : text := "files = (".
Definition LIST_CLOSE : text := ");".
Definition END_RESOURCES : text := "/* End PBXResourcesBuildPhase section */".

(** The match of [resources_section_pattern] spelled out: the first opening
    marker, the first [files = (] after it, the first closing of a list after
    that, the first closing marker after that. *)
Definition find_section (s : text) (pos : nat) : option rmatch :=
  match str_find BEGIN_RESOURCES s with
  | None => None
  | Some i =>
  let s1 := skipn (i + List.length BEGIN_RESOURCES) s in
  match str_find FILES_OPEN s1 with
  | None => None
  | Some j =>
  let s2 := skipn (j + List.length FILES_OPEN) s1 in
  match str_find LIST_CLOSE s2 with
  | None => None
  | Some k =>
  let s3 := skipn (k + List.length LIST_CLOSE) s2 in
  match str_find END_RESOURCES s3 with
  | None => None
  | Some l =>
  let p0 := pos + i in
  let p1 := p0 + List.length BEGIN_RESOURCES + j in
  let p2 := p1 + List.length FILES_OPEN in
  let p3 := p2 + k in
  let p4 := p3 + List.length LIST_CLOSE in
  let p5 := p4 + l + List.length END_RESOURCES in
  Some (mkMatch p0 p5 [(p0, p1); (p1, p2); (p2, p3); (p3, p4); (p4, p5)])
  end end end end.

(** The match object of a resources section that starts after [u], at
    offset [pos + length u]: [a] is what group 1 holds after the opening
    marker, [g] the files list, [b] what group 5 holds before the closing
    marker. *)
Definition section_match (pos : nat) (u a g b : text) : rmatch :=
  let p0 := pos + List.length u in
  let p1 := p0 + List.length BEGIN_RESOURCES + List.length a in
  let p2 := p1 + List.length FILES_OPEN in
  let p3 := p2 + List.length g in
  let p4 := p3 + List.length LIST_CLOSE in
  let p5 := p4 + List.length b + List.length END_RESOURCES in
  mkMatch p0 p5 [(p0, p1); (p1, p2); (p2, p3); (p3, p4); (p4, p5)].

(** [s] begins with a resources section as [re.search] finds it: each of the
    four literals at its first occurrence. *)
Definition section_found (u a g b : text) : Prop :=
  str_find BEGIN_RESOURCES (u ++ BEGIN_RESOURCES) = Some (List.length u) /\
  str_find FILES_OPEN (a ++ FILES_OPEN) = Some (List.length a) /\
  contains LIST_CLOSE g = false /\
  str_find END_RESOURCES (b ++ END_RESOURCES) = Some (List.length b).

(** What the pass does to a blob: outside the resources sections nothing,
    inside one nothing but dropping lines of the files list. *)
Inductive only_files_lines_dropped (keep : text -> bool) : text -> text -> Prop :=
| dropped_nothing (s : text) : only_files_lines_dropped keep s s
| dropped_in_section (u a g b rest rest' : text) :
    only_files_lines_dropped keep rest rest' ->
    only_files_lines_dropped keep
      (u ++ BEGIN_RESOURCES ++ a ++ FILES_OPEN ++ g ++ LIST_CLOSE ++ b ++
       END_RESOURCES ++ rest)
      (u ++ BEGIN_RESOURCES ++ a ++ FILES_OPEN ++
       join_lines (filter keep (split_lines g)) ++ LIST_CLOSE ++ b ++
       END_RESOURCES ++ rest').

(** The same, with the sections where [re.sub] finds them. *)
Inductive pass (keep : text -> bool) : text -> text -> Prop :=
| pass_done (s : text) :
    find_section s 0 = None -> pass keep s s
| pass_section (u a g b rest rest' : text) :
    section_found u a g b ->
    pass keep rest rest' ->
    pass keep
      (u ++ BEGIN_RESOURCES ++ a ++ FILES_OPEN ++ g ++ LIST_CLOSE ++ b ++
       END_RESOURCES ++ rest)
      (u ++ BEGIN_RESOURCES ++ a ++ FILES_OPEN ++
       join_lines (filter keep (split_lines g)) ++ LIST_CLOSE ++ b ++
       END_RESOURCES ++ rest').

(** The lines the pass keeps. *)
Definition keeps (ids : list text) (line : text) : bool :=
  negb (FixResources.should_remove ids line).

(** A manifest with a build-file section and a resources phase that lists a
    catalog's Contents.json and an app icon next to the catalog itself. *)
Definition manifest_with_assets : text :=
  "/* Begin PBXBuildFile section */" ++ [NL; TAB; TAB] ++
  "AA11 /* Contents.json in Resources */ = {isa = PBXBuildFile; fileRef = BB22 /* Contents.json */; };"
  ++ [NL; TAB; TAB] ++
  "CC33 /* Icon-App-20x20@2x.png in Resources */ = {isa = PBXBuildFile; fileRef = BB23 /* Icon-App-20x20@2x.png */; };"
  ++ [NL; TAB; TAB] ++
  "DD44 /* Assets.xcassets in Resources */ = {isa = PBXBuildFile; fileRef = BB24 /* Assets.xcassets */; };"
  ++ [NL] ++
  "/* End PBXBuildFile section */" ++ [NL; NL] ++
  "/* Begin PBXResourcesBuildPhase section */" ++ [NL; TAB; TAB] ++
  "EE55 /* Resources */ = {" ++ [NL; TAB; TAB; TAB] ++
  "isa = PBXResourcesBuildPhase;" ++ [NL; TAB; TAB; TAB] ++
  "files = (" ++ [NL; TAB; TAB; TAB; TAB] ++
  "AA11 /* Contents.json in Resources */," ++ [NL; TAB; TAB; TAB; TAB] ++
  "DD44 /* Assets.xcassets in Resources */," ++ [NL; TAB; TAB; TAB; TAB] ++
  "CC33 /* Icon-App-20x20@2x.png in Resources */," ++ [NL; TAB; TAB; TAB] ++
  ");" ++ [NL; TAB; TAB] ++ "};" ++ [NL] ++
  "/* End PBXResourcesBuildPhase section */" ++ [NL].

(** A resources section in which dropping the line of [A] puts [B] right
    before a comment that names an asset. *)
Definition manifest_with_bare_identifier : text :=
  "/* Begin PBXResourcesBuildPhase section */" ++ [NL] ++
  "files = (" ++ [NL] ++
  "B" ++ [NL] ++
  "A /* arrow.png in Resources */," ++ [NL] ++
  "/* arrow.png in Resources */ B" ++ [NL] ++
  ");" ++ [NL] ++
  "/* End PBXResourcesBuildPhase section */" ++ [NL].

(** ** The four steps of the add-file patch, in any order *)

Module StepOrder.

Inductive step : Type := InFileRefs | InBuildFiles | InGroup | InSources.

(** The order of the script. *)
Definition all_steps : list step := [InFileRefs; InBuildFiles; InGroup; InSources].

(** Entries to insert, each at an offset of the original text. *)
Definition plan := list (nat * text).

(** What the plan puts at offset [i]. *)
Fixpoint at_offset (pl : plan) (i : nat) : text :=
  match pl with
  | [] => []
  | (q, e) :: pl' => if Nat.eqb q i then e ++ at_offset pl' i else at_offset pl' i
  end.

(** The text [s], whose first character has offset [i], with the entries of
    the plan at their offsets. *)
Fixpoint weave_from (pl : plan) (s : text) (i : nat) : text :=
  at_offset pl i ++
  match s with
  | [] => []
  | c :: s' => c :: weave_from pl s' (S i)
  end.

(** How far the entries at offsets in [[i, p)] push what stands at [p]. *)
Fixpoint shift_from (pl : plan) (i p : nat) : nat :=
  match pl with
  | [] => 0
  | (q, e) :: pl' =>
      (if Nat.leb i q && Nat.ltb q p then List.length e else 0) + shift_from pl' i p
  end.

Section Steps.

Variables (file_ref_id build_file_id swift_file_name : text).

Definition apply_step (k : step) : text -> option text :=
  match k with
  | InFileRefs => AddFile.step_file_ref file_ref_id swift_file_name
  | InBuildFiles => AddFile.step_build_file build_file_id file_ref_id swift_file_name
  | InGroup => AddFile.step_group file_ref_id swift_file_name
  | InSources => AddFile.step_sources build_file_id swift_file_name
  end.

Definition pattern_of (k : step) : pattern :=
  match k with
  | InFileRefs => AddFile.file_ref_pattern
  | InBuildFiles => AddFile.build_file_pattern
  | InGroup => AddFile.group_pattern
  | InSources => AddFile.sources_pattern
  end.

Definition entry (k : step) : text :=
  match k with
  | InFileRefs => AddFile.file_ref_entry file_ref_id swift_file_name
  | InBuildFiles => AddFile.build_file_entry build_file_id file_ref_id swift_file_name
  | InGroup => AddFile.children_entry file_ref_id swift_file_name
  | InSources => AddFile.sources_entry build_file_id swift_file_name
  end.

(** Where step [k] splices in [content]: the end of group 2 of its match. *)
Definition locate (k : step) (content : text) : option nat :=
  match re_search (pattern_of k) content with
  | Some m => Some (end_of m 2)
  | None => None
  end.

(** The steps of [order], each on the blob as mutated so far. *)
Fixpoint run (order : list step) (content : text) : option text :=
  match order with
  | [] => Some content
  | k :: order' =>
      match apply_step k content with
      | Some content' => run order' content'
      | None => None
      end
  end.

Variable content : text.

(** The place of step [k] in the blob as read. *)
Definition place (k : step) : nat :=
  match locate k content with Some p => p | None => 0 end.

Definition plan_of (ks : list step) : plan := map (fun k => (place k, entry k)) ks.

(** The blob as read with the entries of the steps in [chosen], each at its
    place. *)
Definition with_entries (chosen : step -> bool) : text :=
  weave_from (plan_of (filter chosen all_steps)) content 0.

(** The four places differ. *)
Definition distinct_places : Prop := NoDup (map place all_steps).

(** No search is disturbed by the entries of other steps: on the blob that
    carries any of them, each remaining step finds its own place, pushed by
    the entries before it. *)
Definition undisturbed : Prop :=
  forall (chosen : step -> bool) (k : step),
    chosen k = false ->
    locate k (with_entries chosen) =
    Some (place k + shift_from (plan_of (filter chosen all_steps)) 0 (place k)).

End Steps.

End StepOrder.

(** A manifest with a second group before the NoteWall group. *)
Definition manifest_two_groups : text :=
  "/* Begin PBXBuildFile section */" ++ [NL; TAB; TAB] ++
  "/* End PBXBuildFile section */" ++ [NL; NL] ++
  "/* Begin PBXFileReference section */" ++ [NL; TAB; TAB] ++
  "/* End PBXFileReference section */" ++ [NL; NL] ++
  "/* Begin PBXGroup section */" ++ [NL; TAB; TAB] ++
  "A50000030000000000000001 /* Products */ = {" ++ [NL; TAB; TAB; TAB] ++
  "isa = PBXGroup;" ++ [NL; TAB; TAB; TAB] ++
  "children = (" ++ [NL; TAB; TAB; TAB] ++ ");" ++ [NL; TAB; TAB; TAB] ++
  "name = Products;" ++ [NL; TAB; TAB] ++ "};" ++ [NL; TAB; TAB] ++
  "A50000020000000000000001 /* NoteWall */ = {" ++ [NL; TAB; TAB; TAB] ++
  "isa = PBXGroup;" ++ [NL; TAB; TAB; TAB] ++
  "children = (" ++ [NL; TAB; TAB; TAB] ++ ");" ++ [NL; TAB; TAB; TAB] ++
  "path = NoteWall;" ++ [NL; TAB; TAB] ++ "};" ++ [NL] ++
  "/* End PBXGroup section */" ++ [NL; NL] ++
  "/* Begin PBXSourcesBuildPhase section */" ++ [NL; TAB; TAB] ++
  "A50000070000000000000001 /* Sources */ = {" ++ [NL; TAB; TAB; TAB] ++
  "isa = PBXSourcesBuildPhase;" ++ [NL; TAB; TAB; TAB] ++
  "files = (" ++ [NL; TAB; TAB; TAB] ++ ");" ++ [NL; TAB; TAB] ++
  "};" ++ [NL] ++
  "/* End PBXSourcesBuildPhase section */" ++ [NL].

(** A file name that reads like the head of a sources phase. *)
Definition phase_like_name : text := "isa = PBXSourcesBuildPhase; files = (".

(** A manifest with the two sections, the NoteWall group and a resources
    phase, and no sources phase. *)
Definition manifest_without_sources : text :=
  "/* Begin PBXBuildFile section */" ++ [NL; TAB; TAB] ++
  "/* End PBXBuildFile section */" ++ [NL; NL] ++
  "/* Begin PBXFileReference section */" ++ [NL; TAB; TAB] ++
  "/* End PBXFileReference section */" ++ [NL; NL] ++
  "/* Begin PBXGroup section */" ++ [NL; TAB; TAB] ++
  "A50000020000000000000001 /* NoteWall */ = {" ++ [NL; TAB; TAB; TAB] ++
  "isa = PBXGroup;" ++ [NL; TAB; TAB; TAB] ++
  "children = (" ++ [NL; TAB; TAB; TAB] ++ ");" ++ [NL; TAB; TAB; TAB] ++
  "path = NoteWall;" ++ [NL; TAB; TAB] ++ "};" ++ [NL] ++
  "/* End PBXGroup section */" ++ [NL; NL] ++
  "/* Begin PBXResourcesBuildPhase section */" ++ [NL; TAB; TAB] ++
  "A50000060000000000000001 /* Resources */ = {" ++ [NL; TAB; TAB; TAB] ++
  "isa = PBXResourcesBuildPhase;" ++ [NL; TAB; TAB; TAB] ++
  "files = (" ++ [NL; TAB; TAB; TAB] ++ ");" ++ [NL; TAB; TAB] ++
  "};" ++ [NL] ++
  "/* End PBXResourcesBuildPhase section */" ++ [NL].

(** The line the add-file script prints when it stops: that of the first
    step whose pattern has no match. *)
Definition stop_line (file_ref_id build_file_id swift_file_name content : text)
  : option text :=
  match AddFile.step_file_ref file_ref_id swift_file_name content with
  | None => Some ("❌ Could not find PBXFileReference section" : text)
  | Some c1 =>
  match AddFile.step_build_file build_file_id file_ref_id swift_file_name c1 with
  | None => Some ("❌ Could not find PBXBuildFile section" : text)
  | Some c2 =>
  match AddFile.step_group file_ref_id swift_file_name c2 with
  | None => Some ("❌ Could not find NoteWall group" : text)
  | Some c3 =>
  match AddFile.step_sources build_file_id swift_file_name c3 with
  | None => Some ("❌ Could not find PBXSourcesBuildPhase section" : text)
  | Some _ => None
  end end end end.

(** A world in which the write to the manifest fails after twenty
    characters. *)
Definition world_cut : world :=
  mkWorld (fun q => if String.eqb q AddFile.project_file then Some empty_manifest
                    else None)
          (fun _ => false) (fun _ => false)
          (fun q => if String.eqb q AddFile.project_file then Some 20 else None)
          (fun n => (N.of_nat (S n) * 1512366075204170929049582354406559215)%N)
          0 [] [].

(** ** Identifiers *)

(** An uppercase hexadecimal digit. *)
Definition is_hex_upper (c : ascii) : bool := is_digit c || in_range "A" "F" c.

(** A manifest the add-resource script accepts: the NoteWall group carries
    the identifier the script looks for, and there is a resources phase. *)
Definition manifest_with_resources : text :=
  "// !$*UTF8*$!" ++ [NL] ++ "{" ++ [NL; TAB] ++ "objects = {" ++ [NL; NL] ++
  "/* Begin PBXBuildFile section */" ++ [NL] ++
  "/* End PBXBuildFile section */" ++ [NL; NL] ++
  "/* Begin PBXFileReference section */" ++ [NL] ++
  "/* End PBXFileReference section */" ++ [NL; NL] ++
  "/* Begin PBXGroup section */" ++ [NL; TAB; TAB] ++
  "A5000002000000000000001 /* NoteWall */ = {" ++ [NL; TAB; TAB; TAB] ++
  "isa = PBXGroup;" ++ [NL; TAB; TAB; TAB] ++
  "children = (" ++ [NL; TAB; TAB; TAB] ++ ");" ++ [NL; TAB; TAB; TAB] ++
  "path = NoteWall;" ++ [NL; TAB; TAB] ++ "};" ++ [NL] ++
  "/* End PBXGroup section */" ++ [NL; NL] ++
  "/* Begin PBXResourcesBuildPhase section */" ++ [NL; TAB; TAB] ++
  "A50000060000000000000001 /* Resources */ = {" ++ [NL; TAB; TAB; TAB] ++
  "isa = PBXResourcesBuildPhase;" ++ [NL; TAB; TAB; TAB] ++
  "files = (" ++ [NL; TAB; TAB; TAB] ++ ");" ++ [NL; TAB; TAB] ++
  "};" ++ [NL] ++
  "/* End PBXResourcesBuildPhase section */" ++ [NL; TAB] ++ "};" ++ [NL] ++ "}" ++ [NL].

(** ** What a match is

    [matches r s pos cs e cs']: the pattern [r] can consume a prefix of [s],
    the input from offset [pos] on, ending at offset [e] with the captures
    [cs'].  The relation knows nothing of priorities: whatever the matcher
    returns is such a match. *)
Fixpoint matches (r : pattern) (s : text) (pos : nat) (cs : caps) (e : nat)
  (cs' : caps) : Prop :=
  match r with
  | [] => e = pos /\ cs' = cs
  | Lit l :: r' =>
      exists t, s = l ++ t /\ matches r' t (pos + List.length l) cs e cs'
  | One p :: r' =>
      exists c t, s = c :: t /\ p c = true /\ matches r' t (S pos) cs e cs'
  | Star _ p :: r' =>
      exists x t, s = x ++ t /\ forallb p x = true /\
                  matches r' t (pos + List.length x) cs e cs'
  | Open :: r' => matches r' s pos (mkCaps pos (closed cs)) e cs'
  | Close :: r' =>
      matches r' s pos (mkCaps (cur cs) ((cur cs, pos) :: closed cs)) e cs'
  end.

(** A phrase as [read_existing_translations] can return it: one or more
    characters, none of them a double quote. *)
Definition quoteless (t : text) : Prop :=
  t <> [] /\ forallb not_quote t = true.
(** ** fix_localization.py *)

(** [s.replace('"', '\\"')]: a backslash before every double quote. *)
Definition escape_quotes (s : text) : text :=
  flat_map (fun c => if Ascii.eqb c QUOTE then ["\"%char; QUOTE] else [c]) s.

Module FixLocalization.

(** [s.lstrip()] and [s.rstrip()], on the ASCII white space. *)
Fixpoint lstrip (s : text) : text :=
  match s with
  | [] => []
  | c :: s' => if is_space c then lstrip s' else s
  end.

Definition rstrip (s : text) : text := rev (lstrip (rev s)).

(** *** The format patterns, [localization_patterns] in [main] *)

Definition localization_patterns_items
  : list (string * list (string * string)) := [
  ("Delete (%lld)",
   [("de", "Löschen (%lld)"); ("es", "Eliminar (%lld)"); ("fr", "Supprimer (%lld)")]);
  ("Version %@",
   [("de", "Version %@"); ("es", "Versión %@"); ("fr", "Version %@")]);
  ("%lld free wallpapers remaining",
   [("de", "%lld kostenlose Hintergrundbilder übrig"); ("es", "%lld fondos gratis restantes"); ("fr", "%lld fonds d'écran gratuits restants")]);
  ("Step %lld",
   [("de", "Schritt %lld"); ("es", "Paso %lld"); ("fr", "Étape %lld")]);
  ("Step %lld of %lld",
   [("de", "Schritt %lld von %lld"); ("es", "Paso %lld de %lld"); ("fr", "Étape %lld sur %lld")]);
  ("%lld times",
   [("de", "%lld Mal"); ("es", "%lld veces"); ("fr", "%lld fois")]);
  ("%lld%",
   [("de", "%lld%"); ("es", "%lld%"); ("fr", "%lld%")]);
  ("%lld%%",
   [("de", "%lld%%"); ("es", "%lld%%"); ("fr", "%lld%%")]);
  ("%lld characters",
   [("de", "%lld Zeichen"); ("es", "%lld caracteres"); ("fr", "%lld caractères")]);
  ("+%@ people",
   [("de", "+%@ Personen"); ("es", "+%@ personas"); ("fr", "+%@ personnes")]);
  ("%lld:%02lld",
   [("de", "%lld:%02lld"); ("es", "%lld:%02lld"); ("fr", "%lld:%02lld")]);
  ("Next: %@",
   [("de", "Weiter: %@"); ("es", "Siguiente: %@"); ("fr", "Suivant: %@")]);
  ("Screen: %lld×%lld",
   [("de", "Bildschirm: %lld×%lld"); ("es", "Pantalla: %lld×%lld"); ("fr", "Écran: %lld×%lld")]);
  ("Device Category: %@",
   [("de", "Gerätekategorie: %@"); ("es", "Categoría del dispositivo: %@"); ("fr", "Catégorie d'appareil: %@")]);
  ("Scale Factor: %.2f",
   [("de", "Skalierungsfaktor: %.2f"); ("es", "Factor de escala: %.2f"); ("fr", "Facteur d'échelle: %.2f")]);
  ("Is Compact: %@",
   [("de", "Ist kompakt: %@"); ("es", "Es compacto: %@"); ("fr", "Est compact: %@")]);
  ("Max Video Height: %lld",
   [("de", "Max. Videohöhe: %lld"); ("es", "Altura máx. de video: %lld"); ("fr", "Hauteur vidéo max: %lld")]);
  ("Error: %@",
   [("de", "Fehler: %@"); ("es", "Error: %@"); ("fr", "Erreur: %@")]);
  ("Current step: %@",
   [("de", "Aktueller Schritt: %@"); ("es", "Paso actual: %@"); ("fr", "Étape actuelle: %@")])
]%string.

Definition localization_patterns : dict (dict text) :=
  dict_of (map (fun kv => (list_ascii_of_string (fst kv), Localize.as_dict (snd kv)))
               localization_patterns_items).

Definition languages : list text := ["en" : text; "de" : text; "es" : text; "fr" : text].

(** What is appended to the stripped content before the patterns. *)
Definition marker : text :=
  [NL; NL] ++ "// MARK: - Format Strings (Auto-generated)" ++ [NL].

(** [english_pattern] for English, else
    [translations.get(lang_code, english_pattern)] *)
Definition translation_of (lang_code english_pattern : text) (translations : dict text)
  : text :=
  if text_eqb lang_code "en" then english_pattern
  else match dict_get translations lang_code with
       | Some translation => translation
       | None => english_pattern
       end.

(** The line of a pattern: quoted key, [=], quoted value, semicolon. *)
Definition pattern_line (english_pattern translation : text) : text :=
  [QUOTE] ++ escape_quotes english_pattern ++ [QUOTE] ++ " = " ++
  [QUOTE] ++ escape_quotes translation ++ [QUOTE] ++ ";".

(** The body of the loop over [localization_patterns.items()]: the line is
    appended unless it occurs in the content read. *)
Definition add_pattern (lang_code content new_content : text)
  (entry : text * dict text) : text :=
  let pattern_line :=
    pattern_line (fst entry) (translation_of lang_code (fst entry) (snd entry)) in
  if contains pattern_line content then new_content
  else new_content ++ pattern_line ++ [NL].

(** [new_content] at the end of the loop. *)
Definition updated (lang_code content : text) : text :=
  fold_left (add_pattern lang_code content) localization_patterns
            (rstrip content ++ marker).

(** One round of [for lang_code in ["en", "de", "es", "fr"]]: read, append,
    write back. *)
Definition update_language (lang_code : text) : M unit :=
  content <- read_file (Localize.localizable_path lang_code) ;;
  write_file (Localize.localizable_path lang_code) (updated lang_code content) ;;;
  print ("   ✅ Updated " ++ lang_code ++ ".lproj/Localizable.strings").

Fixpoint for_each {A} (xs : list A) (body : A -> M unit) : M unit :=
  match xs with
  | [] => ret tt
  | x :: xs' => body x ;;; for_each xs' body
  end.

(** The part of [main] that rewrites the four Localizable.strings. *)
Definition add_format_patterns : M unit :=
  print ([NL] ++ "✍️  Adding " ++ nat_text (List.length localization_patterns) ++
         " format patterns...") ;;;
  for_each languages update_language.

End FixLocalization.

(** The line of an entry of [localization_patterns] for a language. *)
Definition line_of (lang_code : text) (entry : text * dict text) : text :=
  FixLocalization.pattern_line (fst entry)
    (FixLocalization.translation_of lang_code (fst entry) (snd entry)).

(** The world after [update_language] has rewritten the file of each
    language of [done], in order, [c] giving the content it read. *)
Definition rewritten (c : text -> text) (done : list text) (w : world) : world :=
  fold_left (fun w l =>
               mkWorld (fun q => if String.eqb q (Localize.localizable_path l)
                                 then Some (FixLocalization.updated l (c l))
                                 else files w q)
                       (unreadable w) (refused w) (cut_at w) (urandom w) (drawn w)
                       (stdout w ++ ["   ✅ Updated " ++ l ++ ".lproj/Localizable.strings"])
                       (written w ++ [(Localize.localizable_path l,
                                       FixLocalization.updated l (c l))]))
            done w.

(** Four Localizable.strings, each empty. *)
Definition world_with_tables : world :=
  mkWorld (fun q => if existsb (fun l => String.eqb q (Localize.localizable_path l))
                                FixLocalization.languages
                    then Some [] else None)
          (fun _ => false) (fun _ => false) (fun _ => None) (fun _ => 0%N) 0 [] [].

(** The Localizable.strings of language [l] is there, holds [c l], and can
    be read and written. *)
Definition table_at_hand (c : text -> text) (w : world) (l : text) : Prop :=
  files w (Localize.localizable_path l) = Some (c l) /\
  unreadable w (Localize.localizable_path l) = false /\
  unwritable w (Localize.localizable_path l) = false.

(** What [written] gains when the tables of [done] are rewritten. *)
Definition rewrites (c : text -> text) (done : list text) : list (path * text) :=
  map (fun l => (Localize.localizable_path l, FixLocalization.updated l (c l))) done.
(** ** Sections of the manifest, by first occurrences *)

(** The shape of the two section patterns of the add-file script: an opening
    marker, anything, a closing marker, each in its group. *)
Definition enclosed (a b : text) : pattern :=
  Group [Lit a] ++ Group [Star false any_char] ++ Group [Lit b].

Definition BEGIN_FILE_REFS : text := "/* Begin PBXFileReference section */".
Definition END_FILE_REFS : text := [TAB; TAB] ++ "/* End PBXFileReference section */".
Definition BEGIN_BUILD_FILES : text := "/* Begin PBXBuildFile section */".
Definition END_BUILD_FILES : text := [TAB; TAB] ++ "/* End PBXBuildFile section */".

(** The match of [enclosed a b]: the first [a], and the first [b] after it. *)
Definition find_enclosed (a b s : text) (pos : nat) : option rmatch :=
  match str_find a s with
  | None => None
  | Some i =>
      match str_find b (skipn (i + List.length a) s) with
      | None => None
      | Some j =>
          let p0 := pos + i in
          let p1 := p0 + List.length a in
          let p2 := p1 + j in
          let p3 := p2 + List.length b in
          Some (mkMatch p0 p3 [(p0, p1); (p1, p2); (p2, p3)])
      end
  end.

(** ** localize_app.py: extract_hardcoded_strings *)

Module LocalizeApp.

(** [Text(] with the opening double quote, and the group of one or more
    characters other than the double quote that follows it in each of the
    four patterns. *)
Definition text_open : text := "Text(" ++ [QUOTE].
Definition quoted_text : pattern := [Lit text_open] ++ Group (Plus not_quote).

(** The pattern for [Text], an opening parenthesis, a quoted string and a
    closing parenthesis; the string is group 1. *)
Definition text_pattern : pattern :=
  quoted_text ++ [Lit ([QUOTE] ++ ")")].

(** The same after [title:] and optional white space. *)
Definition title_pattern : pattern :=
  [Lit "title:"; Star true is_space] ++ quoted_text ++ [Lit ([QUOTE] ++ ")")].

(** The same after [message:] and optional white space. *)
Definition message_pattern : pattern :=
  [Lit "message:"; Star true is_space] ++ quoted_text ++ [Lit ([QUOTE] ++ ")")].

(** The same as the argument of a method call: a dot, a word, an opening
    parenthesis before, one more closing parenthesis after. *)
Definition destructive_pattern : pattern :=
  [Lit "."] ++ Plus is_word ++ [Lit "("] ++ quoted_text ++ [Lit ([QUOTE] ++ "))")].

(** [strings.update(re.findall(pattern, content))] for each of the four
    patterns in turn; with one group, [re.findall] returns what the group
    holds in each match. *)
Definition extracted (content : text) : list text :=
  let strings := FixResources.add_matches text_pattern content [] in
  let strings := FixResources.add_matches title_pattern content strings in
  let strings := FixResources.add_matches message_pattern content strings in
  FixResources.add_matches destructive_pattern content strings.

Definition extract_hardcoded_strings (swift_file_path : path) : M (list text) :=
  content <- read_file swift_file_path ;;
  ret (extracted content).

(** *** write_localizable_file *)

Definition language_names : dict text :=
  dict_of [ ("en" : text, "English" : text);
            ("de" : text, "German - Deutsch" : text);
            ("es" : text, "Spanish - Español" : text);
            ("fr" : text, "French - Français" : text) ].

(** The comment that opens the file; the name of the language is
    [language_names.get(language_code, language_code)]. *)
Definition header (language_code : text) : text :=
  "/* " ++ [NL] ++
  "  Localizable.strings (" ++
  match dict_get language_names language_code with
  | Some name => name
  | None => language_code
  end ++ ")" ++ [NL] ++
  "  NoteWall" ++ [NL] ++
  "  " ++ [NL] ++
  "  Auto-generated translations" ++ [NL] ++
  "*/" ++ [NL; NL].

Definition categories_items : list (string * list string) := [
  ("Common UI Elements",
   ["Continue"; "Cancel"; "Delete"; "Done"; "Close"; "OK"; "Skip"; "Next"; "Yes"; "No"; "Send"; "Apply"; "Save"]);
  ("Loading States",
   ["Loading..."; "Sending..."; "Updating…"; "Generating..."; "Saving…"]);
  ("Home Screen",
   ["No notes yet"; "Add a note below to get started"; "Wallpaper Not Showing?"]);
  ("Settings",
   ["Settings"; "Wallpaper Settings"; "Text Style"; "Help & Support"]);
  ("Onboarding",
   ["Welcome to NoteWall"; "Grant Permissions First"; "Start Using NoteWall"]);
  ("Paywall",
   ["Unlock Full Access"; "Get Premium"; "Restore Purchase"]);
  ("Other",
   [])
]%string.

Definition categories : dict (list text) :=
  dict_of (map (fun c => (list_ascii_of_string (fst c),
                          map list_ascii_of_string (snd c))) categories_items).

(** [a <= b] on strings: by code points, which is by bytes in UTF-8. *)
Fixpoint text_leb (a b : text) : bool :=
  match a, b with
  | [], _ => true
  | _ :: _, [] => false
  | x :: a', y :: b' =>
      if Nat.ltb (nat_of_ascii x) (nat_of_ascii y) then true
      else if Nat.eqb (nat_of_ascii x) (nat_of_ascii y) then text_leb a' b'
      else false
  end.

Fixpoint insert_sorted (x : text) (l : list text) : list text :=
  match l with
  | [] => [x]
  | y :: l' => if text_leb x y then x :: l else y :: insert_sorted x l'
  end.

(** [sorted(l)] *)
Definition sorted (l : list text) : list text := fold_right insert_sorted [] l.

(** The first category that lists the text among its keywords, else
    [Other]. *)
Definition category_of (english_text : text) : text :=
  match find (fun category => existsb (text_eqb english_text) (snd category))
             categories with
  | Some category => fst category
  | None => "Other"
  end.

(** [categorized[category].append(english_text)] *)
Definition assign (categorized : dict (list text)) (english_text : text)
  : dict (list text) :=
  let category := category_of english_text in
  match dict_get categorized category with
  | Some texts => dict_set categorized category (texts ++ [english_text])
  | None => categorized
  end.

(** [categorized] after the loop over the sorted keys. *)
Definition categorized (translations : dict text) : dict (list text) :=
  fold_left assign (sorted (dict_keys translations))
            (map (fun category => (fst category, [])) categories).

(** [translations[english_text]], for a key of [translations]. *)
Definition translation (translations : dict text) (english_text : text) : text :=
  match dict_get translations english_text with
  | Some translated => translated
  | None => []
  end.

(** The line of a phrase, with its line break. *)
Definition entry (translations : dict text) (english_text : text) : text :=
  [QUOTE] ++ escape_quotes english_text ++ [QUOTE] ++ " = " ++
  [QUOTE] ++ escape_quotes (translation translations english_text) ++ [QUOTE] ++
  ";" ++ [NL].

(** What a category adds to the content: nothing when it has no text. *)
Definition add_category (translations : dict text) (content : text)
  (category : text * list text) : text :=
  match snd category with
  | [] => content
  | texts =>
      content ++ "// MARK: - " ++ fst category ++ [NL] ++
      flat_map (entry translations) texts ++ [NL]
  end.

Definition file_content (translations : dict text) (language_code : text) : text :=
  fold_left (add_category translations) (categorized translations)
            (header language_code).

Definition write_localizable_file (output_path : path) (translations : dict text)
  (language_code : text) : M unit :=
  write_file output_path (file_content translations language_code).

End LocalizeApp.

(** The phrase of the three dictionaries that quotes a button title. *)
Definition update_wallpaper_hint : text :=
  "Add more notes using the + button, then tap " ++ [QUOTE] ++ "Update Wallpaper" ++
  [QUOTE] ++ " to apply them to your lock screen.".

(** A Swift source with two texts, one of them twice. *)
Definition swift_source : text :=
  "Text(" ++ [QUOTE] ++ "Cancel" ++ [QUOTE] ++ ")" ++ [NL] ++
  ".alert(title: Text(" ++ [QUOTE] ++ "Delete Note?" ++ [QUOTE] ++ "))" ++ [NL] ++
  "Text(" ++ [QUOTE] ++ "Cancel" ++ [QUOTE] ++ ")" ++ [NL].
(** ** Sections of the manifest, white space apart *)

(** The shape of the two section patterns of the add-resource script: the
    opening marker with the white space after it, anything, the closing
    marker with the white space before it. *)
Definition spaced (a b : text) : pattern :=
  Group [Lit a; Star true is_space] ++ Group [Star false any_char] ++
  Group [Star true is_space; Lit b].

Definition CLOSE_FILE_REFS : text := "/* End PBXFileReference section */".
Definition CLOSE_BUILD_FILES : text := "/* End PBXBuildFile section */".

(** The text neither begins nor ends with white space. *)
Definition no_blank_ends (t : text) : bool :=
  match t with
  | [] => true
  | c :: _ => negb (is_space c) && negb (is_space (last t c))
  end.

(** ** A Localizable.strings that reads back *)

(** The line of a phrase and its translation, neither with a quote to
    escape. *)
Definition strings_line (k v : text) : text :=
  [QUOTE] ++ k ++ [QUOTE] ++ " = " ++ [QUOTE] ++ v ++ [QUOTE] ++ ";".

(** [readable t es]: the text [t] is made of the lines of the entries [es],
    in order, and of characters other than the double quote around them. *)
Inductive readable : text -> list (text * text) -> Prop :=
| readable_end : readable [] []
| readable_char (c : ascii) (t : text) (es : list (text * text)) :
    not_quote c = true -> readable t es -> readable (c :: t) es
| readable_line (k v t : text) (es : list (text * text)) :
    quoteless k -> quoteless v -> readable t es ->
    readable (strings_line k v ++ t) ((k, v) :: es).

(** ** The children list and the sources list of the add-file script *)

Definition ISA_SOURCES : text := "isa = PBXSourcesBuildPhase;".
Definition SOURCES_CLOSE : text := [NL; TAB; TAB; TAB] ++ ");".
Definition NOTEWALL_OPEN : text := " /* NoteWall */ = {".
Definition CHILDREN_OPEN : text := "children = (".
Definition ISA_RESOURCES : text := "isa = PBXResourcesBuildPhase;".

(** The shape of the pattern for the files of a build phase, in both
    scripts: the [isa] line, no closing brace up to [files = (], the list,
    its closing. *)
Definition phase_pattern (isa close : text) : pattern :=
  Group [Lit isa; Star false not_rbrace; Lit FILES_OPEN] ++
  Group [Star false any_char] ++
  Group [Lit close].

(** * Properties *)

(** ** Basic facts *)

Lemma text_eqb_refl (a : text) : text_eqb a a = true.
Proof.
  induction a as [|c a IH]; simpl; [reflexivity|].
  now rewrite Ascii.eqb_refl, IH.
Qed.

Lemma text_eqb_eq (a b : text) : text_eqb a b = true <-> a = b.
Proof.
  split.
  - revert b. induction a as [|c a IH]; intros [|d b] H; simpl in H;
      try discriminate; [reflexivity|].
    apply andb_true_iff in H. destruct H as [H1 H2].
    apply Ascii.eqb_eq in H1. apply IH in H2. now subst.
  - intros ->. apply text_eqb_refl.
Qed.

Lemma text_eqb_neq (a b : text) : text_eqb a b = false <-> a <> b.
Proof.
  split.
  - intros H E. apply text_eqb_eq in E. congruence.
  - intros H. destruct (text_eqb a b) eqn:E; [|reflexivity].
    apply text_eqb_eq in E. contradiction.
Qed.

(** ** Writing a file *)

Lemma unwritable_false (w : world) (p : path) :
  unwritable w p = false <-> refused w p = false /\ cut_at w p = None.
Proof.
  unfold unwritable. destruct (refused w p), (cut_at w p); cbn; split;
    try discriminate; try (intros [? ?]; discriminate); auto.
Qed.

Lemma unwritable_true (w : world) (p : path) :
  unwritable w p = true <-> refused w p = true \/ exists n, cut_at w p = Some n.
Proof.
  unfold unwritable. destruct (refused w p), (cut_at w p) as [n|]; cbn; split;
    try discriminate; eauto.
  intros [H|[n H]]; discriminate.
Qed.

Lemma write_error_unwritable (w : world) (p : path) :
  write_error w p = None <-> unwritable w p = false.
Proof.
  unfold write_error, unwritable.
  destruct (refused w p), (cut_at w p); cbn; split; congruence.
Qed.

Lemma write_file_run (p : path) (c : text) (w : world) :
  write_file p c w =
    (match write_error w p with Some e => Raise e | None => Ret tt end,
     after_write p c w).
Proof.
  unfold write_file, write_error, after_write.
  destruct (refused w p); [reflexivity|]. now destruct (cut_at w p).
Qed.

Lemma after_write_through (p : path) (c : text) (w : world) :
  unwritable w p = false -> after_write p c w = store p c w.
Proof.
  intros H. apply unwritable_false in H. destruct H as [H1 H2].
  unfold after_write. now rewrite H1, H2.
Qed.

Lemma after_write_refused (p : path) (c : text) (w : world) :
  refused w p = true -> after_write p c w = w.
Proof. intros H. unfold after_write. now rewrite H. Qed.

Lemma after_write_cut (p : path) (c : text) (w : world) (n : nat) :
  refused w p = false -> cut_at w p = Some n ->
  after_write p c w = store p (firstn n c) w.
Proof. intros H1 H2. unfold after_write. now rewrite H1, H2. Qed.

Lemma files_store (p : path) (c : text) (w : world) :
  files (store p c w) p = Some c.
Proof. cbn [store files]. now rewrite String.eqb_refl. Qed.

Lemma files_store_other (p q : path) (c : text) (w : world) :
  q <> p -> files (store p c w) q = files w q.
Proof.
  intros H. cbn [store files]. destruct (String.eqb q p) eqn:E; [|reflexivity].
  apply String.eqb_eq in E. contradiction.
Qed.

Lemma written_store (p : path) (c : text) (w : world) :
  written (store p c w) = written w ++ [(p, c)].
Proof. reflexivity. Qed.

(** A write changes no file but its own. *)
Lemma after_write_other (p q : path) (c : text) (w : world) :
  q <> p -> files (after_write p c w) q = files w q.
Proof.
  intros H. unfold after_write. destruct (refused w p); [reflexivity|].
  now apply files_store_other.
Qed.

(** ** add_file_to_xcode.py: what a run does *)

Section AddFileRun.
Import AddFile.
Variables (w : world) (p : path) (name content : text).
Hypothesis Hfile : files w p = Some content.
Hypothesis Hread : unreadable w p = false.

Ltac run_add_file :=
  unfold add_file_to_xcode_project, except_not_found, read_file, fresh_id, uuid4;
  cbv beta iota delta [bind ret print except_any write_file];
  rewrite Hfile, Hread;
  cbn [fst snd files unreadable refused cut_at urandom drawn stdout written].

Ltac done_run := eexists; split; [reflexivity | split; reflexivity].

Ltac stopped_run :=
  eexists; eexists; split; [reflexivity|];
  split; [reflexivity|]; split; [reflexivity|];
  split; [reflexivity|apply last_last].

(** A run that stops writes nothing and prints, last, the line of the step
    that stopped it. *)
Lemma add_file_run_stopped :
  patched (first_id w) (second_id w) name content = None ->
  exists w' line,
    add_file_to_xcode_project p name w = (Ret false, w') /\
    files w' = files w /\ written w' = written w /\
    stop_line (first_id w) (second_id w) name content = Some line /\
    last (stdout w') [] = line.
Proof.
  unfold patched, stop_line, first_id, second_id. intros H.
  run_add_file.
  destruct (step_file_ref _ _ content) as [c1|]; [|stopped_run].
  destruct (step_build_file _ _ _ c1) as [c2|]; [|stopped_run].
  destruct (step_group _ _ c2) as [c3|]; [|stopped_run].
  destruct (step_sources _ _ c3) as [c4|]; [discriminate|stopped_run].
Qed.

Lemma add_file_run_missing :
  patched (first_id w) (second_id w) name content = None ->
  exists w', add_file_to_xcode_project p name w = (Ret false, w') /\
             files w' = files w /\ written w' = written w.
Proof.
  intros H. destruct (add_file_run_stopped H) as (w' & line & Hr & Hf & Hw & _).
  now exists w'.
Qed.

Lemma add_file_run_patched (out : text) :
  patched (first_id w) (second_id w) name content = Some out ->
  exists w',
    add_file_to_xcode_project p name w = (Ret (negb (unwritable w p)), w') /\
    files w' = files (after_write p out w) /\
    written w' = written (after_write p out w).
Proof.
  unfold patched, first_id, second_id. intros H.
  run_add_file.
  destruct (step_file_ref _ _ content) as [c1|]; [|discriminate].
  destruct (step_build_file _ _ _ c1) as [c2|]; [|discriminate].
  destruct (step_group _ _ c2) as [c3|]; [|discriminate].
  rewrite H.
  cbn [fst snd files unreadable refused cut_at urandom drawn stdout written].
  unfold unwritable, after_write.
  destruct (refused w p); [done_run|].
  destruct (cut_at w p); done_run.
Qed.
End AddFileRun.

Lemma missing_section_patched (fid bid name content : text) :
  AddFile.missing_section fid bid name content <->
  AddFile.patched fid bid name content = None.
Proof.
  unfold AddFile.missing_section, AddFile.patched, AddFile.step_file_ref,
    AddFile.step_build_file, AddFile.step_group, AddFile.step_sources.
  split.
  - intros [H|(c1 & H1 & [H|(c2 & H2 & [H|(c3 & H3 & H)])])].
    + now rewrite H.
    + rewrite H1. now rewrite H.
    + rewrite H1, H2. now rewrite H.
    + rewrite H1, H2, H3. now rewrite H.
  - intros H.
    destruct (re_search AddFile.file_ref_pattern content) as [m1|]; [|now left].
    right. eexists. split; [reflexivity|].
    destruct (re_search AddFile.build_file_pattern _) as [m2|]; [|now left].
    right. eexists. split; [reflexivity|].
    destruct (re_search AddFile.group_pattern _) as [m3|]; [|now left].
    right. eexists. split; [reflexivity|].
    destruct (re_search AddFile.sources_pattern _) as [m4|]; [discriminate|reflexivity].
Qed.



(** C1, as stated, fails when a pattern that has no match in the blob read
    has one at its step.  The manifest has no sources phase, and the sources
    pattern no match in it; the file name reads like the head of one, so
    that after the first splices the pattern matches from the new entry to
    the end of the files list of the resources phase: the run returns
    [True] and overwrites the manifest. *)
Lemma add_file_succeeds_without_sources_phase :
  let p := AddFile.project_file in
  let w := world_with p manifest_without_sources in
  let r := AddFile.add_file_to_xcode_project p phase_like_name w in
  re_search AddFile.sources_pattern manifest_without_sources = None /\
  fst r = Ret true /\
  files (snd r) p <> Some manifest_without_sources /\
  exists out, written (snd r) = [(p, out)].
Proof.
  cbv zeta. split; [vm_compute; reflexivity|].
  split; [vm_compute; reflexivity|].
  split; [vm_compute; discriminate|].
  eexists. vm_compute. reflexivity.
Qed.

(** ** fix_xcode_resources.py: what a run does *)

Lemma print_all_say (lines : list text) (w : world) :
  FixResources.print_all lines w = (Ret tt, say lines w).
Proof.
  revert w. induction lines as [|l ls IH]; intros w.
  - unfold say. cbn. rewrite app_nil_r. now destruct w.
  - cbn [FixResources.print_all]. unfold bind, print. rewrite IH.
    unfold say. cbn [files unreadable refused cut_at urandom drawn stdout written].
    now rewrite <- app_assoc.
Qed.

Section FixRun.

Import FixResources.

Variables (w : world) (p : path) (content : text).
Hypothesis Hfile : files w p = Some content.
Hypothesis Hread : unreadable w p = false.

Ltac run_fix :=
  unfold fix_xcode_project, read_file;
  unfold bind at 1; rewrite Hfile, Hread;
  unfold bind at 1; unfold print at 1;
  unfold bind at 1; rewrite print_all_say;
  unfold say; cbn [files unreadable refused cut_at urandom drawn stdout written].

Lemma fix_run_unchanged :
  fixed_content content = content ->
  exists w',
    fix_xcode_project p w = (Ret false, w') /\
    files w' = files w /\ written w' = written w /\
    stdout w' = stdout w ++ fix_reports content ++ [no_changes_message].
Proof.
  intros Heq. run_fix. rewrite Heq, text_eqb_refl.
  cbv beta iota delta [bind ret print].
  cbn [files unreadable refused cut_at urandom drawn stdout written].
  eexists. split; [reflexivity|]. cbn [files written stdout].
  repeat split. unfold fix_reports.
  now rewrite <- !app_assoc.
Qed.

Lemma fix_run_changed :
  fixed_content content <> content ->
  exists w',
    fix_xcode_project p w =
      (match write_error w p with Some e => Raise e | None => Ret true end, w') /\
    files w' = files (after_write p (fixed_content content) w) /\
    written w' = written (after_write p (fixed_content content) w) /\
    (unwritable w p = false ->
     stdout w' = stdout w ++ fix_reports content ++ [success_message p]).
Proof.
  intros Hne. run_fix. apply text_eqb_neq in Hne. rewrite Hne.
  cbv beta iota delta [bind ret print write_file].
  cbn [files unreadable refused cut_at urandom drawn stdout written].
  unfold write_error, after_write, unwritable.
  destruct (refused w p).
  - eexists. split; [reflexivity|]. cbn [files written orb].
    split; [reflexivity|]. split; [reflexivity|]. discriminate.
  - destruct (cut_at w p).
    + eexists. split; [reflexivity|]. cbn [files written store orb].
      split; [reflexivity|]. split; [reflexivity|]. discriminate.
    + eexists. split; [reflexivity|]. cbn [files written stdout store].
      split; [reflexivity|]. split; [reflexivity|].
      intros _. unfold fix_reports.
      now rewrite <- !app_assoc.
Qed.

End FixRun.

(** ** Exit statuses *)

Ltac run_io Hfile Hread :=
  cbv beta iota delta [bind ret print except_not_found except_any read_file
                       write_file fresh_id uuid4];
  rewrite ?Hfile, ?Hread;
  cbn [fst snd files unreadable refused cut_at urandom drawn stdout written].

Lemma add_file_run_not_found (w : world) (p : path) (name : text) :
  files w p = None ->
  exists w', AddFile.add_file_to_xcode_project p name w = (Ret false, w').
Proof.
  intros Hfile. unfold AddFile.add_file_to_xcode_project.
  run_io Hfile Hfile. eexists. reflexivity.
Qed.

Lemma add_file_run_unreadable (w : world) (p : path) (name content : text) :
  files w p = Some content -> unreadable w p = true ->
  exists w', AddFile.add_file_to_xcode_project p name w = (Raise PermissionError, w').
Proof.
  intros Hfile Hread. unfold AddFile.add_file_to_xcode_project.
  run_io Hfile Hread. eexists. reflexivity.
Qed.

Lemma add_resource_run_not_found (w : world) (p : path) (name type : text) :
  files w p = None ->
  exists w', AddResource.add_resource_to_xcode_project p name type w = (Ret false, w').
Proof.
  intros Hfile. unfold AddResource.add_resource_to_xcode_project.
  run_io Hfile Hfile. eexists. reflexivity.
Qed.

Lemma add_resource_run_unreadable (w : world) (p : path) (name type content : text) :
  files w p = Some content -> unreadable w p = true ->
  exists w', AddResource.add_resource_to_xcode_project p name type w
             = (Raise PermissionError, w').
Proof.
  intros Hfile Hread. unfold AddResource.add_resource_to_xcode_project.
  run_io Hfile Hread. eexists. reflexivity.
Qed.

Lemma add_resource_run (w : world) (p : path) (name type content : text) :
  files w p = Some content -> unreadable w p = false ->
  exists w',
    AddResource.add_resource_to_xcode_project p name type w =
      (Ret (match AddResource.patched (AddFile.first_id w) (AddFile.second_id w)
                    name type content with
            | Some _ => negb (unwritable w p)
            | None => false
            end), w').
Proof.
  intros Hfile Hread.
  unfold AddResource.add_resource_to_xcode_project, AddResource.patched,
    AddFile.first_id, AddFile.second_id.
  run_io Hfile Hread.
  destruct (AddResource.insert_at_end2 AddResource.file_ref_pattern _ content)
    as [c1|]; [|eexists; reflexivity].
  destruct (AddResource.insert_at_end2 AddResource.build_file_pattern _ c1)
    as [c2|]; [|eexists; reflexivity].
  destruct (re_search AddResource.group_pattern c2) as [m|]; [|eexists; reflexivity].
  destruct (AddResource.insert_at_end2 AddResource.resources_pattern _ _)
    as [c4|]; [|eexists; reflexivity].
  cbn [fst snd files unreadable refused cut_at urandom drawn stdout written].
  unfold unwritable.
  destruct (refused w p); [eexists; reflexivity|].
  destruct (cut_at w p); eexists; reflexivity.
Qed.

Lemma fix_run_not_found (w : world) (p : path) :
  files w p = None ->
  FixResources.fix_xcode_project p w = (Raise FileNotFoundError, w).
Proof.
  intros Hfile. unfold FixResources.fix_xcode_project, read_file, bind.
  now rewrite Hfile.
Qed.

Lemma fix_run_unreadable (w : world) (p : path) (content : text) :
  files w p = Some content -> unreadable w p = true ->
  FixResources.fix_xcode_project p w = (Raise PermissionError, w).
Proof.
  intros Hfile Hread. unfold FixResources.fix_xcode_project, read_file, bind.
  now rewrite Hfile, Hread.
Qed.

(** Without a match, [re.sub] returns its input. *)
Lemma sub_from_no_match (r : pattern) (f : rmatch -> text) (s : text) (pos : nat) :
  search_from r s pos = None -> sub_from r f s pos 0 = s.
Proof.
  revert pos. induction s as [|c s IH]; intros pos H; cbn in H |- *.
  - destruct (match_at r [] pos); [discriminate|reflexivity].
  - destruct (match_at r (c :: s) pos); [discriminate|].
    now rewrite IH.
Qed.

Lemma fixed_content_no_section (content : text) :
  re_search FixResources.resources_section_pattern content = None ->
  FixResources.fixed_content content = content.
Proof.
  intros H. unfold FixResources.fixed_content, re_sub.
  now apply sub_from_no_match.
Qed.

Lemma add_file_main_exit (w w' : world) (res : result bool) :
  AddFile.add_file_to_xcode_project AddFile.project_file AddFile.swift_file w
    = (res, w') ->
  fst (exit_status AddFile.main w) =
  match res with Ret true => 0 | _ => 1 end.
Proof.
  intros H. unfold exit_status, AddFile.main, bind, ret. rewrite H.
  destruct res as [[|]|]; reflexivity.
Qed.

Lemma add_resource_main_exit (w w' : world) (res : result bool) :
  AddResource.add_resource_to_xcode_project AddResource.project_file
    AddResource.resource_file "text.xml" w = (res, w') ->
  fst (exit_status AddResource.main w) =
  match res with Ret true => 0 | _ => 1 end.
Proof.
  intros H. unfold exit_status, AddResource.main, bind, ret. rewrite H.
  destruct res as [[|]|]; reflexivity.
Qed.

(** The world in which the fix script calls [fix_xcode_project]. *)
Lemma fix_main_exit (w : world) :
  exists w0,
    files w0 = files w /\ unreadable w0 = unreadable w /\
    unwritable w0 = unwritable w /\ write_error w0 = write_error w /\
    forall res w',
      FixResources.fix_xcode_project FixResources.pbxproj_path w0 = (res, w') ->
      fst (exit_status FixResources.main w) =
      match res with Ret true => 0 | _ => 1 end.
Proof.
  eexists (say [_; _; _] w). repeat split.
  intros res w' H.
  unfold exit_status, FixResources.main.
  unfold bind at 1. unfold print at 1.
  unfold bind at 1. unfold print at 1.
  unfold bind at 1. unfold print at 1.
  cbn [files unreadable refused cut_at urandom drawn stdout written].
  unfold bind at 1.
  unfold say in H. cbn [app] in H. rewrite <- !app_assoc. cbn [app].
  rewrite H.
  destruct res as [[|]|]; reflexivity.
Qed.

Lemma add_file_exit (w : world) :
  (fst (exit_status AddFile.main w) = 0 /\ add_file_can_succeed w) \/
  (fst (exit_status AddFile.main w) = 1 /\ ~ add_file_can_succeed w).
Proof.
  unfold add_file_can_succeed.
  destruct (files w AddFile.project_file) as [content|] eqn:Hfile.
  - destruct (unreadable w AddFile.project_file) eqn:Hread.
    + destruct (add_file_run_unreadable w _ AddFile.swift_file _ Hfile Hread)
        as (w' & Hr).
      right. split; [now rewrite (add_file_main_exit _ _ _ Hr)|].
      intros (c & o & _ & H & _). discriminate.
    + destruct (AddFile.patched (AddFile.first_id w) (AddFile.second_id w)
                  AddFile.swift_file content) as [out|] eqn:Hp.
      * destruct (add_file_run_patched w _ _ _ Hfile Hread out Hp) as (w' & Hr & _).
        rewrite (add_file_main_exit _ _ _ Hr).
        destruct (unwritable w AddFile.project_file) eqn:Hw; cbn [negb].
        -- right. split; [reflexivity|].
           intros (c & o & _ & _ & _ & H). discriminate.
        -- left. split; [reflexivity|]. now exists content, out.
      * destruct (add_file_run_missing w _ _ _ Hfile Hread Hp) as (w' & Hr & _).
        right. split; [now rewrite (add_file_main_exit _ _ _ Hr)|].
        intros (c & o & Hc & _ & H & _). congruence.
  - destruct (add_file_run_not_found w _ AddFile.swift_file Hfile) as (w' & Hr).
    right. split; [now rewrite (add_file_main_exit _ _ _ Hr)|].
    intros (c & o & H & _). discriminate.
Qed.

Lemma add_resource_exit (w : world) :
  (fst (exit_status AddResource.main w) = 0 /\ add_resource_can_succeed w) \/
  (fst (exit_status AddResource.main w) = 1 /\ ~ add_resource_can_succeed w).
Proof.
  unfold add_resource_can_succeed.
  destruct (files w AddResource.project_file) as [content|] eqn:Hfile.
  - destruct (unreadable w AddResource.project_file) eqn:Hread.
    + destruct (add_resource_run_unreadable w _ AddResource.resource_file "text.xml"
                  _ Hfile Hread) as (w' & Hr).
      right. split; [now rewrite (add_resource_main_exit _ _ _ Hr)|].
      intros (c & o & _ & H & _). discriminate.
    + destruct (add_resource_run w _ AddResource.resource_file "text.xml" _
                  Hfile Hread) as (w' & Hr).
      rewrite (add_resource_main_exit _ _ _ Hr).
      destruct (AddResource.patched _ _ _ _ content) as [out|] eqn:Hp.
      * destruct (unwritable w AddResource.project_file) eqn:Hw; cbn [negb].
        -- right. split; [reflexivity|].
           intros (c & o & _ & _ & _ & H). discriminate.
        -- left. split; [reflexivity|]. now exists content, out.
      * right. split; [reflexivity|].
        intros (c & o & Hc & _ & H & _). congruence.
  - destruct (add_resource_run_not_found w _ AddResource.resource_file "text.xml"
                Hfile) as (w' & Hr).
    right. split; [now rewrite (add_resource_main_exit _ _ _ Hr)|].
    intros (c & o & H & _). discriminate.
Qed.

Lemma fix_exit (w : world) :
  (fst (exit_status FixResources.main w) = 0 /\ fix_can_succeed w) \/
  (fst (exit_status FixResources.main w) = 1 /\ ~ fix_can_succeed w).
Proof.
  unfold fix_can_succeed.
  destruct (fix_main_exit w) as (w0 & Hf & Hr & Hw & Hwe & Hexit).
  set (p := FixResources.pbxproj_path) in *.
  destruct (files w p) as [content|] eqn:Hfile.
  - assert (Hfile0 : files w0 p = Some content) by now rewrite Hf.
    destruct (unreadable w p) eqn:Hread.
    + assert (Hread0 : unreadable w0 p = true) by now rewrite Hr.
      right. split.
      * now rewrite (Hexit _ _ (fix_run_unreadable w0 p content Hfile0 Hread0)).
      * intros (c & _ & H & _). discriminate.
    + assert (Hread0 : unreadable w0 p = false) by now rewrite Hr.
      destruct (list_eq_dec ascii_dec (FixResources.fixed_content content) content)
        as [Heq|Hne].
      * destruct (fix_run_unchanged w0 p content Hfile0 Hread0 Heq) as (w' & H & _).
        right. split; [now rewrite (Hexit _ _ H)|].
        intros (c & Hc & _ & H' & _). congruence.
      * destruct (fix_run_changed w0 p content Hfile0 Hread0 Hne) as (w' & H & _).
        rewrite (Hexit _ _ H). rewrite Hwe.
        destruct (unwritable w p) eqn:Hwr.
        -- right. split.
           ++ destruct (write_error w p) eqn:E; [reflexivity|].
              apply write_error_unwritable in E. congruence.
           ++ intros (c & _ & _ & _ & H'). discriminate.
        -- left. rewrite (proj2 (write_error_unwritable w p) Hwr).
           split; [reflexivity|]. now exists content.
  - assert (Hfile0 : files w0 p = None) by now rewrite Hf.
    right. split.
    + now rewrite (Hexit _ _ (fix_run_not_found w0 p Hfile0)).
    + intros (c & H & _). discriminate.
Qed.

(** C8.  Each patch script exits with status 0 exactly when it succeeded and
    with status 1 otherwise; in particular a missing section and a refused
    write both give status 1. *)
Theorem scripts_exit_0_on_success_1_on_failure (w : world) :
  (* add_file_to_xcode.py *)
  ((fst (exit_status AddFile.main w) = 0 /\ add_file_can_succeed w) \/
   (fst (exit_status AddFile.main w) = 1 /\ ~ add_file_can_succeed w)) /\
  (forall content,
     files w AddFile.project_file = Some content ->
     AddFile.missing_section (AddFile.first_id w) (AddFile.second_id w)
                             AddFile.swift_file content ->
     fst (exit_status AddFile.main w) = 1) /\
  (unwritable w AddFile.project_file = true ->
   fst (exit_status AddFile.main w) = 1) /\
  (* add_resource_to_xcode.py *)
  ((fst (exit_status AddResource.main w) = 0 /\ add_resource_can_succeed w) \/
   (fst (exit_status AddResource.main w) = 1 /\ ~ add_resource_can_succeed w)) /\
  (unwritable w AddResource.project_file = true ->
   fst (exit_status AddResource.main w) = 1) /\
  (* fix_xcode_resources.py *)
  ((fst (exit_status FixResources.main w) = 0 /\ fix_can_succeed w) \/
   (fst (exit_status FixResources.main w) = 1 /\ ~ fix_can_succeed w)) /\
  (forall content,
     files w FixResources.pbxproj_path = Some content ->
     re_search FixResources.resources_section_pattern content = None ->
     fst (exit_status FixResources.main w) = 1) /\
  (unwritable w FixResources.pbxproj_path = true ->
   fst (exit_status FixResources.main w) = 1).
Proof.
  pose proof (add_file_exit w) as Ha.
  pose proof (add_resource_exit w) as Hr.
  pose proof (fix_exit w) as Hf.
  repeat split; try assumption.
  - intros content Hfile Hmiss.
    destruct Ha as [[_ (c & o & Hc & _ & Hp & _)]|[H _]]; [|exact H].
    apply missing_section_patched in Hmiss. congruence.
  - intros Hw. destruct Ha as [[_ (c & o & _ & _ & _ & H)]|[H _]]; [|exact H].
    congruence.
  - intros Hw. destruct Hr as [[_ (c & o & _ & _ & _ & H)]|[H _]]; [|exact H].
    congruence.
  - intros content Hfile Hnone.
    destruct Hf as [[_ (c & Hc & _ & Hne & _)]|[H _]]; [|exact H].
    exfalso. apply Hne. apply fixed_content_no_section. congruence.
  - intros Hw. destruct Hf as [[_ (c & _ & _ & _ & H)]|[H _]]; [|exact H].
    congruence.
Qed.

(** ** Dictionaries *)

Lemma dict_get_set {V} (d : dict V) (k k' : text) (v : V) :
  dict_get (dict_set d k v) k' =
  if text_eqb k k' then Some v else dict_get d k'.
Proof.
  induction d as [|[k0 v0] d IH]; cbn.
  - reflexivity.
  - destruct (text_eqb k0 k) eqn:E0; cbn.
    + apply text_eqb_eq in E0. subst k0.
      destruct (text_eqb k k'); reflexivity.
    + destruct (text_eqb k0 k') eqn:E1.
      * destruct (text_eqb k k') eqn:E2; [|reflexivity].
        apply text_eqb_eq in E1, E2. subst. now rewrite text_eqb_refl in E0.
      * exact IH.
Qed.

Lemma dict_get_fold_set (f : text -> text) (keys : list text) (d : dict text)
  (k : text) :
  dict_get (fold_left (fun d k => dict_set d k (f k)) keys d) k =
  if existsb (fun k' => text_eqb k' k) keys then Some (f k) else dict_get d k.
Proof.
  revert d. induction keys as [|k0 keys IH]; intros d; cbn.
  - reflexivity.
  - rewrite IH, dict_get_set.
    destruct (existsb _ keys); [now rewrite orb_true_r|].
    rewrite orb_false_r.
    destruct (text_eqb k0 k) eqn:E; [|reflexivity].
    apply text_eqb_eq in E. now subst.
Qed.

Lemma existsb_text_In (k : text) (keys : list text) :
  In k keys -> existsb (fun k' => text_eqb k' k) keys = true.
Proof.
  intros H. apply existsb_exists. exists k. split; [exact H|apply text_eqb_refl].
Qed.

Lemma dict_get_In {V} (d : dict V) (k : text) (v : V) :
  dict_get d k = Some v -> In v (map snd d).
Proof.
  induction d as [|[k0 v0] d IH]; cbn; [discriminate|].
  destruct (text_eqb k0 k); intros H.
  - left. congruence.
  - right. auto.
Qed.

(** ** localize_app.py: the translation loop *)

Section TranslationLoop.

Import Localize.

Variables (lang_code : text) (lang_existing table : dict text).

Lemma translate_all_run (keys : list text) (complete : dict text) (w : world) :
  translate_all lang_code lang_existing table keys complete w =
  (Ret (translated lang_existing table keys complete),
   say (warnings lang_code lang_existing table keys) w).
Proof.
  revert complete w. induction keys as [|k keys IH]; intros complete w.
  - cbn. unfold say, ret. rewrite app_nil_r. now destruct w.
  - cbn [translate_all]. unfold warnings, translated. cbn [filter fold_left].
    destruct (translate lang_existing table k) as [t o] eqn:E.
    cbn [fst snd].
    destruct o; cbn [map]; try apply IH.
    unfold bind, print. rewrite IH. unfold say.
    cbn [files unreadable refused cut_at urandom drawn stdout written].
    unfold warnings. now rewrite <- app_assoc.
Qed.


End TranslationLoop.

Lemma read_existing_run (w : world) (p : path) :
  Localize.read_existing_translations p w =
  match files w p with
  | None => (Ret [], w)
  | Some content =>
      if unreadable w p then (Raise PermissionError, w)
      else (Ret (Localize.parse_translations content), w)
  end.
Proof.
  unfold Localize.read_existing_translations, bind, path_exists, read_file, ret.
  destruct (files w p) eqn:E; cbn [negb]; [|reflexivity].
  rewrite E. now destruct (unreadable w p).
Qed.

(** What the existing file of a language holds, an absent file holding
    nothing. *)
Lemma complete_language_run (w : world) (en : dict text) (lang_code : text)
  (table : dict text) :
  dict_get Localize.TRANSLATIONS lang_code = Some table ->
  unreadable w (Localize.localizable_path lang_code) = false ->
  let lang_existing :=
    match files w (Localize.localizable_path lang_code) with
    | Some content => Localize.parse_translations content
    | None => []
    end in
  Localize.complete_language en lang_code w =
  (Ret (translated lang_existing table (dict_keys en) []),
   say (warnings lang_code lang_existing table (dict_keys en)) w).
Proof.
  intros Htable Hread lang_existing.
  unfold Localize.complete_language. unfold bind at 1.
  rewrite read_existing_run. subst lang_existing.
  destruct (files w (Localize.localizable_path lang_code)).
  - rewrite Hread, Htable. apply translate_all_run.
  - rewrite Htable. apply translate_all_run.
Qed.



(** ** localize_app.py: looking a phrase up *)

Lemma TRANSLATIONS_tables (lang_code : text) (table : dict text) :
  dict_get Localize.TRANSLATIONS lang_code = Some table ->
  table = table_de \/ table = table_es \/ table = table_fr.
Proof.
  assert (E : Localize.TRANSLATIONS =
              [("de" : text, table_de); ("es" : text, table_es);
               ("fr" : text, table_fr)]) by reflexivity.
  rewrite E. cbn [dict_get].
  destruct (text_eqb _ lang_code); [intros [= <-]; auto|].
  destruct (text_eqb _ lang_code); [intros [= <-]; auto|].
  destruct (text_eqb _ lang_code); [intros [= <-]; auto|].
  discriminate.
Qed.

Lemma table_values_nonempty (lang_code : text) (table : dict text) (k v : text) :
  dict_get Localize.TRANSLATIONS lang_code = Some table ->
  dict_get table k = Some v ->
  v <> [].
Proof.
  intros Ht Hk.
  assert (H : forallb nonempty (map snd table) = true).
  { destruct (TRANSLATIONS_tables _ _ Ht) as [->|[->| ->]];
      vm_compute; reflexivity. }
  rewrite forallb_forall in H. apply dict_get_In in Hk.
  specialize (H _ Hk). destruct v; [discriminate|congruence].
Qed.

(** C5, as the code has it.  For a phrase the language's existing file does
    not translate: a key of the hardcoded dictionary gets the dictionary's
    value, which is not empty; any other phrase gets itself back, the loop
    prints the warning and returns normally.  So [Cancel] is [Abbrechen] in
    German and [Frobnicate] stays [Frobnicate]. *)
Theorem dictionary_lookup_or_fallback :
  (forall (lang_code : text) (table lang_existing : dict text) (phrase : text),
     dict_get Localize.TRANSLATIONS lang_code = Some table ->
     dict_get lang_existing phrase = None ->
     (forall v, dict_get table phrase = Some v ->
        Localize.translate lang_existing table phrase = (v, Localize.Dictionary) /\
        v <> []) /\
     (dict_get table phrase = None ->
        Localize.translate lang_existing table phrase = (phrase, Localize.Fallback) /\
        forall keys complete w, In phrase keys ->
          exists d w',
            Localize.translate_all lang_code lang_existing table keys complete w
              = (Ret d, w') /\
            In (Localize.warning phrase lang_code) (stdout w'))) /\
  dict_get Localize.TRANSLATIONS "de" = Some table_de /\
  Localize.translate [] table_de "Cancel"
    = ("Abbrechen" : text, Localize.Dictionary) /\
  Localize.translate [] table_de "Frobnicate"
    = ("Frobnicate" : text, Localize.Fallback).
Proof.
  split; [|repeat split; vm_compute; reflexivity].
  intros lang_code table lang_existing phrase Ht He. split.
  - intros v Hv. split.
    + unfold Localize.translate. now rewrite He, Hv.
    + exact (table_values_nonempty _ _ _ _ Ht Hv).
  - intros Hn.
    assert (Htr : Localize.translate lang_existing table phrase
                  = (phrase, Localize.Fallback)).
    { unfold Localize.translate. now rewrite He, Hn. }
    split; [exact Htr|].
    intros keys complete w Hin. rewrite translate_all_run.
    eexists. eexists. split; [reflexivity|].
    unfold say. cbn [stdout]. apply in_or_app. right.
    unfold warnings.
    apply (in_map (fun k => Localize.warning k lang_code)). apply filter_In. split; [exact Hin|].
    now rewrite Htr.
Qed.

Lemma dictionary_lookup_or_fallback_witness :
  Localize.translate [] table_de "Cancel"
    = ("Abbrechen" : text, Localize.Dictionary) /\
  ("Abbrechen" : text) <> [] /\
  exists d w',
    Localize.translate_all "de" [] table_de ["Frobnicate" : text] [] world_with_de
      = (Ret d, w') /\
    In (Localize.warning "Frobnicate" "de") (stdout w').
Proof.
  destruct dictionary_lookup_or_fallback as [H _].
  split; [|split].
  - apply (H "de" table_de [] "Cancel"); vm_compute; reflexivity.
  - apply (H "de" table_de [] "Cancel"); vm_compute; reflexivity.
  - apply (H "de" table_de [] "Frobnicate"); try (vm_compute; reflexivity).
    left. reflexivity.
Defined.

(** C5, as stated, fails when the existing file has the phrase: [Cancel] is a
    key of the German dictionary, with value [Abbrechen], and the lookup
    returns the file's [Stornieren]. *)
Lemma lookup_prefers_existing_file :
  dict_get table_de "Cancel" = Some ("Abbrechen" : text) /\
  Localize.translate (Localize.parse_translations persisted_de) table_de "Cancel"
    = ("Stornieren" : text, Localize.Existing) /\
  fst (Localize.translate (Localize.parse_translations persisted_de) table_de "Cancel")
    <> ("Abbrechen" : text).
Proof.
  repeat split; try (vm_compute; reflexivity).
  vm_compute. discriminate.
Qed.

(** ** The matcher: spans are well ordered *)

Lemma match_star_greedy (p : ascii -> bool) (r : pattern) (s : text) (pos : nat)
  (cs : caps) :
  match_here (Star true p :: r) s pos cs =
  match s with
  | c :: s' =>
      if p c
      then match match_here (Star true p :: r) s' (S pos) cs with
           | Some m => Some m
           | None => match_here r s pos cs
           end
      else match_here r s pos cs
  | [] => match_here r s pos cs
  end.
Proof. destruct s; reflexivity. Qed.

Lemma match_star_lazy (p : ascii -> bool) (r : pattern) (s : text) (pos : nat)
  (cs : caps) :
  match_here (Star false p :: r) s pos cs =
  match match_here r s pos cs with
  | Some m => Some m
  | None =>
      match s with
      | c :: s' => if p c then match_here (Star false p :: r) s' (S pos) cs else None
      | [] => None
      end
  end.
Proof. destruct s; reflexivity. Qed.

Lemma match_here_ordered (r : pattern) :
  forall s pos cs e cs',
    match_here r s pos cs = Some (e, cs') ->
    cur cs <= pos -> ordered cs ->
    pos <= e /\ cur cs' <= e /\ ordered cs'.
Proof.
  induction r as [|i r IH]; intros s pos cs e cs' H Hcur Hord.
  - injection H as <- <-. auto.
  - destruct i as [l|p|g p| |].
    + cbn [match_here] in H. destruct (starts_with l s); [|discriminate].
      apply IH in H; [|lia|assumption]. intuition lia.
    + cbn [match_here] in H. destruct s as [|c s]; [discriminate|].
      destruct (p c); [|discriminate].
      apply IH in H; [|lia|assumption]. intuition lia.
    + revert pos H Hcur. destruct g.
      * induction s as [|c s IHs]; intros pos H Hcur;
          rewrite match_star_greedy in H.
        -- now apply IH in H.
        -- destruct (p c); [|now apply IH in H].
           destruct (match_here (Star true p :: r) s (S pos) cs)
             as [[e1 cs1]|] eqn:E; [|now apply IH in H].
           injection H as <- <-. apply IHs in E; [|lia]. intuition lia.
      * induction s as [|c s IHs]; intros pos H Hcur;
          rewrite match_star_lazy in H.
        -- destruct (match_here r [] pos cs) as [[e1 cs1]|] eqn:E;
             [|discriminate].
           injection H as <- <-. now apply IH in E.
        -- destruct (match_here r (c :: s) pos cs) as [[e1 cs1]|] eqn:E.
           ++ injection H as <- <-. now apply IH in E.
           ++ destruct (p c); [|discriminate].
              apply IHs in H; [|lia]. intuition lia.
    + cbn [match_here] in H. apply IH in H; cbn; auto.
    + cbn [match_here] in H. apply IH in H; cbn; [auto|auto|].
      constructor; [cbn; lia|exact Hord].
Qed.

Lemma match_at_spans (r : pattern) (s : text) (pos : nat) (m : rmatch) :
  match_at r s pos = Some m ->
  forall k, start_of m k <= end_of m k.
Proof.
  unfold match_at. intros H k.
  destruct (match_here r s pos no_caps) as [[e cs]|] eqn:E; [|discriminate].
  injection H as <-.
  apply match_here_ordered in E; [|cbn; lia|constructor].
  destruct E as (_ & _ & Hord).
  unfold start_of, end_of, group_span. cbn [m_groups].
  assert (Hall : Forall (fun ab => fst ab <= snd ab) (rev (closed cs)))
    by now apply Forall_rev.
  destruct (nth_in_or_default (k - 1) (rev (closed cs)) (0, 0)) as [Hin| ->].
  - rewrite Forall_forall in Hall. exact (Hall _ Hin).
  - cbn. lia.
Qed.

Lemma search_from_spans (r : pattern) (s : text) (pos : nat) (m : rmatch) :
  search_from r s pos = Some m ->
  forall k, start_of m k <= end_of m k.
Proof.
  revert pos. induction s as [|c s IH]; intros pos H; cbn in H.
  - destruct (match_at r [] pos) eqn:E; [|discriminate].
    injection H as <-. exact (match_at_spans _ _ _ _ E).
  - destruct (match_at r (c :: s) pos) eqn:E.
    + injection H as <-. exact (match_at_spans _ _ _ _ E).
    + exact (IH _ H).
Qed.

(** ** Splices *)

Lemma splice_length (s : text) (n : nat) (t : text) :
  List.length (splice s n t) = List.length s + List.length t.
Proof.
  unfold splice. rewrite !length_app.
  rewrite <- (firstn_skipn n s) at 3. rewrite length_app. lia.
Qed.

Lemma firstn_slice (s : text) (a b : nat) :
  a <= b -> firstn a s ++ slice s a b = firstn b s.
Proof.
  unfold slice. revert s b. induction a as [|a IH]; intros s b H.
  - cbn. now rewrite Nat.sub_0_r.
  - destruct s as [|c s]; [now rewrite !firstn_nil|].
    destruct b as [|b]; [lia|]. cbn. f_equal. apply IH. lia.
Qed.

Lemma count_nl_app (a b : text) : count_nl (a ++ b) = count_nl a + count_nl b.
Proof. induction a as [|c a IH]; cbn; [reflexivity|rewrite IH; lia]. Qed.

Lemma count_nl_splice (s : text) (n : nat) (t : text) :
  count_nl (splice s n t) = count_nl s + count_nl t.
Proof.
  unfold splice. rewrite !count_nl_app.
  rewrite <- (firstn_skipn n s) at 3. rewrite count_nl_app. lia.
Qed.

Lemma split_lines_length (s : text) :
  List.length (split_lines s) = S (count_nl s).
Proof.
  induction s as [|c s IH]; cbn; [reflexivity|].
  destruct (Ascii.eqb c NL); cbn; [now rewrite IH|].
  destruct (split_lines s); cbn in *; [discriminate|assumption].
Qed.

(** ** add_file_to_xcode.py: the four splices *)

Lemma step_group_splice (fid name content out : text) :
  AddFile.step_group fid name content = Some out ->
  exists n, out = splice content n (AddFile.children_entry fid name).
Proof.
  unfold AddFile.step_group.
  destruct (re_search AddFile.group_pattern content) as [m|] eqn:E; [|discriminate].
  intros [= <-]. exists (end_of m 2). unfold splice, group.
  rewrite <- app_assoc, app_assoc.
  rewrite firstn_slice; [reflexivity|].
  exact (search_from_spans _ _ _ _ E 2).
Qed.

Lemma patched_splices (fid bid name content out : text) :
  AddFile.patched fid bid name content = Some out ->
  exists p1 p2 p3 p4,
    out = splice (splice (splice (splice content
            p1 (AddFile.file_ref_entry fid name))
            p2 (AddFile.build_file_entry bid fid name))
            p3 (AddFile.children_entry fid name))
            p4 (AddFile.sources_entry bid name).
Proof.
  unfold AddFile.patched.
  destruct (AddFile.step_file_ref fid name content) as [c1|] eqn:E1; [|discriminate].
  destruct (AddFile.step_build_file bid fid name c1) as [c2|] eqn:E2; [|discriminate].
  destruct (AddFile.step_group fid name c2) as [c3|] eqn:E3; [|discriminate].
  intros E4.
  unfold AddFile.step_file_ref in E1.
  destruct (re_search AddFile.file_ref_pattern content) as [m1|]; [|discriminate].
  injection E1 as <-.
  unfold AddFile.step_build_file in E2.
  destruct (re_search AddFile.build_file_pattern _) as [m2|]; [|discriminate].
  injection E2 as <-.
  apply step_group_splice in E3. destruct E3 as (p3 & ->).
  unfold AddFile.step_sources in E4.
  destruct (re_search AddFile.sources_pattern _) as [m4|]; [|discriminate].
  injection E4 as <-.
  now exists (end_of m1 2), (end_of m2 2), p3, (end_of m4 2).
Qed.

(** An identifier is made of hexadecimal digits: no line break in it. *)
Lemma hex_upper_not_nl (d : N) : (d < 16)%N -> Ascii.eqb (hex_upper d) NL = false.
Proof.
  intros H. rewrite <- (N2Nat.id d).
  assert (Hn : N.to_nat d < 16) by lia.
  destruct (N.to_nat d) as [|n]; [reflexivity|].
  do 15 (destruct n as [|n]; [reflexivity|]). lia.
Qed.

Lemma count_nl_id (i : N) : count_nl (id_of_uuid i) = 0.
Proof.
  unfold id_of_uuid. induction (seq 0 24) as [|k ks IH]; [reflexivity|].
  cbn [map count_nl]. rewrite IH. unfold hex_digit_at.
  rewrite hex_upper_not_nl; [reflexivity|].
  change 15%N with (N.ones 4). rewrite N.land_ones.
  apply N.mod_lt. discriminate.
Qed.







(** ** The write-back *)

Lemma patched_longer (fid bid name content out : text) :
  AddFile.patched fid bid name content = Some out ->
  List.length content < List.length out.
Proof.
  intros H. destruct (patched_splices _ _ _ _ _ H) as (p1 & p2 & p3 & p4 & ->).
  rewrite !splice_length. unfold AddFile.sources_entry. cbn. lia.
Qed.

Lemma found_is_not_success (ids : list text) (p : path) :
  FixResources.found_message ids <> FixResources.success_message p.
Proof. unfold FixResources.found_message, FixResources.success_message. discriminate. Qed.

Lemma report_is_not_success (ids : list text) (content : text) (m : rmatch) (p : path) :
  FixResources.remove_ids_report ids content m <> FixResources.success_message p.
Proof.
  unfold FixResources.remove_ids_report, FixResources.success_message. discriminate.
Qed.

Lemma fix_reports_no_success (content : text) (p : path) :
  ~ In (FixResources.success_message p)
       (FixResources.fix_reports content ++ [FixResources.no_changes_message]).
Proof.
  unfold FixResources.fix_reports. intros H.
  apply in_app_or in H. destruct H as [[H|H]|[H|[]]].
  - exact (found_is_not_success _ _ H).
  - apply in_map_iff in H. destruct H as (m & H & _).
    exact (report_is_not_success _ _ _ _ H).
  - unfold FixResources.no_changes_message, FixResources.success_message in H.
    discriminate.
Qed.

(** C6, as the code has it.  With a manifest that can be read and written,
    the fix pass compares: it overwrites the manifest exactly when the blob
    it computed differs from the one it read, and otherwise prints that no
    changes were made, prints no success line and returns [False].  The
    add-file script does not compare: it overwrites the manifest exactly when
    each of its four patterns matched at its step, and the blob it writes
    then does differ from the one it read; otherwise it writes nothing,
    returns [False], and the last line it prints is that of the first step
    whose pattern had no match. *)
Theorem write_back_when_changed (w : world) (p : path) (name content : text) :
  files w p = Some content ->
  unreadable w p = false ->
  unwritable w p = false ->
  (* fix_xcode_resources.py *)
  (let r := FixResources.fix_xcode_project p w in
   let fixed := FixResources.fixed_content content in
   (fixed <> content ->
      fst r = Ret true /\ written (snd r) = written w ++ [(p, fixed)] /\
      files (snd r) p = Some fixed) /\
   (fixed = content ->
      fst r = Ret false /\ written (snd r) = written w /\ files (snd r) = files w /\
      (exists printed, stdout (snd r) = stdout w ++ printed /\
         In FixResources.no_changes_message printed /\
         ~ In (FixResources.success_message p) printed))) /\
  (* add_file_to_xcode.py *)
  (let r := AddFile.add_file_to_xcode_project p name w in
   let out := AddFile.patched (AddFile.first_id w) (AddFile.second_id w) name content in
   (forall blob, out = Some blob ->
      blob <> content /\
      fst r = Ret true /\ written (snd r) = written w ++ [(p, blob)] /\
      files (snd r) p = Some blob) /\
   (out = None ->
      fst r = Ret false /\ written (snd r) = written w /\ files (snd r) = files w /\
      (exists line,
         stop_line (AddFile.first_id w) (AddFile.second_id w) name content
           = Some line /\
         last (stdout (snd r)) [] = line))).
Proof.
  intros Hfile Hread Hwrite. split; cbv zeta; split.
  - intros Hne.
    destruct (fix_run_changed w p content Hfile Hread Hne) as (w' & Hr & Hf & Hw & _).
    rewrite (proj2 (write_error_unwritable w p) Hwrite) in Hr.
    rewrite Hr. cbn [fst snd].
    rewrite Hw, Hf, (after_write_through _ _ _ Hwrite).
    split; [reflexivity|split; [reflexivity|apply files_store]].
  - intros Heq.
    destruct (fix_run_unchanged w p content Hfile Hread Heq) as (w' & Hr & Hf & Hw & Hs).
    rewrite Hr. cbn [fst snd]. repeat split; try assumption.
    eexists. split; [exact Hs|]. split.
    + apply in_or_app. right. now left.
    + apply fix_reports_no_success.
  - intros blob Hp.
    destruct (add_file_run_patched w p name content Hfile Hread blob Hp)
      as (w' & Hr & Hf & Hw).
    rewrite Hwrite in Hr. rewrite Hr. cbn [fst snd negb].
    rewrite Hw, Hf, (after_write_through _ _ _ Hwrite).
    split; [intros ->; apply patched_longer in Hp; lia|].
    split; [reflexivity|split; [reflexivity|apply files_store]].
  - intros Hp.
    destruct (add_file_run_stopped w p name content Hfile Hread Hp)
      as (w' & line & Hr & Hf & Hw & Hl & Hlast).
    rewrite Hr. cbn [fst snd].
    split; [reflexivity|]. split; [exact Hw|]. split; [exact Hf|].
    exists line. split; assumption.
Qed.

Lemma write_back_when_changed_witness :
  (* a manifest the fix pass changes, and without a file-reference section *)
  (let p := FixResources.pbxproj_path in
   let w := world_with p manifest_with_assets in
   let fixed := FixResources.fixed_content manifest_with_assets in
   let r := FixResources.fix_xcode_project p w in
   let r' := AddFile.add_file_to_xcode_project p "Foo.swift" w in
   fixed <> manifest_with_assets /\
   fst r = Ret true /\ written (snd r) = [(p, fixed)] /\ files (snd r) p = Some fixed /\
   fst r' = Ret false /\ written (snd r') = [] /\
   last (stdout (snd r')) []
     = ("❌ Could not find PBXFileReference section" : text)) /\
  (* the empty manifest: the fix pass changes nothing, the four patterns match *)
  (let p := AddFile.project_file in
   let r := FixResources.fix_xcode_project p world_empty in
   let r' := AddFile.add_file_to_xcode_project p "Foo.swift" world_empty in
   fst r = Ret false /\ written (snd r) = [] /\
   fst r' = Ret true /\ written (snd r') = [(p, foo_manifest)] /\
   files (snd r') p = Some foo_manifest).
Proof.
  split; cbv zeta.
  - pose proof (write_back_when_changed
                  (world_with FixResources.pbxproj_path manifest_with_assets)
                  FixResources.pbxproj_path "Foo.swift" manifest_with_assets
                  eq_refl eq_refl eq_refl) as H.
    cbv zeta in H. destruct H as [[Hc _] [_ Hm]].
    assert (Hne : FixResources.fixed_content manifest_with_assets
                  <> manifest_with_assets) by (vm_compute; discriminate).
    destruct (Hc Hne) as (H1 & H2 & H3).
    destruct Hm as (H4 & H5 & _ & line & Hl & Hlast); [vm_compute; reflexivity|].
    vm_compute in Hl. injection Hl as E. subst line.
    split; [exact Hne|]. split; [exact H1|]. split; [exact H2|]. split; [exact H3|].
    split; [exact H4|]. split; [exact H5|]. exact Hlast.
  - pose proof (write_back_when_changed world_empty AddFile.project_file "Foo.swift"
                  empty_manifest eq_refl eq_refl eq_refl) as H.
    cbv zeta in H. destruct H as [[_ Hu] [Hp _]].
    destruct Hu as (H1 & H2 & _); [vm_compute; reflexivity|].
    destruct (Hp foo_manifest) as (_ & H3 & H4 & H5); [vm_compute; reflexivity|].
    split; [exact H1|]. split; [exact H2|]. split; [exact H3|].
    split; [exact H4|]. exact H5.
Defined.

(** C6, as stated, fails for the add-file script.  On a manifest without a
    build-file section the first splice changes the blob and the run then
    stops: the blob differs from what was read, and nothing is written.  On
    an empty file the blob is unchanged, and what the run prints is the
    missing section. *)
Lemma add_file_changed_blob_not_written :
  let p := AddFile.project_file in
  (let w := world_with p manifest_without_build_files in
   let r := AddFile.add_file_to_xcode_project p "Foo.swift" w in
   (exists blob,
      AddFile.step_file_ref (AddFile.first_id w) "Foo.swift"
        manifest_without_build_files = Some blob /\
      blob <> manifest_without_build_files) /\
   fst r = Ret false /\ written (snd r) = []) /\
  (let w := world_with p [] in
   let r := AddFile.add_file_to_xcode_project p "Foo.swift" w in
   fst r = Ret false /\
   last (stdout (snd r)) [] = ("❌ Could not find PBXFileReference section" : text)).
Proof.
  cbv zeta. split; split.
  - eexists. split; [vm_compute; reflexivity|]. discriminate.
  - split; vm_compute; reflexivity.
  - vm_compute. reflexivity.
  - vm_compute. reflexivity.
Qed.

(** ** First occurrences *)

Lemma starts_with_app (x t : text) : starts_with x (x ++ t) = true.
Proof. induction x as [|c x IH]; cbn; [reflexivity|]. now rewrite Ascii.eqb_refl. Qed.

Lemma starts_with_true (x s : text) :
  starts_with x s = true -> s = x ++ skipn (List.length x) s.
Proof.
  revert s. induction x as [|c x IH]; intros s H; [reflexivity|].
  destruct s as [|d s]; [discriminate|]. cbn in H.
  apply andb_true_iff in H. destruct H as [H1 H2].
  apply Ascii.eqb_eq in H1. subst d. cbn. f_equal. now apply IH.
Qed.

Lemma skipn_app_length (x t : text) : skipn (List.length x) (x ++ t) = t.
Proof. induction x; cbn; auto. Qed.

Lemma str_find_none_skipn (x s : text) (n : nat) :
  str_find x s = None -> str_find x (skipn n s) = None.
Proof.
  revert s. induction n as [|n IH]; intros s H; [exact H|].
  destruct s as [|c s]; [exact H|]. cbn [skipn]. apply IH.
  cbn in H. destruct (starts_with x (c :: s)); [discriminate|].
  destruct (str_find x s); [discriminate|reflexivity].
Qed.

(** A later start cannot find an earlier occurrence. *)
Lemma str_find_skipn_ge (x s : text) (n j j' : nat) :
  str_find x s = Some j -> str_find x (skipn n s) = Some j' -> j <= n + j'.
Proof.
  revert s j. induction n as [|n IH]; intros s j H H'.
  - cbn [skipn] in H'. rewrite H in H'. injection H' as <-. lia.
  - destruct s as [|c s].
    + cbn [skipn] in H'. rewrite H in H'. injection H' as <-. lia.
    + cbn [skipn] in H'. cbn in H.
      destruct (starts_with x (c :: s)); [injection H as <-; lia|].
      destruct (str_find x s) as [i|] eqn:E; [|discriminate].
      injection H as <-. specialize (IH s i E H'). lia.
Qed.

Lemma str_find_split (x s : text) (j : nat) :
  str_find x s = Some j ->
  s = firstn j s ++ x ++ skipn (j + List.length x) s /\ j <= List.length s.
Proof.
  revert j. induction s as [|c s IH]; intros j H; cbn in H.
  - destruct (starts_with x []) eqn:E; [|discriminate]. injection H as <-.
    cbn. split; [|lia]. now apply starts_with_true.
  - destruct (starts_with x (c :: s)) eqn:E.
    + injection H as <-. cbn [firstn app Nat.add]. split; [|lia].
      now apply starts_with_true.
    + destruct (str_find x s) as [i|] eqn:F; [|discriminate].
      injection H as <-. destruct (IH i eq_refl) as [IH1 IH2].
      cbn. split; [|lia]. f_equal. exact IH1.
Qed.


Lemma match_lazy_any (r : pattern) (s : text) (pos : nat) (cs : caps) :
  match_here (Star false any_char :: r) s pos cs =
  first_success (fun s pos => match_here r s pos cs) s pos.
Proof.
  revert pos. induction s as [|c s IH]; intros pos; rewrite match_star_lazy.
  - reflexivity.
  - cbn [first_success any_char]. now rewrite IH.
Qed.

Lemma search_from_first_success (r : pattern) (s : text) (pos : nat) :
  search_from r s pos = first_success (match_at r) s pos.
Proof. revert pos. induction s as [|c s IH]; intros pos; cbn; now rewrite ?IH. Qed.

Section LazyThenLiteral.

Context {R : Type}.
Variables (K K2 : text -> nat -> caps -> option R) (x : text) (g : caps -> nat -> caps).

Hypothesis K_spec : forall s pos cs,
  K s pos cs =
  if starts_with x s
  then K2 (skipn (List.length x) s) (pos + List.length x) (g cs pos)
  else None.
Hypothesis K2_fails : fails_on_suffixes K2.

(** A lazy [.*?] before the literal [x] stops at the first occurrence of
    [x]: if what follows fails there, it fails after every later one. *)
Lemma lazy_stops_at_first (s : text) (pos : nat) (cs : caps) :
  first_success (fun s pos => K s pos cs) s pos =
  match str_find x s with
  | None => None
  | Some j => K2 (skipn (j + List.length x) s) (pos + j + List.length x) (g cs (pos + j))
  end.
Proof.
  revert pos. induction s as [|c s IH]; intros pos.
  - cbn [first_success str_find]. rewrite K_spec.
    destruct (starts_with x []); [|reflexivity].
    cbn [Nat.add]. rewrite Nat.add_0_r.
    now destruct (K2 _ _ _).
  - cbn [first_success str_find]. rewrite K_spec.
    destruct (starts_with x (c :: s)) eqn:E.
    + cbn [Nat.add]. rewrite Nat.add_0_r.
      destruct (K2 _ _ _) eqn:E2; [reflexivity|].
      rewrite IH. destruct (str_find x s) as [j|]; [|reflexivity].
      replace (skipn (j + List.length x) s)
        with (skipn (S j) (skipn (List.length x) (c :: s))).
      * exact (K2_fails _ _ _ E2 _ _ _).
      * rewrite skipn_skipn. replace (S j + List.length x) with (S (j + List.length x))
          by lia. reflexivity.
    + rewrite IH. destruct (str_find x s) as [j|]; [|reflexivity].
      cbn [option_map]. cbn [Nat.add skipn].
      f_equal; [lia|f_equal; lia].
Qed.

Lemma lazy_fails_on_suffixes :
  fails_on_suffixes (fun s pos cs => first_success (fun s pos => K s pos cs) s pos).
Proof.
  intros s pos cs H n pos' cs'. rewrite lazy_stops_at_first in *.
  destruct (str_find x (skipn n s)) as [j'|] eqn:E'; [|reflexivity].
  destruct (str_find x s) as [j|] eqn:E.
  - pose proof (str_find_skipn_ge _ _ _ _ _ E E') as Hge.
    rewrite skipn_skipn.
    replace (j' + List.length x + n) with ((n + j' - j) + (j + List.length x)) by lia.
    rewrite <- skipn_skipn. exact (K2_fails _ _ _ H _ _ _).
  - now rewrite (str_find_none_skipn _ _ n E) in E'.
Qed.

End LazyThenLiteral.

(** ** The resources section pattern *)

Section ResourcesSection.

Let tailE : pattern := [Lit END_RESOURCES; Close].
Let tailC : pattern :=
  Close :: Open :: Lit LIST_CLOSE :: Close :: Open :: Star false any_char :: tailE.
Let tailF : pattern :=
  Close :: Open :: Lit FILES_OPEN :: Close :: Open :: Star false any_char :: tailC.

Let L3 (s : text) (pos : nat) (cs : caps) : option (nat * caps) :=
  match str_find END_RESOURCES s with
  | None => None
  | Some l =>
      let e := pos + l + List.length END_RESOURCES in
      Some (e, mkCaps (cur cs) ((cur cs, e) :: closed cs))
  end.

Let gC (cs : caps) (pos : nat) : caps :=
  mkCaps (pos + List.length LIST_CLOSE)
         ((pos, pos + List.length LIST_CLOSE) :: (cur cs, pos) :: closed cs).

Let L2 (s : text) (pos : nat) (cs : caps) : option (nat * caps) :=
  match str_find LIST_CLOSE s with
  | None => None
  | Some k => L3 (skipn (k + List.length LIST_CLOSE) s)
                 (pos + k + List.length LIST_CLOSE) (gC cs (pos + k))
  end.

Let gF (cs : caps) (pos : nat) : caps :=
  mkCaps (pos + List.length FILES_OPEN)
         ((pos, pos + List.length FILES_OPEN) :: (cur cs, pos) :: closed cs).

Let L1 (s : text) (pos : nat) (cs : caps) : option (nat * caps) :=
  match str_find FILES_OPEN s with
  | None => None
  | Some j => L2 (skipn (j + List.length FILES_OPEN) s)
                 (pos + j + List.length FILES_OPEN) (gF cs (pos + j))
  end.

Lemma lazy_E (s : text) (pos : nat) (cs : caps) :
  match_here (Star false any_char :: tailE) s pos cs = L3 s pos cs.
Proof.
  rewrite match_lazy_any.
  rewrite (lazy_stops_at_first (match_here tailE)
             (fun _ p c => Some (p, mkCaps (cur c) ((cur c, p) :: closed c)))
             END_RESOURCES (fun cs _ => cs)).
  - reflexivity.
  - intros s0 pos0 cs0. reflexivity.
  - intros s0 pos0 cs0 H. discriminate.
Qed.

Lemma L3_fails : fails_on_suffixes L3.
Proof.
  intros s pos cs H n pos' cs'. unfold L3 in *.
  destruct (str_find END_RESOURCES s) eqn:E; [discriminate|].
  now rewrite (str_find_none_skipn _ _ n E).
Qed.

Lemma tailC_spec (s : text) (pos : nat) (cs : caps) :
  match_here tailC s pos cs =
  if starts_with LIST_CLOSE s
  then L3 (skipn (List.length LIST_CLOSE) s) (pos + List.length LIST_CLOSE) (gC cs pos)
  else None.
Proof.
  unfold tailC. cbn [match_here cur closed].
  destruct (starts_with LIST_CLOSE s); [|reflexivity].
  apply lazy_E.
Qed.

Lemma lazy_C (s : text) (pos : nat) (cs : caps) :
  match_here (Star false any_char :: tailC) s pos cs = L2 s pos cs.
Proof.
  rewrite match_lazy_any.
  exact (lazy_stops_at_first (match_here tailC) L3 LIST_CLOSE gC tailC_spec L3_fails
           s pos cs).
Qed.

Lemma L2_fails : fails_on_suffixes L2.
Proof.
  intros s pos cs H n pos' cs'.
  pose proof (lazy_fails_on_suffixes (match_here tailC) L3 LIST_CLOSE gC
                tailC_spec L3_fails) as Hf.
  specialize (Hf s pos cs). cbv beta in Hf.
  rewrite <- !match_lazy_any, !lazy_C in Hf.
  specialize (Hf H n pos' cs').
  now rewrite <- match_lazy_any, lazy_C in Hf.
Qed.

Lemma tailF_spec (s : text) (pos : nat) (cs : caps) :
  match_here tailF s pos cs =
  if starts_with FILES_OPEN s
  then L2 (skipn (List.length FILES_OPEN) s) (pos + List.length FILES_OPEN) (gF cs pos)
  else None.
Proof.
  unfold tailF. cbn [match_here cur closed].
  destruct (starts_with FILES_OPEN s); [|reflexivity].
  apply lazy_C.
Qed.

Lemma lazy_F (s : text) (pos : nat) (cs : caps) :
  match_here (Star false any_char :: tailF) s pos cs = L1 s pos cs.
Proof.
  rewrite match_lazy_any.
  exact (lazy_stops_at_first (match_here tailF) L2 FILES_OPEN gF tailF_spec L2_fails
           s pos cs).
Qed.

Lemma L1_fails : fails_on_suffixes L1.
Proof.
  intros s pos cs H n pos' cs'.
  pose proof (lazy_fails_on_suffixes (match_here tailF) L2 FILES_OPEN gF
                tailF_spec L2_fails) as Hf.
  specialize (Hf s pos cs). cbv beta in Hf.
  rewrite <- !match_lazy_any, !lazy_F in Hf.
  specialize (Hf H n pos' cs').
  now rewrite <- match_lazy_any, lazy_F in Hf.
Qed.

Let after_begin (s : text) (pos : nat) (_ : caps) : option rmatch :=
  match L1 s pos (mkCaps (pos - List.length BEGIN_RESOURCES) []) with
  | Some (e, cs) =>
      Some (mkMatch (pos - List.length BEGIN_RESOURCES) e (rev (closed cs)))
  | None => None
  end.

Lemma match_at_section (s : text) (pos : nat) :
  match_at FixResources.resources_section_pattern s pos =
  if starts_with BEGIN_RESOURCES s
  then after_begin (skipn (List.length BEGIN_RESOURCES) s)
                   (pos + List.length BEGIN_RESOURCES) no_caps
  else None.
Proof.
  unfold match_at.
  change FixResources.resources_section_pattern
    with (Open :: Lit BEGIN_RESOURCES :: Star false any_char :: tailF).
  cbn [match_here cur closed no_caps].
  destruct (starts_with BEGIN_RESOURCES s); [|reflexivity].
  rewrite lazy_F. unfold after_begin.
  replace (pos + List.length BEGIN_RESOURCES - List.length BEGIN_RESOURCES)
    with pos by lia.
  reflexivity.
Qed.

Lemma after_begin_fails : fails_on_suffixes after_begin.
Proof.
  intros s pos cs H n pos' cs'. unfold after_begin in *.
  destruct (L1 s pos _) as [[e c]|] eqn:E; [discriminate|].
  now rewrite (L1_fails _ _ _ E n pos' _).
Qed.

(** [re.search] for the resources section is the chain of first
    occurrences. *)
Lemma search_section (s : text) (pos : nat) :
  search_from FixResources.resources_section_pattern s pos = find_section s pos.
Proof.
  pose proof (lazy_stops_at_first
                (fun s pos (_ : caps) =>
                   match_at FixResources.resources_section_pattern s pos)
                after_begin BEGIN_RESOURCES (fun cs _ => cs)
                (fun s pos _ => match_at_section s pos) after_begin_fails
                s pos no_caps) as H.
  rewrite search_from_first_success. etransitivity; [exact H|]. clear H.
  unfold find_section.
  destruct (str_find BEGIN_RESOURCES s) as [i|]; [|reflexivity].
  unfold after_begin, L1.
  destruct (str_find FILES_OPEN _) as [j|]; [|reflexivity].
  unfold L2.
  destruct (str_find LIST_CLOSE _) as [k|]; [|reflexivity].
  unfold L3.
  destruct (str_find END_RESOURCES _) as [l|]; [|reflexivity].
  cbv zeta. unfold gC, gF. cbn [cur closed rev app].
  replace (pos + i + List.length BEGIN_RESOURCES - List.length BEGIN_RESOURCES)
    with (pos + i) by lia.
  reflexivity.
Qed.

End ResourcesSection.

(** ** Occurrences depend on their window only *)

Lemma starts_with_fits (x s t : text) :
  List.length x <= List.length s -> starts_with x (s ++ t) = starts_with x s.
Proof.
  revert s. induction x as [|c x IH]; intros s H; [reflexivity|].
  destruct s as [|d s]; [cbn in H; lia|].
  cbn. rewrite IH; [reflexivity|cbn in H; lia].
Qed.

Lemma str_find_window (x u t t' : text) :
  str_find x (u ++ x ++ t) = Some (List.length u) ->
  str_find x (u ++ x ++ t') = Some (List.length u).
Proof.
  induction u as [|c u IH]; intros H.
  - cbn [app List.length]. cbn [app] in H.
    destruct (x ++ t') eqn:E; cbn [str_find].
    + destruct x; [reflexivity|discriminate].
    + rewrite <- E, starts_with_app. reflexivity.
  - cbn [app List.length str_find] in *.
    assert (Hfit : forall r, starts_with x (c :: u ++ x ++ r)
                             = starts_with x (c :: u ++ x)).
    { intros r. change (c :: u ++ x ++ r) with ((c :: u) ++ x ++ r).
      rewrite app_assoc. apply starts_with_fits.
      cbn [app List.length]. rewrite length_app. lia. }
    rewrite Hfit in *.
    destruct (starts_with x (c :: u ++ x)); [discriminate|].
    destruct (str_find x (u ++ x ++ t)) as [i|] eqn:E; [|discriminate].
    injection H as ->. now rewrite IH.
Qed.

(** ** Lines *)

Lemma split_nil_or_cons (s : text) : split_lines s <> [].
Proof.
  destruct s as [|c s]; [discriminate|]. cbn.
  destruct (Ascii.eqb c NL); [discriminate|].
  destruct (split_lines s); discriminate.
Qed.

Lemma join_split (s : text) : join_lines (split_lines s) = s.
Proof.
  induction s as [|c s IH]; [reflexivity|]. cbn [split_lines].
  pose proof (split_nil_or_cons s) as Hne.
  destruct (split_lines s) as [|l ls] eqn:Es; [contradiction|].
  destruct (Ascii.eqb c NL) eqn:E.
  - apply Ascii.eqb_eq in E. subst c.
    change (join_lines ([] :: l :: ls)) with (NL :: join_lines (l :: ls)).
    now rewrite IH.
  - destruct ls as [|l2 ls]; cbn in *; now rewrite <- IH.
Qed.

Lemma split_lines_no_nl (s : text) :
  Forall (fun l => count_nl l = 0) (split_lines s).
Proof.
  induction s as [|c s IH]; [repeat constructor|]. cbn [split_lines].
  destruct (Ascii.eqb c NL) eqn:E; [constructor; [reflexivity|exact IH]|].
  destruct (split_lines s) as [|l ls]; [repeat constructor; cbn; now rewrite E|].
  inversion IH; subst. constructor; [cbn; now rewrite E|assumption].
Qed.

Lemma split_no_nl (l : text) : count_nl l = 0 -> split_lines l = [l].
Proof.
  induction l as [|c l IH]; intros H; [reflexivity|]. cbn in H |- *.
  destruct (Ascii.eqb c NL); [discriminate|]. now rewrite IH.
Qed.

Lemma split_app_nl (l r : text) :
  count_nl l = 0 -> split_lines (l ++ NL :: r) = l :: split_lines r.
Proof.
  induction l as [|c l IH]; intros H.
  - cbn. reflexivity.
  - cbn in H |- *. destruct (Ascii.eqb c NL); [discriminate|].
    now rewrite IH.
Qed.

(** Splitting what was joined gives the lines back. *)
Lemma split_join (ls : list text) :
  ls <> [] -> Forall (fun l => count_nl l = 0) ls ->
  split_lines (join_lines ls) = ls.
Proof.
  induction ls as [|l ls IH]; intros Hne Hall; [contradiction|].
  inversion Hall as [|? ? Hl Hls]; subst.
  destruct ls as [|l' ls'].
  - cbn. now apply split_no_nl.
  - cbn [join_lines]. rewrite split_app_nl by assumption.
    f_equal. apply IH; [discriminate|assumption].
Qed.

(** ** Occurrences of the closing parenthesis *)

Lemma str_find_window_end (x u t : text) :
  str_find x (u ++ x) = Some (List.length u) ->
  str_find x (u ++ x ++ t) = Some (List.length u).
Proof.
  intros H. apply (str_find_window x u [] t). now rewrite app_nil_r.
Qed.

Lemma str_find_window_only (x u t : text) :
  str_find x (u ++ x ++ t) = Some (List.length u) ->
  str_find x (u ++ x) = Some (List.length u).
Proof.
  intros H. apply (str_find_window x u t []) in H. now rewrite app_nil_r in H.
Qed.

Lemma skipn_app2 (u x t : text) :
  skipn (List.length u + List.length x) (u ++ x ++ t) = t.
Proof.
  rewrite app_assoc, <- length_app. apply skipn_app_length.
Qed.

Lemma starts_with_close (c : ascii) (s : text) :
  starts_with LIST_CLOSE (c :: s) =
  Ascii.eqb ")" c && match s with
                     | [] => false
                     | d :: _ => Ascii.eqb ";" d
                     end.
Proof. cbn. destruct s; [reflexivity|]. now rewrite andb_true_r. Qed.

Lemma close_is_first (g t : text) :
  contains LIST_CLOSE g = false ->
  str_find LIST_CLOSE (g ++ LIST_CLOSE ++ t) = Some (List.length g).
Proof.
  induction g as [|c g IH]; intros H; [reflexivity|].
  cbn [contains] in H. apply orb_false_iff in H. destruct H as [H1 H2].
  cbn [app str_find List.length].
  rewrite starts_with_close in *.
  replace (Ascii.eqb ")" c && _) with false.
  - now rewrite IH.
  - destruct g as [|d g]; [|symmetry; exact H1].
    cbn. now rewrite andb_false_r.
Qed.

Lemma close_first_inv (g t : text) :
  str_find LIST_CLOSE (g ++ LIST_CLOSE ++ t) = Some (List.length g) ->
  contains LIST_CLOSE g = false.
Proof.
  induction g as [|c g IH]; intros H; [reflexivity|].
  cbn [app str_find List.length] in H. cbn [contains].
  rewrite starts_with_close in *.
  destruct (Ascii.eqb ")" c && _) eqn:E; [discriminate|].
  destruct (str_find LIST_CLOSE (g ++ LIST_CLOSE ++ t)) as [i|] eqn:F; [|discriminate].
  injection H as ->. rewrite (IH eq_refl), orb_false_r.
  destruct g as [|d g]; [cbn; now rewrite andb_false_r|exact E].
Qed.

Lemma contains_close_nl (l r : text) :
  contains LIST_CLOSE (l ++ NL :: r) = contains LIST_CLOSE l || contains LIST_CLOSE r.
Proof.
  induction l as [|c l IH].
  - reflexivity.
  - cbn [app contains]. rewrite IH, !starts_with_close.
    destruct l as [|d l]; cbn [app].
    + destruct (Ascii.eqb ")" c); reflexivity.
    + now rewrite orb_assoc.
Qed.

Lemma contains_close_join (ls : list text) :
  contains LIST_CLOSE (join_lines ls) = existsb (contains LIST_CLOSE) ls.
Proof.
  induction ls as [|l ls IH]; [reflexivity|].
  destruct ls as [|l' ls].
  - cbn. now rewrite orb_false_r.
  - change (join_lines (l :: l' :: ls)) with (l ++ NL :: join_lines (l' :: ls)).
    rewrite contains_close_nl, IH. reflexivity.
Qed.

Lemma existsb_filter {A} (P keep : A -> bool) (l : list A) :
  existsb P l = false -> existsb P (filter keep l) = false.
Proof.
  induction l as [|x l IH]; intros H; [reflexivity|].
  cbn in H |- *. apply orb_false_iff in H. destruct H as [H1 H2].
  destruct (keep x); cbn; [rewrite H1|]; auto.
Qed.

(** Dropping lines of a files list brings no closing parenthesis in. *)
Lemma no_close_after_filter (keep : text -> bool) (g : text) :
  contains LIST_CLOSE g = false ->
  contains LIST_CLOSE (join_lines (filter keep (split_lines g))) = false.
Proof.
  intros H. rewrite contains_close_join. apply existsb_filter.
  now rewrite <- contains_close_join, join_split.
Qed.

(** ** Where [re.search] finds the resources section *)

Lemma str_find_parts (x s : text) (i : nat) :
  str_find x s = Some i ->
  exists u t, s = u ++ x ++ t /\ List.length u = i /\
              str_find x (u ++ x) = Some (List.length u) /\
              skipn (i + List.length x) s = t.
Proof.
  intros H. destruct (str_find_split _ _ _ H) as [Hs Hi].
  exists (firstn i s), (skipn (i + List.length x) s).
  assert (Hl : List.length (firstn i s) = i) by now apply firstn_length_le.
  repeat split; try assumption.
  apply (str_find_window_only x _ (skipn (i + List.length x) s)).
  now rewrite <- Hs, Hl.
Qed.

Lemma find_section_split (s : text) (pos : nat) (m : rmatch) :
  find_section s pos = Some m ->
  exists u a g b rest,
    s = u ++ BEGIN_RESOURCES ++ a ++ FILES_OPEN ++ g ++ LIST_CLOSE ++ b ++
        END_RESOURCES ++ rest /\
    section_found u a g b /\
    m = section_match pos u a g b.
Proof.
  unfold find_section. intros H. cbv zeta in H.
  destruct (str_find BEGIN_RESOURCES s) as [i|] eqn:E1; [|discriminate].
  destruct (str_find_parts _ _ _ E1) as (u & t1 & Hs & Hu & Fu & Ht).
  rewrite Ht in H. subst s. clear Ht.
  destruct (str_find FILES_OPEN t1) as [j|] eqn:E2; [|discriminate].
  destruct (str_find_parts _ _ _ E2) as (a & t2 & Hs & Ha & Fa & Ht).
  rewrite Ht in H. subst t1. clear Ht.
  destruct (str_find LIST_CLOSE t2) as [k|] eqn:E3; [|discriminate].
  destruct (str_find_parts _ _ _ E3) as (g & t3 & Hs & Hg & Fg & Ht).
  rewrite Ht in H. subst t2. clear Ht.
  destruct (str_find END_RESOURCES t3) as [l|] eqn:E4; [|discriminate].
  destruct (str_find_parts _ _ _ E4) as (b & t4 & Hs & Hb & Fb & _).
  subst t3.
  exists u, a, g, b, t4. split; [reflexivity|]. split.
  - repeat split; try assumption.
    apply (close_first_inv g []). now rewrite app_nil_r.
  - injection H as <-. unfold section_match. now subst i j k l.
Qed.

Lemma find_section_intro (pos : nat) (u a g b rest : text) :
  section_found u a g b ->
  find_section (u ++ BEGIN_RESOURCES ++ a ++ FILES_OPEN ++ g ++ LIST_CLOSE ++ b ++
                END_RESOURCES ++ rest) pos
  = Some (section_match pos u a g b).
Proof.
  intros (Fu & Fa & Fg & Fb). unfold find_section.
  rewrite (str_find_window_end _ _ _ Fu), skipn_app2.
  rewrite (str_find_window_end _ _ _ Fa), skipn_app2.
  rewrite (close_is_first _ _ Fg), skipn_app2.
  rewrite (str_find_window_end _ _ _ Fb).
  reflexivity.
Qed.

(** ** [re.sub], match by match *)

Lemma first_success_offset {R : Type} (K : text -> nat -> option R) (s : text)
  (pos : nat) (m : R) :
  first_success K s pos = Some m ->
  exists i, i <= List.length s /\
            K (skipn i s) (pos + i) = Some m /\
            forall k, k < i -> K (skipn k s) (pos + k) = None.
Proof.
  revert pos. induction s as [|c s IH]; intros pos H; cbn [first_success] in H.
  - destruct (K [] pos) eqn:E; [|discriminate]. injection H as ->.
    exists 0. rewrite Nat.add_0_r. repeat split; [lia|exact E|lia].
  - destruct (K (c :: s) pos) eqn:E.
    + injection H as ->. exists 0. rewrite Nat.add_0_r.
      repeat split; [lia|exact E|lia].
    + destruct (IH _ H) as (i & Hi & Hm & Hnone). exists (S i).
      cbn [skipn List.length]. replace (pos + S i) with (S pos + i) by lia.
      repeat split; [lia|exact Hm|].
      intros [|k] Hk; [now rewrite Nat.add_0_r|].
      cbn [skipn]. replace (pos + S k) with (S pos + k) by lia.
      apply Hnone. lia.
Qed.

Lemma sub_from_skip (r : pattern) (f : rmatch -> text) (k : nat) :
  forall s pos, k <= List.length s ->
    sub_from r f s pos k = sub_from r f (skipn k s) (pos + k) 0.
Proof.
  induction k as [|k IH]; intros s pos H.
  - now rewrite Nat.add_0_r.
  - destruct s as [|c s]; [cbn in H; lia|].
    cbn [sub_from skipn]. rewrite IH; [|cbn in H; lia].
    now replace (S pos + k) with (pos + S k) by lia.
Qed.

Lemma sub_from_unmatched (r : pattern) (f : rmatch -> text) (i : nat) :
  forall s pos, i <= List.length s ->
    (forall k, k < i -> match_at r (skipn k s) (pos + k) = None) ->
    sub_from r f s pos 0 = firstn i s ++ sub_from r f (skipn i s) (pos + i) 0.
Proof.
  induction i as [|i IH]; intros s pos Hi Hnone.
  - now rewrite Nat.add_0_r.
  - destruct s as [|c s]; [cbn in Hi; lia|].
    cbn [sub_from firstn skipn app].
    pose proof (Hnone 0 ltac:(lia)) as H0. cbn [skipn] in H0.
    rewrite Nat.add_0_r in H0. rewrite H0. f_equal.
    rewrite IH; [|cbn in Hi; lia|].
    + now replace (S pos + i) with (pos + S i) by lia.
    + intros k Hk. specialize (Hnone (S k) ltac:(lia)). cbn [skipn] in Hnone.
      now replace (S pos + k) with (pos + S k) by lia.
Qed.

Lemma sub_from_matched (r : pattern) (f : rmatch -> text) (w rest : text)
  (pos : nat) (m : rmatch) :
  match_at r (w ++ rest) pos = Some m ->
  m_end m = pos + List.length w ->
  w <> [] ->
  sub_from r f (w ++ rest) pos 0 = f m ++ sub_from r f rest (m_end m) 0.
Proof.
  intros Hm He Hw. destruct w as [|c w]; [contradiction|].
  cbn [app sub_from]. change (c :: w ++ rest) with ((c :: w) ++ rest).
  rewrite Hm. f_equal. rewrite He. cbn [List.length].
  replace (Nat.eqb (pos + S (List.length w)) pos) with false
    by (symmetry; apply Nat.eqb_neq; lia).
  replace (pos + S (List.length w) - pos - 1) with (List.length w) by lia.
  rewrite sub_from_skip by (rewrite length_app; lia).
  rewrite skipn_app_length. f_equal. lia.
Qed.

(** ** The pass, section by section *)

Lemma slice_parts (s x y z : text) (p q : nat) :
  s = x ++ y ++ z -> p = List.length x -> q = List.length x + List.length y ->
  slice s p q = y.
Proof.
  intros -> -> ->. unfold slice. rewrite skipn_app_length.
  replace (List.length x + List.length y - List.length x) with (List.length y) by lia.
  rewrite firstn_app, firstn_all, Nat.sub_diag. cbn. apply app_nil_r.
Qed.

Lemma match_at_start (r : pattern) (s : text) (pos : nat) (m : rmatch) :
  match_at r s pos = Some m -> m_start m = pos.
Proof.
  unfold match_at. destruct (match_here r s pos no_caps) as [[e cs]|]; [|discriminate].
  now intros [= <-].
Qed.

Lemma find_section_none (s : text) (pos pos' : nat) :
  find_section s pos = None -> find_section s pos' = None.
Proof.
  unfold find_section.
  destruct (str_find BEGIN_RESOURCES s); [|reflexivity].
  destruct (str_find FILES_OPEN _); [|reflexivity].
  destruct (str_find LIST_CLOSE _); [|reflexivity].
  destruct (str_find END_RESOURCES _); [discriminate|reflexivity].
Qed.

Section Pass.

Variables (ids : list text) (content : text).

Let f : rmatch -> text := FixResources.remove_ids_from_files ids content.
Let R : pattern := FixResources.resources_section_pattern.

Lemma callback_on_section (pre u a g b rest : text) :
  content = pre ++ u ++ BEGIN_RESOURCES ++ a ++ FILES_OPEN ++ g ++ LIST_CLOSE ++ b
            ++ END_RESOURCES ++ rest ->
  f (section_match (List.length pre) u a g b) =
  BEGIN_RESOURCES ++ a ++ FILES_OPEN ++
  join_lines (filter (keeps ids) (split_lines g)) ++ LIST_CLOSE ++ b ++ END_RESOURCES.
Proof.
  intros Hc. unfold f, FixResources.remove_ids_from_files, group, start_of, end_of,
    group_span, section_match.
  cbn [m_groups nth Nat.sub fst snd].
  rewrite (slice_parts content (pre ++ u) (BEGIN_RESOURCES ++ a)
             (FILES_OPEN ++ g ++ LIST_CLOSE ++ b ++ END_RESOURCES ++ rest));
    [|rewrite Hc, <- !app_assoc; reflexivity|rewrite !length_app; lia
     |rewrite !length_app; lia].
  rewrite (slice_parts content (pre ++ u ++ BEGIN_RESOURCES ++ a) FILES_OPEN
             (g ++ LIST_CLOSE ++ b ++ END_RESOURCES ++ rest));
    [|rewrite Hc, <- !app_assoc; reflexivity|rewrite !length_app; lia
     |rewrite !length_app; lia].
  rewrite (slice_parts content (pre ++ u ++ BEGIN_RESOURCES ++ a ++ FILES_OPEN) g
             (LIST_CLOSE ++ b ++ END_RESOURCES ++ rest));
    [|rewrite Hc, <- !app_assoc; reflexivity|rewrite !length_app; lia
     |rewrite !length_app; lia].
  rewrite (slice_parts content (pre ++ u ++ BEGIN_RESOURCES ++ a ++ FILES_OPEN ++ g)
             LIST_CLOSE (b ++ END_RESOURCES ++ rest));
    [|rewrite Hc, <- !app_assoc; reflexivity|rewrite !length_app; lia
     |rewrite !length_app; lia].
  rewrite (slice_parts content
             (pre ++ u ++ BEGIN_RESOURCES ++ a ++ FILES_OPEN ++ g ++ LIST_CLOSE)
             (b ++ END_RESOURCES) rest);
    [|rewrite Hc, <- !app_assoc; reflexivity|rewrite !length_app; lia
     |rewrite !length_app; lia].
  unfold FixResources.kept_lines, keeps. now rewrite <- !app_assoc.
Qed.

(** One step of [re.sub] on a text that holds a section. *)
Lemma sub_section_step (pre u a g b rest : text) :
  section_found u a g b ->
  content = pre ++ u ++ BEGIN_RESOURCES ++ a ++ FILES_OPEN ++ g ++ LIST_CLOSE ++ b
            ++ END_RESOURCES ++ rest ->
  exists pre',
    content = pre' ++ rest /\
    sub_from R f (u ++ BEGIN_RESOURCES ++ a ++ FILES_OPEN ++ g ++ LIST_CLOSE ++ b
                  ++ END_RESOURCES ++ rest) (List.length pre) 0
    = u ++ BEGIN_RESOURCES ++ a ++ FILES_OPEN ++
      join_lines (filter (keeps ids) (split_lines g)) ++ LIST_CLOSE ++ b ++
      END_RESOURCES ++ sub_from R f rest (List.length pre') 0.
Proof.
  intros Hfound Hc.
  set (w := BEGIN_RESOURCES ++ a ++ FILES_OPEN ++ g ++ LIST_CLOSE ++ b ++ END_RESOURCES).
  set (s := u ++ BEGIN_RESOURCES ++ a ++ FILES_OPEN ++ g ++ LIST_CLOSE ++ b
            ++ END_RESOURCES ++ rest).
  assert (Hs : s = u ++ w ++ rest) by (unfold s, w; now rewrite <- !app_assoc).
  pose proof (find_section_intro (List.length pre) u a g b rest Hfound) as Hfind.
  fold s in Hfind. rewrite <- search_section, search_from_first_success in Hfind.
  destruct (first_success_offset _ _ _ _ Hfind) as (i & Hi & Hm & Hnone).
  assert (i = List.length u) as ->.
  { apply match_at_start in Hm. unfold section_match in Hm. cbn in Hm. lia. }
  exists (pre ++ u ++ w). split.
  { rewrite Hc. unfold w. now rewrite <- !app_assoc. }
  rewrite (sub_from_unmatched R f (List.length u) s _ Hi Hnone).
  rewrite Hs in *. rewrite firstn_app, firstn_all, Nat.sub_diag. cbn [firstn].
  rewrite app_nil_r, skipn_app_length in *.
  assert (Hend : m_end (section_match (List.length pre) u a g b)
                 = List.length pre + List.length u + List.length w).
  { unfold section_match, w. cbn [m_end]. rewrite !length_app. lia. }
  rewrite (sub_from_matched R f w rest _ _ Hm Hend) by (unfold w; discriminate).
  rewrite (callback_on_section pre u a g b rest Hc), Hend.
  rewrite <- !app_assoc. repeat f_equal.
  rewrite !length_app. lia.
Qed.

(** [re.sub] does what [pass] says ... *)
Lemma sub_is_pass (n : nat) :
  forall s pre, List.length s <= n -> content = pre ++ s ->
    pass (keeps ids) s (sub_from R f s (List.length pre) 0).
Proof.
  induction n as [|n IH]; intros s pre Hn Hc.
  - destruct s; [|cbn in Hn; lia].
    cbn. destruct (match_at R [] (List.length pre)) eqn:E.
    + exfalso. unfold R in E. rewrite match_at_section in E. discriminate.
    + now constructor.
  - destruct (find_section s (List.length pre)) as [m|] eqn:E.
    + destruct (find_section_split _ _ _ E) as (u & a & g & b & rest & -> & Hf & _).
      destruct (sub_section_step pre u a g b rest Hf Hc) as (pre' & Hc' & ->).
      apply pass_section; [exact Hf|]. apply IH; [|exact Hc'].
      rewrite !length_app in Hn. cbn in Hn. lia.
    + rewrite sub_from_no_match by (unfold R; now rewrite search_section).
      constructor. exact (find_section_none _ _ 0 E).
Qed.

(** ... and nothing else. *)
Lemma pass_is_sub (s out : text) :
  pass (keeps ids) s out ->
  forall pre, content = pre ++ s -> sub_from R f s (List.length pre) 0 = out.
Proof.
  induction 1 as [s Hnone|u a g b rest rest' Hf Hp IH]; intros pre Hc.
  - apply sub_from_no_match. unfold R. rewrite search_section.
    exact (find_section_none _ _ _ Hnone).
  - destruct (sub_section_step pre u a g b rest Hf Hc) as (pre' & Hc' & ->).
    now rewrite (IH pre' Hc').
Qed.

End Pass.

Lemma fixed_content_pass (content : text) :
  pass (keeps (FixResources.ids_to_remove content)) content
       (FixResources.fixed_content content).
Proof.
  unfold FixResources.fixed_content, re_sub.
  exact (sub_is_pass _ content (List.length content) content [] (le_n _) eq_refl).
Qed.

Lemma pass_only_drops (keep : text -> bool) (s out : text) :
  pass keep s out -> only_files_lines_dropped keep s out.
Proof. induction 1; now constructor. Qed.

(** C9.  The fix pass leaves every character outside the resources sections
    as it is, the build-file definitions included; inside a section, between
    the opening and the closing marker, it changes the files list only, and
    only by dropping lines of it. *)
Theorem fix_changes_only_files_lines (content : text) :
  only_files_lines_dropped (keeps (FixResources.ids_to_remove content))
    content (FixResources.fixed_content content).
Proof. apply pass_only_drops, fixed_content_pass. Qed.

(** ** Running the pass again *)

Lemma should_remove_nil (ids : list text) : FixResources.should_remove ids [] = false.
Proof.
  unfold FixResources.should_remove.
  induction ids as [|i ids IH]; [reflexivity|].
  cbn [existsb]. rewrite IH, orb_false_r. apply andb_false_r.
Qed.

Lemma keeps_nil (ids : list text) : keeps ids [] = true.
Proof. unfold keeps. now rewrite should_remove_nil. Qed.

Lemma keeps_subset (ids ids' : list text) (line : text) :
  (forall id, In id ids' -> In id ids) ->
  keeps ids line = true -> keeps ids' line = true.
Proof.
  unfold keeps, FixResources.should_remove. intros Hsub H.
  apply negb_true_iff in H. apply negb_true_iff.
  destruct (existsb _ ids') eqn:E; [|reflexivity].
  apply existsb_exists in E. destruct E as (id & Hin & Hid).
  assert (Hex : existsb (fun id_to_remove =>
                           contains id_to_remove line &&
                           contains "in Resources" line) ids = true).
  { apply existsb_exists. exists id. split; [now apply Hsub|exact Hid]. }
  congruence.
Qed.

Lemma filter_all {A} (P : A -> bool) (l : list A) :
  (forall x, In x l -> P x = true) -> filter P l = l.
Proof.
  induction l as [|x l IH]; intros H; [reflexivity|].
  cbn. rewrite (H x (or_introl eq_refl)). f_equal. apply IH.
  intros y Hy. apply H. now right.
Qed.

Lemma filter_none {A} (P : A -> bool) (l : list A) :
  (forall x, In x l -> P x = false) -> filter P l = [].
Proof.
  induction l as [|x l IH]; intros H; [reflexivity|].
  cbn. rewrite (H x (or_introl eq_refl)). apply IH.
  intros y Hy. apply H. now right.
Qed.

(** The lines of a files list that has been through the pass all pass
    again. *)
Lemma kept_lines_are_kept (keep keep' : text -> bool) (g : text) :
  (forall l, keep l = true -> keep' l = true) ->
  keep' [] = true ->
  forall l, In l (split_lines (join_lines (filter keep (split_lines g)))) ->
            keep' l = true.
Proof.
  intros Hmono Hnil l Hl.
  destruct (filter keep (split_lines g)) as [|l0 ls] eqn:E.
  - cbn in Hl. destruct Hl as [<-|[]]. exact Hnil.
  - rewrite split_join in Hl.
    + rewrite <- E in Hl. apply filter_In in Hl. apply Hmono, Hl.
    + discriminate.
    + rewrite <- E. apply Forall_forall. intros x Hx.
      apply filter_In in Hx. destruct Hx as [Hx _].
      pose proof (split_lines_no_nl g) as Hall.
      rewrite Forall_forall in Hall. now apply Hall.
Qed.

Lemma refilter (keep keep' : text -> bool) (g : text) :
  (forall l, keep l = true -> keep' l = true) ->
  keep' [] = true ->
  join_lines (filter keep'
    (split_lines (join_lines (filter keep (split_lines g)))))
  = join_lines (filter keep (split_lines g)).
Proof.
  intros Hmono Hnil.
  rewrite filter_all; [apply join_split|].
  now apply kept_lines_are_kept.
Qed.

(** A blob that has been through the pass goes through it unchanged. *)
Lemma pass_again (keep keep' : text -> bool) (s out : text) :
  (forall l, keep l = true -> keep' l = true) ->
  keep' [] = true ->
  pass keep s out -> pass keep' out out.
Proof.
  intros Hmono Hnil. induction 1 as [s Hnone|u a g b rest rest' Hf Hp IH].
  - now constructor.
  - destruct Hf as (Fu & Fa & Fg & Fb).
    rewrite <- (refilter keep keep' g Hmono Hnil) at 2.
    apply pass_section; [|exact IH].
    repeat split; try assumption. now apply no_close_after_filter.
Qed.

(** ** [re.finditer], match by match *)

Lemma finditer_no_match (r : pattern) (s : text) (pos : nat) :
  search_from r s pos = None -> finditer_from r s pos 0 = [].
Proof.
  revert pos. induction s as [|c s IH]; intros pos H; cbn in H |- *.
  - destruct (match_at r [] pos); [discriminate|reflexivity].
  - destruct (match_at r (c :: s) pos); [discriminate|]. now apply IH.
Qed.

Lemma finditer_skip (r : pattern) (k : nat) :
  forall s pos, k <= List.length s ->
    finditer_from r s pos k = finditer_from r (skipn k s) (pos + k) 0.
Proof.
  induction k as [|k IH]; intros s pos H.
  - now rewrite Nat.add_0_r.
  - destruct s as [|c s]; [cbn in H; lia|].
    cbn [finditer_from skipn]. rewrite IH; [|cbn in H; lia].
    now replace (S pos + k) with (pos + S k) by lia.
Qed.

Lemma finditer_unmatched (r : pattern) (i : nat) :
  forall s pos, i <= List.length s ->
    (forall k, k < i -> match_at r (skipn k s) (pos + k) = None) ->
    finditer_from r s pos 0 = finditer_from r (skipn i s) (pos + i) 0.
Proof.
  induction i as [|i IH]; intros s pos Hi Hnone.
  - now rewrite Nat.add_0_r.
  - destruct s as [|c s]; [cbn in Hi; lia|].
    cbn [finditer_from skipn].
    pose proof (Hnone 0 ltac:(lia)) as H0. cbn [skipn] in H0.
    rewrite Nat.add_0_r in H0. rewrite H0.
    rewrite IH; [|cbn in Hi; lia|].
    + now replace (S pos + i) with (pos + S i) by lia.
    + intros k Hk. specialize (Hnone (S k) ltac:(lia)). cbn [skipn] in Hnone.
      now replace (S pos + k) with (pos + S k) by lia.
Qed.

Lemma finditer_matched (r : pattern) (w rest : text) (pos : nat) (m : rmatch) :
  match_at r (w ++ rest) pos = Some m ->
  m_end m = pos + List.length w ->
  w <> [] ->
  finditer_from r (w ++ rest) pos 0 = m :: finditer_from r rest (m_end m) 0.
Proof.
  intros Hm He Hw. destruct w as [|c w]; [contradiction|].
  cbn [app finditer_from]. change (c :: w ++ rest) with ((c :: w) ++ rest).
  rewrite Hm. f_equal. rewrite He. cbn [List.length].
  replace (pos + S (List.length w) - pos - 1) with (List.length w) by lia.
  rewrite finditer_skip by (rewrite length_app; lia).
  rewrite skipn_app_length. f_equal. lia.
Qed.

Lemma files_list_of_section (content pre u a g b rest : text) :
  content = pre ++ u ++ BEGIN_RESOURCES ++ a ++ FILES_OPEN ++ g ++ LIST_CLOSE ++ b
            ++ END_RESOURCES ++ rest ->
  group content (section_match (List.length pre) u a g b) 3 = g.
Proof.
  intros Hc. unfold group, start_of, end_of, group_span, section_match.
  cbn [m_groups nth Nat.sub fst snd].
  apply (slice_parts content (pre ++ u ++ BEGIN_RESOURCES ++ a ++ FILES_OPEN) g
           (LIST_CLOSE ++ b ++ END_RESOURCES ++ rest));
    [rewrite Hc, <- !app_assoc; reflexivity|rewrite !length_app; lia
    |rewrite !length_app; lia].
Qed.

Lemma finditer_section_step (content pre u a g b rest : text) :
  section_found u a g b ->
  content = pre ++ u ++ BEGIN_RESOURCES ++ a ++ FILES_OPEN ++ g ++ LIST_CLOSE ++ b
            ++ END_RESOURCES ++ rest ->
  exists pre' m,
    content = pre' ++ rest /\
    group content m 3 = g /\
    finditer_from FixResources.resources_section_pattern
      (u ++ BEGIN_RESOURCES ++ a ++ FILES_OPEN ++ g ++ LIST_CLOSE ++ b
       ++ END_RESOURCES ++ rest) (List.length pre) 0
    = m :: finditer_from FixResources.resources_section_pattern rest
             (List.length pre') 0.
Proof.
  intros Hfound Hc.
  set (R := FixResources.resources_section_pattern).
  set (w := BEGIN_RESOURCES ++ a ++ FILES_OPEN ++ g ++ LIST_CLOSE ++ b ++ END_RESOURCES).
  set (s := u ++ BEGIN_RESOURCES ++ a ++ FILES_OPEN ++ g ++ LIST_CLOSE ++ b
            ++ END_RESOURCES ++ rest).
  assert (Hs : s = u ++ w ++ rest) by (unfold s, w; now rewrite <- !app_assoc).
  pose proof (find_section_intro (List.length pre) u a g b rest Hfound) as Hfind.
  fold s in Hfind. rewrite <- search_section, search_from_first_success in Hfind.
  destruct (first_success_offset _ _ _ _ Hfind) as (i & Hi & Hm & Hnone).
  assert (i = List.length u) as ->.
  { apply match_at_start in Hm. unfold section_match in Hm. cbn in Hm. lia. }
  exists (pre ++ u ++ w), (section_match (List.length pre) u a g b).
  split; [rewrite Hc; unfold w; now rewrite <- !app_assoc|].
  split; [now apply (files_list_of_section content pre u a g b rest)|].
  rewrite (finditer_unmatched R (List.length u) s _ Hi Hnone).
  rewrite Hs in *. rewrite skipn_app_length in *.
  assert (Hend : m_end (section_match (List.length pre) u a g b)
                 = List.length pre + List.length u + List.length w).
  { unfold section_match, w. cbn [m_end]. rewrite !length_app. lia. }
  rewrite (finditer_matched R w rest _ _ Hm Hend) by (unfold w; discriminate).
  rewrite Hend. repeat f_equal. rewrite !length_app. lia.
Qed.

(** In a blob that has been through the pass, no files list has a line to
    remove. *)
Lemma nothing_left_to_remove (ids ids' : list text) (content : text) (s out : text) :
  (forall id, In id ids' -> In id ids) ->
  pass (keeps ids) s out ->
  forall pre, content = pre ++ out ->
    Forall (fun m => FixResources.removed_count ids'
                       (split_lines (group content m 3)) = 0)
           (finditer_from FixResources.resources_section_pattern out
              (List.length pre) 0).
Proof.
  intros Hsub. induction 1 as [s Hnone|u a g b rest rest' Hf Hp IH]; intros pre Hc.
  - rewrite finditer_no_match; [constructor|].
    rewrite search_section. exact (find_section_none _ _ _ Hnone).
  - assert (Hf' : section_found u a
                    (join_lines (filter (keeps ids) (split_lines g))) b).
    { destruct Hf as (Fu & Fa & Fg & Fb). repeat split; try assumption.
      now apply no_close_after_filter. }
    destruct (finditer_section_step content pre u a _ b rest' Hf' Hc)
      as (pre' & m & Hc' & Hg & ->).
    constructor; [|exact (IH pre' Hc')].
    rewrite Hg. unfold FixResources.removed_count.
    rewrite filter_none; [reflexivity|].
    intros l Hl. apply negb_true_iff.
    apply (kept_lines_are_kept (keeps ids) (keeps ids') g); try assumption.
    + intros l0. now apply keeps_subset.
    + apply keeps_nil.
Qed.

(** C3, as the code has it.  When the pass, run on its own output, collects
    no identifier it had not collected on the input, the second run removes
    no entry from any files list and returns the blob it was given; the
    script then prints that no changes were made, returns [False] and writes
    nothing. *)
Theorem fix_twice_changes_nothing (content : text) :
  let out := FixResources.fixed_content content in
  (forall id, In id (FixResources.ids_to_remove out) ->
              In id (FixResources.ids_to_remove content)) ->
  FixResources.fixed_content out = out /\
  Forall (fun m => FixResources.removed_count (FixResources.ids_to_remove out)
                     (split_lines (group out m 3)) = 0)
         (re_finditer FixResources.resources_section_pattern out) /\
  forall (w : world) (p : path),
    files w p = Some out -> unreadable w p = false ->
    fst (FixResources.fix_xcode_project p w) = Ret false /\
    written (snd (FixResources.fix_xcode_project p w)) = written w /\
    files (snd (FixResources.fix_xcode_project p w)) = files w.
Proof.
  intros out Hsub.
  pose proof (fixed_content_pass content) as Hpass. fold out in Hpass.
  assert (Hfix : FixResources.fixed_content out = out).
  { unfold FixResources.fixed_content at 1, re_sub.
    refine (pass_is_sub (FixResources.ids_to_remove out) out out out _ [] eq_refl).
    apply (pass_again (keeps (FixResources.ids_to_remove content)) _ content out).
    - intros l. now apply keeps_subset.
    - apply keeps_nil.
    - exact Hpass. }
  split; [exact Hfix|]. split.
  - exact (nothing_left_to_remove _ _ out content out Hsub Hpass [] eq_refl).
  - intros w p Hfile Hread.
    destruct (fix_run_unchanged w p out Hfile Hread Hfix) as (w' & Hr & Hf & Hw & _).
    rewrite Hr. cbn [fst snd]. auto.
Qed.

Lemma fix_twice_changes_nothing_witness :
  let out := FixResources.fixed_content manifest_with_assets in
  FixResources.fixed_content out = out /\
  Forall (fun m => FixResources.removed_count (FixResources.ids_to_remove out)
                     (split_lines (group out m 3)) = 0)
         (re_finditer FixResources.resources_section_pattern out) /\
  forall (w : world) (p : path),
    files w p = Some out -> unreadable w p = false ->
    fst (FixResources.fix_xcode_project p w) = Ret false /\
    written (snd (FixResources.fix_xcode_project p w)) = written w /\
    files (snd (FixResources.fix_xcode_project p w)) = files w.
Proof.
  apply (fix_twice_changes_nothing manifest_with_assets).
  assert (E : FixResources.ids_to_remove
                (FixResources.fixed_content manifest_with_assets)
              = FixResources.ids_to_remove manifest_with_assets)
    by (vm_compute; reflexivity).
  rewrite E. intros id H. exact H.
Defined.

(** C3, as stated, fails when dropping a line makes a pattern match anew:
    the first run collects [A] and drops its line, which brings [B] before a
    comment naming an asset; the second run collects [B] and drops a line the
    first run had kept. *)
Lemma fix_twice_removes_more :
  let once := FixResources.fixed_content manifest_with_bare_identifier in
  let twice := FixResources.fixed_content once in
  FixResources.ids_to_remove manifest_with_bare_identifier = ["A" : text] /\
  FixResources.ids_to_remove once = ["B" : text] /\
  twice <> once /\
  FixResources.fix_reports once =
    [ "Found 1 asset catalog file references to remove" : text;
      "Removed 1 entries from Resources build phase" : text ].
Proof.
  cbv zeta. split; [vm_compute; reflexivity|]. split; [vm_compute; reflexivity|].
  split; [vm_compute; discriminate|vm_compute; reflexivity].
Qed.

(** * Further properties *)

(** ** What the add scripts leave on the disk *)

Ltac run_add Hfile Hread :=
  cbv beta iota delta [bind ret print except_not_found except_any read_file
                       write_file fresh_id uuid4];
  rewrite ?Hfile, ?Hread;
  cbn [fst snd files unreadable refused cut_at urandom drawn stdout written].

Lemma add_file_run_no_manifest (w : world) (p : path) (name : text) :
  (files w p = None \/ unreadable w p = true) ->
  exists res w',
    AddFile.add_file_to_xcode_project p name w = (res, w') /\
    res <> Ret true /\ files w' = files w /\ written w' = written w.
Proof.
  intros H. unfold AddFile.add_file_to_xcode_project.
  destruct (files w p) as [content|] eqn:Hfile.
  - destruct H as [H|Hread]; [discriminate|]. run_add Hfile Hread.
    eexists. eexists. split; [reflexivity|]. repeat split. discriminate.
  - run_add Hfile Hfile.
    eexists. eexists. split; [reflexivity|]. repeat split. discriminate.
Qed.

(** The three ways the final write of a patched blob can end. *)
Lemma write_outcomes (w w' : world) (p : path) (out : text) (res : result bool) :
  res = Ret (negb (unwritable w p)) ->
  files w' = files (after_write p out w) ->
  written w' = written (after_write p out w) ->
  (forall q, q <> p -> files w' q = files w q) /\
  ((res <> Ret true /\ files w' = files w /\ written w' = written w) \/
   (refused w p = false /\
    ((cut_at w p = None /\ res = Ret true /\
      files w' p = Some out /\ written w' = written w ++ [(p, out)]) \/
     (exists n, cut_at w p = Some n /\ res = Ret false /\
        files w' p = Some (firstn n out) /\
        written w' = written w ++ [(p, firstn n out)])))).
Proof.
  intros -> Hf Hw. rewrite Hf, Hw.
  split; [intros q Hq; now apply after_write_other|].
  unfold unwritable. destruct (refused w p) eqn:Href.
  - left. rewrite (after_write_refused _ _ _ Href). cbn [orb negb].
    split; [discriminate|auto].
  - right. split; [reflexivity|].
    destruct (cut_at w p) as [n|] eqn:Hcut.
    + right. exists n. rewrite (after_write_cut _ _ _ _ Href Hcut). cbn [orb negb].
      split; [reflexivity|]. split; [reflexivity|].
      split; [apply files_store|reflexivity].
    + left. unfold after_write. rewrite Href, Hcut. cbn [orb negb].
      split; [reflexivity|]. split; [reflexivity|].
      split; [apply files_store|reflexivity].
Qed.

(** X1.  Whatever the world, a run of the add-file script changes no file
    but the manifest, and the manifest only by its one final write.  Either
    nothing is written -- a missing or unreadable manifest, a pattern without
    a match at its step, a manifest that cannot be opened for writing: the
    run does not return [True] and every file is as it was; or the write
    went through: the run returns [True] and the manifest holds the patched
    blob; or the write failed under way: the run returns [False] and the
    manifest holds only what had reached it, a prefix of the patched blob,
    its old content gone.  The write is not atomic. *)
Theorem add_file_write_outcomes (w : world) (p : path) (name : text) :
  let r := AddFile.add_file_to_xcode_project p name w in
  (forall q, q <> p -> files (snd r) q = files w q) /\
  ((fst r <> Ret true /\ files (snd r) = files w /\ written (snd r) = written w) \/
   exists content out,
     files w p = Some content /\ unreadable w p = false /\
     AddFile.patched (AddFile.first_id w) (AddFile.second_id w) name content
       = Some out /\
     refused w p = false /\
     ((cut_at w p = None /\ fst r = Ret true /\
       files (snd r) p = Some out /\ written (snd r) = written w ++ [(p, out)]) \/
      (exists n, cut_at w p = Some n /\ fst r = Ret false /\
         files (snd r) p = Some (firstn n out) /\
         written (snd r) = written w ++ [(p, firstn n out)]))).
Proof.
  cbv zeta.
  assert (Hnone : forall (res : result bool) w',
            res <> Ret true -> files w' = files w -> written w' = written w ->
            (forall q, q <> p -> files w' q = files w q) /\
            (res <> Ret true /\ files w' = files w /\ written w' = written w)).
  { intros res w' Hne Hf Hw. split; [intros q _; now rewrite Hf|auto]. }
  destruct (files w p) as [content|] eqn:Hfile.
  - destruct (unreadable w p) eqn:Hread.
    + destruct (add_file_run_no_manifest w p name (or_intror Hread))
        as (res & w' & Hr & Hne & Hf & Hw).
      rewrite Hr. cbn [fst snd].
      destruct (Hnone _ _ Hne Hf Hw) as [H1 H2]. split; [exact H1|now left].
    + destruct (AddFile.patched (AddFile.first_id w) (AddFile.second_id w)
                  name content) as [out|] eqn:Hp.
      * destruct (add_file_run_patched w p name content Hfile Hread out Hp)
          as (w' & Hr & Hf & Hw).
        rewrite Hr. cbn [fst snd].
        destruct (write_outcomes w w' p out _ eq_refl Hf Hw) as [H1 [H2|[H2 H3]]].
        -- split; [exact H1|now left].
        -- split; [exact H1|]. right. exists content, out. auto.
      * destruct (add_file_run_missing w p name content Hfile Hread Hp)
          as (w' & Hr & Hf & Hw).
        rewrite Hr. cbn [fst snd].
        destruct (Hnone (Ret false) w' ltac:(discriminate) Hf Hw) as [H1 H2].
        split; [exact H1|now left].
  - destruct (add_file_run_no_manifest w p name (or_introl Hfile))
      as (res & w' & Hr & Hne & Hf & Hw).
    rewrite Hr. cbn [fst snd].
    destruct (Hnone _ _ Hne Hf Hw) as [H1 H2]. split; [exact H1|now left].
Qed.

(** A write that fails after twenty characters: the run for [Foo.swift] on
    the empty manifest returns [False], says so, and leaves in the manifest
    the first twenty characters of the patched blob. *)
Lemma add_file_cut_write :
  let p := AddFile.project_file in
  let r := AddFile.add_file_to_xcode_project p "Foo.swift" world_cut in
  fst r = Ret false /\
  files (snd r) p = Some (firstn 20 foo_manifest) /\
  firstn 20 foo_manifest <> empty_manifest /\
  last (stdout (snd r)) []
    = ("❌ Error writing to project file: [Errno 28] No space left on device" : text).
Proof.
  cbv zeta. split; [vm_compute; reflexivity|]. split; [vm_compute; reflexivity|].
  split; [vm_compute; discriminate|vm_compute; reflexivity].
Qed.

Lemma add_resource_run_full (w : world) (p : path) (name type content : text) :
  files w p = Some content -> unreadable w p = false ->
  exists w',
    AddResource.add_resource_to_xcode_project p name type w =
      (Ret (match AddResource.patched (AddFile.first_id w) (AddFile.second_id w)
                    name type content with
            | Some _ => negb (unwritable w p)
            | None => false
            end), w') /\
    match AddResource.patched (AddFile.first_id w) (AddFile.second_id w)
            name type content with
    | Some out =>
        files w' = files (after_write p out w) /\
        written w' = written (after_write p out w)
    | None => files w' = files w /\ written w' = written w
    end.
Proof.
  intros Hfile Hread.
  unfold AddResource.add_resource_to_xcode_project, AddResource.patched,
    AddFile.first_id, AddFile.second_id.
  run_add Hfile Hread.
  destruct (AddResource.insert_at_end2 AddResource.file_ref_pattern _ content)
    as [c1|]; [|eexists; split; [reflexivity|split; reflexivity]].
  destruct (AddResource.insert_at_end2 AddResource.build_file_pattern _ c1)
    as [c2|]; [|eexists; split; [reflexivity|split; reflexivity]].
  destruct (re_search AddResource.group_pattern c2) as [m|];
    [|eexists; split; [reflexivity|split; reflexivity]].
  destruct (AddResource.insert_at_end2 AddResource.resources_pattern _ _)
    as [c4|]; [|eexists; split; [reflexivity|split; reflexivity]].
  cbn [fst snd files unreadable refused cut_at urandom drawn stdout written].
  unfold unwritable, after_write.
  destruct (refused w p); [eexists; split; [reflexivity|split; reflexivity]|].
  destruct (cut_at w p); eexists; (split; [reflexivity|split; reflexivity]).
Qed.

Lemma add_resource_run_no_manifest (w : world) (p : path) (name type : text) :
  (files w p = None \/ unreadable w p = true) ->
  exists res w',
    AddResource.add_resource_to_xcode_project p name type w = (res, w') /\
    res <> Ret true /\ files w' = files w /\ written w' = written w.
Proof.
  intros H. unfold AddResource.add_resource_to_xcode_project.
  destruct (files w p) as [content|] eqn:Hfile.
  - destruct H as [H|Hread]; [discriminate|]. run_add Hfile Hread.
    eexists. eexists. split; [reflexivity|]. repeat split. discriminate.
  - run_add Hfile Hfile.
    eexists. eexists. split; [reflexivity|]. repeat split. discriminate.
Qed.

(** X2.  The add-resource script writes in the same way: no file but the
    manifest changes, and either nothing is written and the run does not
    return [True], or the write went through, the run returns [True] and the
    manifest holds the patched blob, or the write failed under way, the run
    returns [False] and the manifest holds only a prefix of the patched
    blob. *)
Theorem add_resource_write_outcomes (w : world) (p : path) (name type : text) :
  let r := AddResource.add_resource_to_xcode_project p name type w in
  (forall q, q <> p -> files (snd r) q = files w q) /\
  ((fst r <> Ret true /\ files (snd r) = files w /\ written (snd r) = written w) \/
   exists content out,
     files w p = Some content /\ unreadable w p = false /\
     AddResource.patched (AddFile.first_id w) (AddFile.second_id w)
                         name type content = Some out /\
     refused w p = false /\
     ((cut_at w p = None /\ fst r = Ret true /\
       files (snd r) p = Some out /\ written (snd r) = written w ++ [(p, out)]) \/
      (exists n, cut_at w p = Some n /\ fst r = Ret false /\
         files (snd r) p = Some (firstn n out) /\
         written (snd r) = written w ++ [(p, firstn n out)]))).
Proof.
  cbv zeta.
  assert (Hnone : forall (res : result bool) w',
            res <> Ret true -> files w' = files w -> written w' = written w ->
            (forall q, q <> p -> files w' q = files w q) /\
            (res <> Ret true /\ files w' = files w /\ written w' = written w)).
  { intros res w' Hne Hf Hw. split; [intros q _; now rewrite Hf|auto]. }
  destruct (files w p) as [content|] eqn:Hfile.
  - destruct (unreadable w p) eqn:Hread.
    + destruct (add_resource_run_no_manifest w p name type (or_intror Hread))
        as (res & w' & Hr & Hne & Hf & Hw).
      rewrite Hr. cbn [fst snd].
      destruct (Hnone _ _ Hne Hf Hw) as [H1 H2]. split; [exact H1|now left].
    + destruct (add_resource_run_full w p name type content Hfile Hread)
        as (w' & Hr & H).
      rewrite Hr. cbn [fst snd].
      destruct (AddResource.patched _ _ name type content) as [out|] eqn:Hp.
      * destruct H as [Hf Hw].
        destruct (write_outcomes w w' p out _ eq_refl Hf Hw) as [H1 [H2|[H2 H3]]].
        -- split; [exact H1|now left].
        -- split; [exact H1|]. right. exists content, out. auto.
      * destruct H as [Hf Hw].
        destruct (Hnone (Ret false) w' ltac:(discriminate) Hf Hw) as [H1 H2].
        split; [exact H1|now left].
  - destruct (add_resource_run_no_manifest w p name type (or_introl Hfile))
      as (res & w' & Hr & Hne & Hf & Hw).
    rewrite Hr. cbn [fst snd].
    destruct (Hnone _ _ Hne Hf Hw) as [H1 H2]. split; [exact H1|now left].
Qed.

(** ** The add-resource script: the four splices *)

Lemma insert_at_end2_splice (r : pattern) (entry content out : text) :
  AddResource.insert_at_end2 r entry content = Some out ->
  exists n, out = splice content n entry.
Proof.
  unfold AddResource.insert_at_end2.
  destruct (re_search r content) as [m|]; [|discriminate].
  intros [= <-]. now exists (end_of m 2).
Qed.

Lemma add_resource_patched_splices (fid bid name type content out : text) :
  AddResource.patched fid bid name type content = Some out ->
  exists p1 p2 p3 p4,
    out = splice (splice (splice (splice content
            p1 (AddResource.file_ref_entry fid name type))
            p2 (AddResource.build_file_entry bid fid name))
            p3 (AddResource.children_entry fid name))
            p4 (AddResource.resources_entry bid name).
Proof.
  unfold AddResource.patched.
  destruct (AddResource.insert_at_end2 AddResource.file_ref_pattern _ content)
    as [c1|] eqn:E1; [|discriminate].
  destruct (AddResource.insert_at_end2 AddResource.build_file_pattern _ c1)
    as [c2|] eqn:E2; [|discriminate].
  destruct (re_search AddResource.group_pattern c2) as [m|] eqn:E3; [|discriminate].
  intros E4.
  apply insert_at_end2_splice in E1, E2, E4.
  destruct E1 as (p1 & ->). destruct E2 as (p2 & ->). destruct E4 as (p4 & ->).
  exists p1, p2, (end_of m 2), p4. f_equal.
  unfold splice at 1, group. rewrite <- app_assoc, app_assoc.
  rewrite firstn_slice; [reflexivity|].
  exact (search_from_spans _ _ _ _ E3 2).
Qed.

(** X3.  A successful run of the add-resource script leaves in the manifest
    the blob it read with its four entries spliced in, every character of the
    input kept in order; with a file name and a file type free of line breaks
    the manifest gains exactly four lines. *)
Theorem add_resource_splices_four_entries
  (w : world) (p : path) (name type content : text) :
  files w p = Some content ->
  count_nl name = 0 -> count_nl type = 0 ->
  let r := AddResource.add_resource_to_xcode_project p name type w in
  fst r = Ret true ->
  exists out p1 p2 p3 p4,
    files (snd r) p = Some out /\
    out = splice (splice (splice (splice content
            p1 (AddResource.file_ref_entry (AddFile.first_id w) name type))
            p2 (AddResource.build_file_entry (AddFile.second_id w)
                  (AddFile.first_id w) name))
            p3 (AddResource.children_entry (AddFile.first_id w) name))
            p4 (AddResource.resources_entry (AddFile.second_id w) name) /\
    List.length (split_lines out) = List.length (split_lines content) + 4.
Proof.
  intros Hfile Hname Htype r Hr.
  destruct (unreadable w p) eqn:Hread.
  { destruct (add_resource_run_no_manifest w p name type (or_intror Hread))
      as (res & w' & Hrun & Hne & _).
    subst r. rewrite Hrun in Hr. cbn [fst] in Hr. congruence. }
  destruct (add_resource_run_full w p name type content Hfile Hread)
    as (w' & Hrun & Hpost).
  subst r. rewrite Hrun in Hr |- *. cbn [fst snd] in Hr |- *.
  destruct (AddResource.patched (AddFile.first_id w) (AddFile.second_id w)
              name type content) as [out|] eqn:Hp; [|discriminate].
  destruct (unwritable w p) eqn:Hwr; [discriminate|].
  destruct Hpost as [Hf _].
  destruct (add_resource_patched_splices _ _ _ _ _ _ Hp) as (p1 & p2 & p3 & p4 & Hs).
  exists out, p1, p2, p3, p4. split; [|split; [exact Hs|]].
  - rewrite Hf, (after_write_through _ _ _ Hwr). apply files_store.
  - rewrite !split_lines_length, Hs, !count_nl_splice.
    unfold AddResource.file_ref_entry, AddResource.build_file_entry,
      AddResource.children_entry, AddResource.resources_entry.
    rewrite !count_nl_app.
    unfold AddFile.first_id, AddFile.second_id.
    rewrite !count_nl_id, Hname, Htype. cbn. lia.
Qed.

Lemma add_resource_splices_four_entries_witness :
  exists out p1 p2 p3 p4,
    files (snd (AddResource.add_resource_to_xcode_project AddResource.project_file
                  AddResource.resource_file "text.xml"
                  (world_with AddResource.project_file manifest_with_resources)))
          AddResource.project_file = Some out /\
    out = splice (splice (splice (splice manifest_with_resources
            p1 (AddResource.file_ref_entry
                  (AddFile.first_id (world_with AddResource.project_file
                                       manifest_with_resources))
                  AddResource.resource_file "text.xml"))
            p2 (AddResource.build_file_entry
                  (AddFile.second_id (world_with AddResource.project_file
                                        manifest_with_resources))
                  (AddFile.first_id (world_with AddResource.project_file
                                       manifest_with_resources))
                  AddResource.resource_file))
            p3 (AddResource.children_entry
                  (AddFile.first_id (world_with AddResource.project_file
                                       manifest_with_resources))
                  AddResource.resource_file))
            p4 (AddResource.resources_entry
                  (AddFile.second_id (world_with AddResource.project_file
                                        manifest_with_resources))
                  AddResource.resource_file) /\
    List.length (split_lines out)
      = List.length (split_lines manifest_with_resources) + 4.
Proof.
  apply (add_resource_splices_four_entries
           (world_with AddResource.project_file manifest_with_resources)
           AddResource.project_file AddResource.resource_file "text.xml"
           manifest_with_resources).
  - reflexivity.
  - reflexivity.
  - reflexivity.
  - vm_compute. reflexivity.
Defined.

(** ** Identifiers *)

Lemma hex_upper_is_hex (d : N) : (d < 16)%N -> is_hex_upper (hex_upper d) = true.
Proof.
  intros H. rewrite <- (N2Nat.id d).
  assert (Hn : N.to_nat d < 16) by lia.
  destruct (N.to_nat d) as [|n]; [reflexivity|].
  do 15 (destruct n as [|n]; [reflexivity|]). lia.
Qed.

Lemma hex_is_upper_or_digit (c : ascii) :
  is_hex_upper c = true -> is_upper_or_digit c = true.
Proof.
  unfold is_hex_upper, is_upper_or_digit, is_upper, is_digit, in_range.
  intros H. apply orb_true_iff in H. apply orb_true_iff.
  destruct H as [H|H]; [now right|left].
  apply andb_true_iff in H. destruct H as [H1 H2].
  apply andb_true_iff. split; [exact H1|].
  apply Nat.leb_le in H2. apply Nat.leb_le.
  change (nat_of_ascii "F") with 70 in H2. change (nat_of_ascii "Z") with 90. lia.
Qed.

Lemma version_nibble (r : N) :
  N.land (N.shiftr (uuid4_int r) 76) 15 = 4%N.
Proof.
  unfold uuid4_int. apply N.bits_inj. intros n.
  rewrite N.land_spec, N.shiftr_spec by apply N.le_0_l.
  rewrite N.lor_spec, N.ldiff_spec.
  rewrite (N.shiftl_spec_high 4) by lia.
  rewrite (N.shiftl_spec_high 61440) by lia.
  replace (n + 76 - 76)%N with n by lia.
  replace (n + 76 - 64)%N with (n + 12)%N by lia.
  destruct (N.ltb n 4) eqn:E.
  - apply N.ltb_lt in E.
    assert (Hn : n = 0%N \/ n = 1%N \/ n = 2%N \/ n = 3%N) by lia.
    destruct Hn as [->|[->|[->| ->]]]; cbn;
      now rewrite andb_false_r, andb_true_r.
  - apply N.ltb_ge in E.
    replace (N.testbit 15 n) with false.
    + rewrite andb_false_r. symmetry.
      apply (N.bits_above_log2 4 n). cbn. lia.
    + symmetry. apply (N.bits_above_log2 15 n). cbn. lia.
Qed.

(** X4.  An identifier the scripts generate is 24 characters long, each an
    uppercase hexadecimal digit, so it is in the class the NoteWall group
    pattern asks of an identifier; its thirteenth character is always the
    version digit 4 of the UUID. *)
Theorem generated_id_format (r : N) :
  let id := id_of_uuid (uuid4_int r) in
  List.length id = 24 /\
  forallb is_hex_upper id = true /\
  forallb is_upper_or_digit id = true /\
  nth 12 id " "%char = "4"%char.
Proof.
  cbv zeta.
  assert (Hhex : forallb is_hex_upper (id_of_uuid (uuid4_int r)) = true).
  { unfold id_of_uuid. apply forallb_forall. intros c Hc.
    apply in_map_iff in Hc. destruct Hc as (k & <- & _).
    unfold hex_digit_at. apply hex_upper_is_hex.
    change 15%N with (N.ones 4). rewrite N.land_ones.
    apply N.mod_lt. discriminate. }
  split; [|split; [exact Hhex|split]].
  - unfold id_of_uuid. now rewrite length_map, length_seq.
  - apply forallb_forall. intros c Hc.
    rewrite forallb_forall in Hhex. apply hex_is_upper_or_digit, Hhex, Hc.
  - unfold id_of_uuid.
    change (nth 12 (map (hex_digit_at (uuid4_int r)) (seq 0 24)) " "%char)
      with (hex_digit_at (uuid4_int r) 12).
    unfold hex_digit_at.
    change (4 * N.of_nat (31 - 12))%N with 76%N.
    now rewrite version_nibble.
Qed.

(** ** The fix pass only shrinks the manifest *)

Lemma join_lines_length (ls : list text) :
  List.length (join_lines ls)
  = list_sum (map (fun l => S (List.length l)) ls) - 1.
Proof.
  induction ls as [|l ls IH]; [reflexivity|].
  destruct ls as [|l' ls']; [cbn; lia|].
  change (join_lines (l :: l' :: ls')) with (l ++ NL :: join_lines (l' :: ls')).
  rewrite length_app. cbn [List.length]. rewrite IH. unfold list_sum. cbn [map fold_right]. lia.
Qed.

Lemma filter_weight (keep : text -> bool) (ls : list text) :
  list_sum (map (fun l => S (List.length l)) (filter keep ls))
    <= list_sum (map (fun l => S (List.length l)) ls) /\
  (list_sum (map (fun l => S (List.length l)) (filter keep ls))
     = list_sum (map (fun l => S (List.length l)) ls) ->
   filter keep ls = ls).
Proof.
  induction ls as [|l ls [IH1 IH2]]; [split; reflexivity|].
  cbn [filter]. destruct (keep l); unfold list_sum in *; cbn [map fold_right] in *.
  - split; [lia|]. intros H. f_equal. apply IH2. lia.
  - split; [lia|]. intros H. lia.
Qed.

Lemma join_filter_shrinks (keep : text -> bool) (ls : list text) :
  List.length (join_lines (filter keep ls)) <= List.length (join_lines ls) /\
  (List.length (join_lines (filter keep ls)) = List.length (join_lines ls) ->
   join_lines (filter keep ls) = join_lines ls).
Proof.
  destruct (filter_weight keep ls) as [H1 H2].
  rewrite !join_lines_length. split; [lia|]. intros H.
  destruct (Nat.eq_dec
              (list_sum (map (fun l => S (List.length l)) (filter keep ls)))
              (list_sum (map (fun l => S (List.length l)) ls))) as [E|E].
  - now rewrite (H2 E).
  - assert (L1 : List.length (join_lines (filter keep ls)) = 0)
      by (rewrite join_lines_length; lia).
    assert (L2 : List.length (join_lines ls) = 0)
      by (rewrite join_lines_length; lia).
    apply length_zero_iff_nil in L1, L2. congruence.
Qed.

Lemma pass_shrinks (keep : text -> bool) (s out : text) :
  pass keep s out ->
  List.length out <= List.length s /\
  (List.length out = List.length s -> out = s).
Proof.
  induction 1 as [s Hnone|u a g b rest rest' Hf Hp [IH1 IH2]].
  - split; [lia|reflexivity].
  - destruct (join_filter_shrinks keep (split_lines g)) as [J1 J2].
    rewrite join_split in J1, J2.
    rewrite !length_app. split; [lia|].
    intros H. rewrite J2 by lia. rewrite IH2 by lia. reflexivity.
Qed.

(** X5.  The fix pass never lengthens the manifest, and it changes the
    manifest only by making it shorter: an output as long as the input is
    the input. *)
Theorem fix_only_shrinks (content : text) :
  List.length (FixResources.fixed_content content) <= List.length content /\
  (List.length (FixResources.fixed_content content) = List.length content ->
   FixResources.fixed_content content = content).
Proof. exact (pass_shrinks _ _ _ (fixed_content_pass content)). Qed.

Lemma fix_only_shrinks_witness :
  FixResources.fixed_content empty_manifest = empty_manifest.
Proof.
  destruct (fix_only_shrinks empty_manifest) as [_ H].
  apply H. vm_compute. reflexivity.
Defined.

(** ** A manifest without asset references *)

Lemma pass_keep_all (keep : text -> bool) (s out : text) :
  (forall l, keep l = true) -> pass keep s out -> out = s.
Proof.
  intros Hk. induction 1 as [s Hnone|u a g b rest rest' Hf Hp IH]; [reflexivity|].
  rewrite IH, (filter_all keep) by (intros; apply Hk).
  now rewrite join_split.
Qed.

(** X6.  When the fifteen patterns find no identifier in a readable
    manifest, the pass changes nothing: it reports that no changes were made,
    returns False, and leaves the file untouched. *)
Theorem fix_without_asset_references (w : world) (p : path) (content : text) :
  files w p = Some content ->
  unreadable w p = false ->
  FixResources.ids_to_remove content = [] ->
  exists w',
    FixResources.fix_xcode_project p w = (Ret false, w') /\
    files w' = files w /\ written w' = written w /\
    last (stdout w') [] = FixResources.no_changes_message.
Proof.
  intros Hfile Hread Hids.
  assert (Heq : FixResources.fixed_content content = content).
  { apply (pass_keep_all (keeps (FixResources.ids_to_remove content))).
    - intros l. rewrite Hids. reflexivity.
    - apply fixed_content_pass. }
  destruct (fix_run_unchanged w p content Hfile Hread Heq) as (w' & Hr & Hf & Hw & Ho).
  exists w'. repeat split; try assumption.
  rewrite Ho, app_assoc. apply last_last.
Qed.

Lemma fix_without_asset_references_witness :
  exists w',
    FixResources.fix_xcode_project FixResources.pbxproj_path
      (world_with FixResources.pbxproj_path empty_manifest) = (Ret false, w') /\
    files w' = files (world_with FixResources.pbxproj_path empty_manifest) /\
    written w' = written (world_with FixResources.pbxproj_path empty_manifest) /\
    last (stdout w') [] = FixResources.no_changes_message.
Proof.
  apply (fix_without_asset_references
           (world_with FixResources.pbxproj_path empty_manifest)
           FixResources.pbxproj_path empty_manifest).
  - reflexivity.
  - reflexivity.
  - vm_compute. reflexivity.
Defined.
(** ** localize_app.py: the English table and the keys of the others *)

Lemma text_eqb_sym (a b : text) : text_eqb a b = text_eqb b a.
Proof.
  destruct (text_eqb a b) eqn:E.
  - apply text_eqb_eq in E. subst. symmetry. apply text_eqb_refl.
  - destruct (text_eqb b a) eqn:E'; [|reflexivity].
    apply text_eqb_eq in E'. subst. now rewrite text_eqb_refl in E.
Qed.

Lemma dict_get_keys {V} (d : dict V) (k : text) :
  existsb (text_eqb k) (dict_keys d) = dict_has d k.
Proof.
  unfold dict_has. induction d as [|[k0 v0] d IH]; [reflexivity|].
  cbn. rewrite (text_eqb_sym k k0). destruct (text_eqb k0 k); [reflexivity|exact IH].
Qed.

Lemma dict_has_In {V} (d : dict V) (k : text) :
  dict_has d k = false -> ~ In k (dict_keys d).
Proof.
  rewrite <- dict_get_keys. intros H Hin.
  assert (E : existsb (text_eqb k) (dict_keys d) = true).
  { apply existsb_exists. exists k. split; [exact Hin|apply text_eqb_refl]. }
  congruence.
Qed.

Lemma dict_keys_set {V} (d : dict V) (k : text) (v : V) :
  dict_keys (dict_set d k v) = if dict_has d k then dict_keys d else dict_keys d ++ [k].
Proof.
  unfold dict_has, dict_keys. induction d as [|[k0 v0] d IH]; [reflexivity|].
  cbn. destruct (text_eqb k0 k) eqn:E; [reflexivity|].
  cbn. rewrite IH. now destruct (dict_get d k).
Qed.

Lemma dict_set_NoDup {V} (d : dict V) (k : text) (v : V) :
  NoDup (dict_keys d) -> NoDup (dict_keys (dict_set d k v)).
Proof.
  intros H. rewrite dict_keys_set. destruct (dict_has d k) eqn:E; [exact H|].
  apply NoDup_app; [exact H|repeat constructor; intros []|].
  intros x Hx [<-|[]]. exact (dict_has_In _ _ E Hx).
Qed.

Section EnglishTable.

Variables (existing_en : dict text) (k : text).

Lemma persisted_fold_get (ks : list text) (acc : dict text) :
  dict_get (fold_left (fun en string =>
                         match dict_get existing_en string with
                         | Some v => dict_set en string v
                         | None => en
                         end) ks acc) k =
  if existsb (text_eqb k) ks
  then match dict_get existing_en k with
       | Some v => Some v
       | None => dict_get acc k
       end
  else dict_get acc k.
Proof.
  revert acc. induction ks as [|k0 ks IH]; intros acc; [reflexivity|].
  cbn [fold_left existsb]. rewrite IH.
  destruct (text_eqb k k0) eqn:E.
  - apply text_eqb_eq in E. subst k0. cbn [orb].
    destruct (dict_get existing_en k) as [v|].
    + rewrite dict_get_set, text_eqb_refl. now destruct (existsb _ ks).
    + now destruct (existsb _ ks).
  - cbn [orb].
    assert (Hk : dict_get (match dict_get existing_en k0 with
                           | Some v => dict_set acc k0 v
                           | None => acc
                           end) k = dict_get acc k).
    { destruct (dict_get existing_en k0); [|reflexivity].
      now rewrite dict_get_set, (text_eqb_sym k0 k), E. }
    now rewrite Hk.
Qed.

Lemma extracted_fold_get (ms : list text) (en : dict text) :
  dict_get (fold_left (fun en string =>
                         if dict_has en string then en else dict_set en string string)
                      ms en) k =
  match dict_get en k with
  | Some v => Some v
  | None => if existsb (text_eqb k) ms then Some k else None
  end.
Proof.
  revert en. induction ms as [|m ms IH]; intros en; cbn [fold_left existsb].
  - now destruct (dict_get en k).
  - rewrite IH. unfold dict_has.
    destruct (dict_get en m) as [vm|] eqn:Em.
    + destruct (dict_get en k) as [v|] eqn:Ek; [reflexivity|].
      destruct (text_eqb k m) eqn:E; [|reflexivity].
      apply text_eqb_eq in E. congruence.
    + rewrite dict_get_set, (text_eqb_sym m k).
      destruct (text_eqb k m) eqn:E.
      * apply text_eqb_eq in E. subst m. now rewrite Em.
      * reflexivity.
Qed.

End EnglishTable.

(** X7.  The English table holds every entry of the existing English file
    as it is, maps every other extracted string to itself, and holds nothing
    else. *)
Theorem complete_english_lookup (existing_en : dict text)
  (meaningful_strings : list text) (k : text) :
  dict_get (Localize.complete_english existing_en meaningful_strings) k =
  match dict_get existing_en k with
  | Some v => Some v
  | None => if existsb (text_eqb k) meaningful_strings then Some k else None
  end.
Proof.
  unfold Localize.complete_english.
  rewrite extracted_fold_get, persisted_fold_get, dict_get_keys.
  unfold dict_has. cbn [dict_get].
  now destruct (dict_get existing_en k).
Qed.

Lemma fold_set_keys (f : text -> text) (keys : list text) (acc : dict text) :
  NoDup (dict_keys acc ++ keys) ->
  dict_keys (fold_left (fun d k => dict_set d k (f k)) keys acc)
  = dict_keys acc ++ keys.
Proof.
  revert acc. induction keys as [|k keys IH]; intros acc H; cbn [fold_left].
  - now rewrite app_nil_r.
  - assert (Hk : dict_has acc k = false).
    { destruct (dict_has acc k) eqn:E; [|reflexivity].
      rewrite <- dict_get_keys in E. apply existsb_exists in E.
      destruct E as (x & Hx & E). apply text_eqb_eq in E. subst x.
      apply NoDup_remove_2 in H. exfalso. apply H.
      apply in_or_app. now left. }
    assert (Ek : dict_keys (dict_set acc k (f k)) = dict_keys acc ++ [k])
      by now rewrite dict_keys_set, Hk.
    rewrite IH; rewrite Ek, <- app_assoc; [reflexivity|exact H].
Qed.

Lemma complete_english_NoDup (existing_en : dict text) (ms : list text) :
  NoDup (dict_keys (Localize.complete_english existing_en ms)).
Proof.
  unfold Localize.complete_english.
  assert (H0 : NoDup (dict_keys
            (fold_left (fun en string =>
                          match dict_get existing_en string with
                          | Some v => dict_set en string v
                          | None => en
                          end) (dict_keys existing_en) ([] : dict text)))).
  { generalize (dict_keys existing_en) as ks.
    assert (G : forall ks (acc : dict text), NoDup (dict_keys acc) ->
              NoDup (dict_keys
                (fold_left (fun en string =>
                              match dict_get existing_en string with
                              | Some v => dict_set en string v
                              | None => en
                              end) ks acc))).
    { induction ks as [|k0 ks IH]; intros acc Hacc; [exact Hacc|].
      cbn [fold_left]. apply IH.
      destruct (dict_get existing_en k0); [now apply dict_set_NoDup|exact Hacc]. }
    intros ks. apply G. constructor. }
  revert H0.
  generalize (fold_left (fun en string =>
                           match dict_get existing_en string with
                           | Some v => dict_set en string v
                           | None => en
                           end) (dict_keys existing_en) ([] : dict text)) as en.
  induction ms as [|m ms IH]; intros en Hen; [exact Hen|].
  cbn [fold_left]. apply IH.
  destruct (dict_has en m); [exact Hen|now apply dict_set_NoDup].
Qed.

(** X8.  The table built for a language has exactly the keys of the English
    table, in the same order, whatever the language's existing file and
    dictionary hold; building it writes no file. *)
Theorem language_table_has_english_keys
  (w : world) (existing_en : dict text) (meaningful_strings : list text)
  (lang_code : text) (table : dict text) :
  dict_get Localize.TRANSLATIONS lang_code = Some table ->
  unreadable w (Localize.localizable_path lang_code) = false ->
  exists complete w',
    Localize.complete_language
      (Localize.complete_english existing_en meaningful_strings) lang_code w
      = (Ret complete, w') /\
    dict_keys complete
      = dict_keys (Localize.complete_english existing_en meaningful_strings) /\
    files w' = files w /\ written w' = written w.
Proof.
  intros Htable Hread.
  pose proof (complete_language_run w
                (Localize.complete_english existing_en meaningful_strings)
                lang_code table Htable Hread) as Hrun.
  cbv zeta in Hrun.
  eexists. eexists. split; [exact Hrun|]. split; [|split; reflexivity].
  unfold translated.
  rewrite (fold_set_keys (fun k => fst (Localize.translate _ table k))).
  - reflexivity.
  - cbn [dict_keys map app]. apply complete_english_NoDup.
Qed.

Lemma language_table_has_english_keys_witness :
  exists complete w',
    Localize.complete_language
      (Localize.complete_english [] ["Cancel" : text; "Frobnicate" : text]) "de"
      world_with_de
      = (Ret complete, w') /\
    dict_keys complete
      = dict_keys (Localize.complete_english [] ["Cancel" : text; "Frobnicate" : text]) /\
    files w' = files world_with_de /\ written w' = written world_with_de.
Proof.
  apply (language_table_has_english_keys world_with_de []
           ["Cancel" : text; "Frobnicate" : text] "de" table_de).
  - vm_compute. reflexivity.
  - reflexivity.
Defined.
(** ** The matcher returns matches *)

Lemma match_here_matches (r : pattern) :
  forall s pos cs e cs',
    match_here r s pos cs = Some (e, cs') -> matches r s pos cs e cs'.
Proof.
  induction r as [|i r IH]; intros s pos cs e cs' H.
  - cbn in H. injection H as <- <-. now split.
  - destruct i as [l|p|[|] p| |].
    + cbn [match_here] in H.
      destruct (starts_with l s) eqn:E; [|discriminate].
      exists (skipn (List.length l) s). split; [now apply starts_with_true|].
      now apply IH.
    + cbn [match_here] in H. destruct s as [|c s]; [discriminate|].
      destruct (p c) eqn:E; [|discriminate].
      exists c, s. repeat split; [exact E|now apply IH].
    + revert pos H. induction s as [|c s IHs]; intros pos H;
        rewrite match_star_greedy in H.
      * exists [], []. repeat split. cbn [List.length]. rewrite Nat.add_0_r.
        now apply IH.
      * assert (Hstop : match_here r (c :: s) pos cs = Some (e, cs') ->
                        matches (Star true p :: r) (c :: s) pos cs e cs').
        { intros H'. exists [], (c :: s). repeat split.
          cbn [List.length]. rewrite Nat.add_0_r. now apply IH. }
        destruct (p c) eqn:E; [|now apply Hstop].
        destruct (match_here (Star true p :: r) s (S pos) cs) as [m|] eqn:Em;
          [|now apply Hstop].
        injection H as ->.
        destruct (IHs _ Em) as (x & t & -> & Hx & Hm).
        exists (c :: x), t. repeat split.
        -- cbn [forallb]. now rewrite E, Hx.
        -- cbn [List.length]. now replace (pos + S (List.length x))
             with (S pos + List.length x) by lia.
    + revert pos H. induction s as [|c s IHs]; intros pos H;
        rewrite match_star_lazy in H.
      * destruct (match_here r [] pos cs) as [m|] eqn:Em; [|discriminate].
        injection H as ->. exists [], []. repeat split.
        cbn [List.length]. rewrite Nat.add_0_r. now apply IH.
      * destruct (match_here r (c :: s) pos cs) as [m|] eqn:Em.
        -- injection H as ->. exists [], (c :: s). repeat split.
           cbn [List.length]. rewrite Nat.add_0_r. now apply IH.
        -- destruct (p c) eqn:E; [|discriminate].
           destruct (IHs _ H) as (x & t & -> & Hx & Hm).
           exists (c :: x), t. repeat split.
           ++ cbn [forallb]. now rewrite E, Hx.
           ++ cbn [List.length]. now replace (pos + S (List.length x))
                with (S pos + List.length x) by lia.
    + cbn [match_here] in H. now apply IH.
    + cbn [match_here] in H. now apply IH.
Qed.

(** Every match [re.finditer] yields is a match of the pattern at some
    offset of the input. *)
Lemma finditer_In (r : pattern) (m : rmatch) :
  forall s pos skip,
    In m (finditer_from r s pos skip) ->
    exists pre s', s = pre ++ s' /\ match_at r s' (pos + List.length pre) = Some m.
Proof.
  assert (Hcons : forall c s pos,
            (exists pre s', s = pre ++ s' /\
                            match_at r s' (S pos + List.length pre) = Some m) ->
            exists pre s', c :: s = pre ++ s' /\
                           match_at r s' (pos + List.length pre) = Some m).
  { intros c s pos (pre & s' & -> & H). exists (c :: pre), s'. split; [reflexivity|].
    cbn [List.length]. now replace (pos + S (List.length pre))
      with (S pos + List.length pre) by lia. }
  induction s as [|c s IH]; intros pos skip H.
  - destruct skip as [|k]; [|contradiction]. cbn in H.
    destruct (match_at r [] pos) as [m0|] eqn:E; [|contradiction].
    destruct H as [<-|[]]. exists [], []. split; [reflexivity|].
    cbn [List.length]. now rewrite Nat.add_0_r.
  - destruct skip as [|k].
    + cbn [finditer_from] in H.
      destruct (match_at r (c :: s) pos) as [m0|] eqn:E.
      * destruct H as [<-|H].
        -- exists [], (c :: s). split; [reflexivity|].
           cbn [List.length]. now rewrite Nat.add_0_r.
        -- apply Hcons. exact (IH _ _ H).
      * apply Hcons. exact (IH _ _ H).
    + cbn [finditer_from] in H. apply Hcons. exact (IH _ _ H).
Qed.

(** ** localize_app.py: what read_existing_translations returns *)

Lemma forallb_cons_true {A} (p : A -> bool) (c : A) (x : list A) :
  p c = true -> forallb p x = true -> forallb p (c :: x) = true.
Proof. intros H1 H2. cbn. now rewrite H1, H2. Qed.

Lemma strings_match_groups (pre s : text) (m : rmatch) :
  match_at Localize.strings_pattern s (List.length pre) = Some m ->
  quoteless (group (pre ++ s) m 1) /\ quoteless (group (pre ++ s) m 2).
Proof.
  unfold match_at.
  destruct (match_here Localize.strings_pattern s (List.length pre) no_caps)
    as [[e cs]|] eqn:E; [|discriminate].
  intros [= <-]. apply match_here_matches in E.
  cbn [Localize.strings_pattern Plus Group app matches cur closed no_caps] in E.
  destruct E as (t0 & -> & c1 & t1 & -> & Hc1 & x1 & t2 & -> & Hx1 &
                 t3 & -> & w1 & t4 & -> & _ & t5 & -> & w2 & t6 & -> & _ &
                 t7 & -> & c2 & t8 & -> & Hc2 & x2 & t9 & -> & Hx2 &
                 t10 & -> & t11 & -> & _ & ->).
  unfold group, start_of, end_of, group_span.
  cbn [m_groups rev app nth Nat.sub fst snd closed].
  split.
  - rewrite (slice_parts _ (pre ++ [QUOTE]) (c1 :: x1)
               ([QUOTE] ++ w1 ++ "=" ++ w2 ++ [QUOTE] ++ c2 :: x2 ++
                [QUOTE] ++ ";" ++ t11)).
    + split; [discriminate|now apply forallb_cons_true].
    + now rewrite <- !app_assoc.
    + rewrite length_app. reflexivity.
    + rewrite length_app. cbn [List.length]. lia.
  - rewrite (slice_parts _ (pre ++ [QUOTE] ++ c1 :: x1 ++ [QUOTE] ++ w1 ++ "=" ++
                            w2 ++ [QUOTE])
               (c2 :: x2) ([QUOTE] ++ ";" ++ t11)).
    + split; [discriminate|now apply forallb_cons_true].
    + repeat (rewrite <- app_assoc; cbn [app]). reflexivity.
    + rewrite !length_app. cbn [List.length]. rewrite !length_app.
      cbn [List.length]. lia.
    + rewrite !length_app. cbn [List.length]. rewrite !length_app.
      cbn [List.length]. lia.
Qed.

Lemma dict_set_Forall {V} (P : text * V -> Prop) (d : dict V) (k : text) (v : V) :
  Forall P d -> P (k, v) -> Forall P (dict_set d k v).
Proof.
  intros Hd Hkv. induction Hd as [|[k0 v0] d H0 Hd IH]; cbn.
  - now repeat constructor.
  - destruct (text_eqb k0 k) eqn:E.
    + apply text_eqb_eq in E. subst k0. constructor; [exact Hkv|exact Hd].
    + constructor; [exact H0|exact IH].
Qed.

Lemma dict_get_In_entry {V} (d : dict V) (k : text) (v : V) :
  dict_get d k = Some v -> In (k, v) d.
Proof.
  induction d as [|[k0 v0] d IH]; cbn; [discriminate|].
  destruct (text_eqb k0 k) eqn:E; intros H.
  - apply text_eqb_eq in E. left. congruence.
  - right. now apply IH.
Qed.

Lemma parse_translations_quoteless (content : text) :
  Forall (fun kv => quoteless (fst kv) /\ quoteless (snd kv))
         (Localize.parse_translations content).
Proof.
  unfold Localize.parse_translations, re_finditer.
  assert (Hm : forall m, In m (finditer_from Localize.strings_pattern content 0 0) ->
                 quoteless (group content m 1) /\ quoteless (group content m 2)).
  { intros m Hin. apply finditer_In in Hin.
    destruct Hin as (pre & s' & -> & Hm). now apply strings_match_groups. }
  revert Hm.
  generalize (finditer_from Localize.strings_pattern content 0 0) as ms.
  assert (G : forall ms (d : dict text),
            Forall (fun kv => quoteless (fst kv) /\ quoteless (snd kv)) d ->
            (forall m, In m ms ->
               quoteless (group content m 1) /\ quoteless (group content m 2)) ->
            Forall (fun kv => quoteless (fst kv) /\ quoteless (snd kv))
              (fold_left (fun translations m =>
                            dict_set translations (group content m 1)
                                     (group content m 2)) ms d)).
  { induction ms as [|m ms IH]; intros d Hd Hms; [exact Hd|].
    cbn [fold_left]. apply IH.
    - apply dict_set_Forall; [exact Hd|apply Hms; now left].
    - intros m' Hin. apply Hms. now right. }
  intros ms Hms. apply G; [constructor|exact Hms].
Qed.

(** X9.  Whatever the Localizable.strings file holds, a phrase and a
    translation read from it are not empty and contain no double quote: an
    entry with an escaped quote inside is never read back whole. *)
Theorem read_phrases_have_no_quote (content k v : text) :
  dict_get (Localize.parse_translations content) k = Some v ->
  quoteless k /\ quoteless v.
Proof.
  intros H. apply dict_get_In_entry in H.
  pose proof (parse_translations_quoteless content) as Hall.
  rewrite Forall_forall in Hall. exact (Hall _ H).
Qed.

Lemma read_phrases_have_no_quote_witness :
  quoteless ("Cancel" : text) /\ quoteless ("Stornieren" : text).
Proof.
  apply (read_phrases_have_no_quote persisted_de "Cancel" "Stornieren").
  vm_compute. reflexivity.
Defined.
(** ** fix_localization.py: the format patterns *)

Lemma starts_with_nil (s : text) : starts_with [] s = true.
Proof. now destruct s. Qed.

Lemma contains_nil (s : text) : contains [] s = true.
Proof. destruct s; reflexivity. Qed.

Lemma starts_with_app_l (p a b : text) :
  starts_with p a = true -> starts_with p (a ++ b) = true.
Proof.
  revert a. induction p as [|x p IH]; intros a H; [apply starts_with_nil|].
  destruct a as [|c a]; [discriminate|]. cbn in H |- *.
  apply andb_true_iff in H. destruct H as [H1 H2].
  now rewrite H1, IH.
Qed.

Lemma contains_app_r (p a b : text) :
  contains p b = true -> contains p (a ++ b) = true.
Proof.
  intros H. induction a as [|c a IH]; [exact H|].
  cbn [app contains]. rewrite IH. apply orb_true_r.
Qed.

Lemma contains_app_l (p a b : text) :
  contains p a = true -> contains p (a ++ b) = true.
Proof.
  induction a as [|c a IH]; intros H.
  - cbn in H. rewrite orb_false_r in H. destruct p; [apply contains_nil|discriminate].
  - cbn [contains] in H. apply orb_true_iff in H. cbn [app contains].
    destruct H as [H|H].
    + change (c :: a ++ b) with ((c :: a) ++ b).
      now rewrite (starts_with_app_l _ _ _ H).
    + rewrite (IH H). apply orb_true_r.
Qed.

Lemma contains_here (p b : text) : contains p (p ++ b) = true.
Proof.
  destruct p as [|x p]; [apply contains_nil|].
  cbn [app contains].
  change (x :: p ++ b) with ((x :: p) ++ b). now rewrite starts_with_app.
Qed.

Lemma starts_with_spaces (q : text) (c : ascii) :
  is_space c = false ->
  forall ws, forallb is_space ws = true -> starts_with (q ++ [c]) ws = false.
Proof.
  intros Hc. induction q as [|x q IH]; intros ws Hws.
  - destruct ws as [|y ws]; [reflexivity|].
    cbn in Hws |- *. apply andb_true_iff in Hws. destruct Hws as [Hy _].
    destruct (Ascii.eqb c y) eqn:E; [|reflexivity].
    apply Ascii.eqb_eq in E. congruence.
  - destruct ws as [|y ws]; [reflexivity|].
    cbn in Hws. apply andb_true_iff in Hws. destruct Hws as [_ Hws].
    cbn [app starts_with]. rewrite (IH ws Hws). apply andb_false_r.
Qed.

(** A text that does not end in white space and starts in [a ++ ws], [ws]
    white space, lies in [a]. *)
Lemma starts_with_before_spaces (q : text) (c : ascii) (a ws : text) :
  is_space c = false -> forallb is_space ws = true ->
  starts_with (q ++ [c]) (a ++ ws) = true -> starts_with (q ++ [c]) a = true.
Proof.
  intros Hc Hws. revert a. induction q as [|x q IH]; intros a H.
  - destruct a as [|d a].
    + cbn [app] in H. change [c] with ([] ++ [c]) in H.
      now rewrite (starts_with_spaces [] c Hc ws Hws) in H.
    + cbn in H |- *. destruct (Ascii.eqb c d); [reflexivity|discriminate].
  - destruct a as [|d a].
    + cbn [app] in H. change (x :: q ++ [c]) with ((x :: q) ++ [c]) in H.
      now rewrite (starts_with_spaces (x :: q) c Hc ws Hws) in H.
    + cbn [app starts_with] in H |- *.
      apply andb_true_iff in H. destruct H as [H1 H2].
      rewrite H1. cbn [andb]. now apply IH.
Qed.

Lemma contains_spaces (q : text) (c : ascii) :
  is_space c = false ->
  forall ws, forallb is_space ws = true -> contains (q ++ [c]) ws = false.
Proof.
  intros Hc. induction ws as [|y ws IH]; intros Hws.
  - cbn [contains]. now rewrite (starts_with_spaces q c Hc [] Hws).
  - cbn [contains]. rewrite (starts_with_spaces q c Hc _ Hws).
    cbn in Hws. apply andb_true_iff in Hws. destruct Hws as [_ Hws].
    now apply IH.
Qed.

Lemma contains_before_spaces (q : text) (c : ascii) (a ws : text) :
  is_space c = false -> forallb is_space ws = true ->
  contains (q ++ [c]) (a ++ ws) = true -> contains (q ++ [c]) a = true.
Proof.
  intros Hc Hws. induction a as [|d a IH]; intros H.
  - cbn [app] in H. now rewrite (contains_spaces q c Hc ws Hws) in H.
  - cbn [app contains] in H |- *. apply orb_true_iff in H. destruct H as [H|H].
    + change (d :: a ++ ws) with ((d :: a) ++ ws) in H.
      now rewrite (starts_with_before_spaces _ _ _ _ Hc Hws H).
    + rewrite (IH H). apply orb_true_r.
Qed.

Lemma lstrip_split (s : text) :
  exists ws, s = ws ++ FixLocalization.lstrip s /\ forallb is_space ws = true.
Proof.
  induction s as [|c s (ws & IH1 & IH2)]; [now exists []|].
  cbn [FixLocalization.lstrip]. destruct (is_space c) eqn:E.
  - exists (c :: ws). split; [cbn; now f_equal|]. cbn. now rewrite E.
  - now exists [].
Qed.

Lemma forallb_rev {A} (p : A -> bool) (l : list A) :
  forallb p l = true -> forallb p (rev l) = true.
Proof.
  rewrite !forallb_forall. intros H x Hx. apply H. now apply in_rev.
Qed.

Lemma rstrip_split (s : text) :
  exists ws, s = FixLocalization.rstrip s ++ ws /\ forallb is_space ws = true.
Proof.
  destruct (lstrip_split (rev s)) as (ws & H1 & H2).
  exists (rev ws). split; [|now apply forallb_rev].
  unfold FixLocalization.rstrip. rewrite <- rev_app_distr, <- H1.
  now rewrite rev_involutive.
Qed.

Lemma lstrip_spaces (ws s : text) :
  forallb is_space ws = true ->
  FixLocalization.lstrip (ws ++ s) = FixLocalization.lstrip s.
Proof.
  induction ws as [|c ws IH]; intros H; [reflexivity|].
  cbn in H. apply andb_true_iff in H. destruct H as [H1 H2].
  cbn. now rewrite H1, IH.
Qed.

Lemma rstrip_line (q : text) (c : ascii) (ws : text) :
  is_space c = false -> forallb is_space ws = true ->
  FixLocalization.rstrip (q ++ [c] ++ ws) = q ++ [c].
Proof.
  intros Hc Hws. unfold FixLocalization.rstrip.
  rewrite !rev_app_distr, <- app_assoc.
  rewrite lstrip_spaces by now apply forallb_rev.
  cbn [rev app FixLocalization.lstrip]. rewrite Hc.
  change (c :: rev q) with ([c] ++ rev q).
  rewrite rev_app_distr, rev_involutive. reflexivity.
Qed.

Lemma contains_rstrip (q : text) (c : ascii) (s : text) :
  is_space c = false ->
  contains (q ++ [c]) s = true -> contains (q ++ [c]) (FixLocalization.rstrip s) = true.
Proof.
  intros Hc H. destruct (rstrip_split s) as (ws & E & Hws).
  rewrite E in H. exact (contains_before_spaces _ _ _ _ Hc Hws H).
Qed.

Section Patterns.

Import FixLocalization.

Variables (lang_code content : text).

Lemma pattern_line_end (e t : text) :
  exists q, pattern_line e t = q ++ [";"%char] /\ is_space ";" = false.
Proof.
  unfold pattern_line.
  exists ([QUOTE] ++ escape_quotes e ++ [QUOTE] ++ " = " ++ [QUOTE] ++
          escape_quotes t ++ [QUOTE]).
  split; [|reflexivity]. now rewrite <- !app_assoc.
Qed.

Lemma fold_add_keeps (p : text) (entries : list (text * dict text)) :
  forall acc, contains p acc = true ->
    contains p (fold_left (add_pattern lang_code content) entries acc) = true.
Proof.
  induction entries as [|e entries IH]; intros acc H; [exact H|].
  cbn [fold_left]. apply IH. unfold add_pattern.
  destruct (contains _ content); [exact H|now apply contains_app_l].
Qed.

Lemma fold_add_appends (e : text * dict text) (entries : list (text * dict text)) :
  In e entries -> contains (line_of lang_code e) content = false ->
  forall acc,
    contains (line_of lang_code e) (fold_left (add_pattern lang_code content) entries acc) = true.
Proof.
  intros Hin Hnot. induction entries as [|e0 entries IH]; intros acc; [contradiction|].
  cbn [fold_left]. destruct Hin as [->|Hin]; [|now apply IH].
  apply fold_add_keeps. unfold add_pattern. fold (line_of lang_code e). rewrite Hnot.
  apply contains_app_r, contains_here.
Qed.

Lemma updated_has_line (e : text * dict text) :
  In e localization_patterns -> contains (line_of lang_code e) (updated lang_code content) = true.
Proof.
  intros Hin. unfold updated.
  destruct (contains (line_of lang_code e) content) eqn:E.
  - apply fold_add_keeps, contains_app_l.
    destruct (pattern_line_end (fst e) (translation_of lang_code (fst e) (snd e)))
      as (q & Hq & Hc).
    unfold line_of in *. rewrite Hq in *. now apply contains_rstrip.
  - now apply fold_add_appends.
Qed.

Lemma fold_add_prefix (entries : list (text * dict text)) :
  forall acc, exists tail,
    fold_left (add_pattern lang_code content) entries acc = acc ++ tail.
Proof.
  induction entries as [|e entries IH]; intros acc.
  - exists []. now rewrite app_nil_r.
  - cbn [fold_left]. destruct (IH (add_pattern lang_code content acc e)) as (tail & ->).
    unfold add_pattern. destruct (contains _ content).
    + now exists tail.
    + eexists. rewrite <- !app_assoc. reflexivity.
Qed.

(** The new content is a line: it ends in a line break after a character
    that is not white space. *)
Lemma fold_add_shape (entries : list (text * dict text)) :
  forall acc,
    (exists q c, acc = q ++ [c] ++ [NL] /\ is_space c = false) ->
    exists q c, fold_left (add_pattern lang_code content) entries acc
                = q ++ [c] ++ [NL] /\ is_space c = false.
Proof.
  induction entries as [|e entries IH]; intros acc H; [exact H|].
  cbn [fold_left]. apply IH. unfold add_pattern.
  destruct (contains _ content); [exact H|].
  destruct (pattern_line_end (fst e) (translation_of lang_code (fst e) (snd e)))
    as (q & -> & Hc).
  exists (acc ++ q), ";"%char. split; [|exact Hc]. now rewrite <- !app_assoc.
Qed.

Lemma updated_shape :
  exists q c, updated lang_code content = q ++ [c] ++ [NL] /\ is_space c = false.
Proof.
  unfold updated. apply fold_add_shape.
  exists (rstrip content ++ [NL; NL] ++ "// MARK: - Format Strings (Auto-generated"),
         ")"%char.
  split; [|reflexivity]. unfold marker. rewrite <- !app_assoc. reflexivity.
Qed.

End Patterns.

Lemma fold_add_nothing (lang_code content : text) (entries : list (text * dict text)) :
  (forall e, In e entries -> contains (line_of lang_code e) content = true) ->
  forall acc,
    fold_left (FixLocalization.add_pattern lang_code content) entries acc = acc.
Proof.
  induction entries as [|e entries IH]; intros H acc; [reflexivity|].
  cbn [fold_left]. unfold FixLocalization.add_pattern at 2.
  fold (line_of lang_code e). rewrite (H e (or_introl eq_refl)).
  apply IH. intros e' He'. apply H. now right.
Qed.

(** X10.  After the update of a language, its Localizable.strings begins with
    the old content, trailing white space apart, and holds the line of every
    one of the format patterns, whether the line was already there or had to
    be appended. *)
Theorem updated_has_every_pattern (lang_code content : text) :
  starts_with (FixLocalization.rstrip content)
              (FixLocalization.updated lang_code content) = true /\
  forall english translations,
    In (english, translations) FixLocalization.localization_patterns ->
    contains (FixLocalization.pattern_line english
                (FixLocalization.translation_of lang_code english translations))
             (FixLocalization.updated lang_code content) = true.
Proof.
  split.
  - unfold FixLocalization.updated.
    destruct (fold_add_prefix lang_code content FixLocalization.localization_patterns
                (FixLocalization.rstrip content ++ FixLocalization.marker))
      as (tail & ->).
    rewrite <- app_assoc. apply starts_with_app.
  - intros english translations Hin.
    exact (updated_has_line lang_code content (english, translations) Hin).
Qed.

Lemma updated_has_every_pattern_witness :
  contains (FixLocalization.pattern_line "Step %lld" "Schritt %lld")
           (FixLocalization.updated "de" []) = true.
Proof.
  destruct (updated_has_every_pattern "de" []) as [_ H].
  apply (H "Step %lld"
           (Localize.as_dict [("de", "Schritt %lld"); ("es", "Paso %lld");
                              ("fr", "Étape %lld")]%string)).
  vm_compute. right. right. right. left. reflexivity.
Defined.

(** X11.  The update is not idempotent, but nearly: run on its own output it
    appends one more marker line, after an empty line, and no pattern. *)
Theorem update_again_adds_marker_only (lang_code content : text) :
  FixLocalization.updated lang_code (FixLocalization.updated lang_code content)
  = FixLocalization.updated lang_code content ++
    [NL] ++ "// MARK: - Format Strings (Auto-generated)" ++ [NL].
Proof.
  destruct (updated_shape lang_code content) as (q & c & Hq & Hc).
  unfold FixLocalization.updated at 1.
  rewrite fold_add_nothing
    by (intros e He; apply updated_has_line; exact He).
  rewrite Hq. rewrite (rstrip_line q c [NL] Hc eq_refl).
  unfold FixLocalization.marker. rewrite <- !app_assoc. reflexivity.
Qed.
(** ** fix_localization.py: rewriting the four tables *)

Lemma languages_paths_distinct (l l' : text) :
  In l FixLocalization.languages -> In l' FixLocalization.languages -> l <> l' ->
  String.eqb (Localize.localizable_path l) (Localize.localizable_path l') = false.
Proof.
  intros H H' Hne.
  unfold FixLocalization.languages in H, H'. cbn [In] in H, H'.
  destruct H as [<-|[<-|[<-|[<-|[]]]]]; destruct H' as [<-|[<-|[<-|[<-|[]]]]];
    try (now exfalso; apply Hne); vm_compute; reflexivity.
Qed.

Lemma languages_NoDup : NoDup FixLocalization.languages.
Proof.
  unfold FixLocalization.languages.
  repeat constructor; cbn [In]; intros H;
    repeat (destruct H as [H|H]; [discriminate H|]); exact H.
Qed.

Lemma for_each_app {A} (body : A -> M unit) (a b : list A) (w : world) :
  FixLocalization.for_each (a ++ b) body w =
  match FixLocalization.for_each a body w with
  | (Ret _, w1) => FixLocalization.for_each b body w1
  | (Raise e, w1) => (Raise e, w1)
  end.
Proof.
  revert w. induction a as [|x a IH]; intros w; [reflexivity|].
  cbn [app FixLocalization.for_each]. unfold bind.
  destruct (body x w) as [[u|e] w1]; [apply IH|reflexivity].
Qed.

Section Rewriting.

Variable c : text -> text.

Lemma update_language_run (w : world) (l : text) :
  table_at_hand c w l ->
  FixLocalization.update_language l w = (Ret tt, rewritten c [l] w).
Proof.
  intros (Hf & Hr & Hw). apply unwritable_false in Hw. destruct Hw as [Hw1 Hw2].
  unfold FixLocalization.update_language, bind, read_file, write_file, print.
  rewrite Hf, Hr, Hw1, Hw2. reflexivity.
Qed.

Lemma update_language_missing (w : world) (l : text) :
  files w (Localize.localizable_path l) = None ->
  FixLocalization.update_language l w = (Raise FileNotFoundError, w).
Proof.
  intros Hf. unfold FixLocalization.update_language, bind, read_file.
  now rewrite Hf.
Qed.

Lemma rewritten_cons (l : text) (ls : list text) (w : world) :
  rewritten c (l :: ls) w = rewritten c ls (rewritten c [l] w).
Proof. reflexivity. Qed.

Lemma rewritten_frame (done : list text) :
  forall w,
    unreadable (rewritten c done w) = unreadable w /\
    unwritable (rewritten c done w) = unwritable w /\
    written (rewritten c done w) = written w ++ rewrites c done /\
    forall q, (forall l, In l done -> String.eqb q (Localize.localizable_path l) = false) ->
              files (rewritten c done w) q = files w q.
Proof.
  induction done as [|l ls IH]; intros w.
  - repeat split. cbn. now rewrite app_nil_r.
  - rewrite rewritten_cons.
    destruct (IH (rewritten c [l] w)) as (H1 & H2 & H3 & H4).
    rewrite H1, H2, H3. repeat split.
    + unfold rewrites. cbn [map rewritten fold_left written].
      now rewrite <- app_assoc.
    + intros q Hq. rewrite H4 by (intros l' Hl'; apply Hq; now right).
      cbn [rewritten fold_left files]. now rewrite (Hq l (or_introl eq_refl)).
Qed.

Lemma rewritten_files (done : list text) :
  NoDup done -> incl done FixLocalization.languages ->
  forall w l, In l done ->
    files (rewritten c done w) (Localize.localizable_path l)
    = Some (FixLocalization.updated l (c l)).
Proof.
  induction done as [|l0 ls IH]; intros Hnd Hincl w l Hin; [contradiction|].
  rewrite rewritten_cons. inversion Hnd as [|? ? Hnot Hnd']; subst.
  assert (Hincl' : incl ls FixLocalization.languages)
    by (intros x Hx; apply Hincl; now right).
  destruct Hin as [->|Hin].
  - destruct (rewritten_frame ls (rewritten c [l] w)) as (_ & _ & _ & H4).
    rewrite H4.
    + cbn [rewritten fold_left files]. now rewrite String.eqb_refl.
    + intros l' Hl'. apply languages_paths_distinct.
      * apply Hincl. now left.
      * now apply Hincl'.
      * intros ->. contradiction.
  - now apply IH.
Qed.

Lemma for_each_update (done : list text) :
  NoDup done -> incl done FixLocalization.languages ->
  forall w, (forall l, In l done -> table_at_hand c w l) ->
    FixLocalization.for_each done FixLocalization.update_language w
    = (Ret tt, rewritten c done w).
Proof.
  induction done as [|l ls IH]; intros Hnd Hincl w Hall; [reflexivity|].
  inversion Hnd as [|? ? Hnot Hnd']; subst.
  cbn [FixLocalization.for_each]. unfold bind.
  rewrite (update_language_run w l (Hall l (or_introl eq_refl))).
  rewrite rewritten_cons. apply IH.
  - exact Hnd'.
  - intros x Hx. apply Hincl. now right.
  - intros l' Hl'. destruct (Hall l' (or_intror Hl')) as (Hf & Hr & Hw).
    assert (E : String.eqb (Localize.localizable_path l') (Localize.localizable_path l)
                = false).
    { apply languages_paths_distinct.
      - apply Hincl. now right.
      - apply Hincl. now left.
      - intros ->. contradiction. }
    unfold table_at_hand. cbn [rewritten fold_left files unreadable refused cut_at].
    rewrite E. now repeat split.
Qed.

End Rewriting.

(** X12.  With the four Localizable.strings at hand the rewriting succeeds:
    each file is overwritten once, in the order en, de, es, fr, with its old
    content stripped of trailing white space, the marker and the missing
    pattern lines; afterwards each holds the line of every format pattern. *)
Theorem all_tables_get_every_pattern (w : world) (c : text -> text) :
  (forall l, In l FixLocalization.languages -> table_at_hand c w l) ->
  exists w',
    FixLocalization.add_format_patterns w = (Ret tt, w') /\
    written w' = written w ++ rewrites c FixLocalization.languages /\
    forall l, In l FixLocalization.languages ->
      files w' (Localize.localizable_path l)
        = Some (FixLocalization.updated l (c l)) /\
      forall e, In e FixLocalization.localization_patterns ->
        contains (line_of l e) (FixLocalization.updated l (c l)) = true.
Proof.
  intros Hall. unfold FixLocalization.add_format_patterns.
  unfold bind at 1. unfold print at 1.
  set (w0 := mkWorld _ _ _ _ _ _ _ _).
  assert (Hall0 : forall l, In l FixLocalization.languages -> table_at_hand c w0 l)
    by exact Hall.
  rewrite (for_each_update c _ languages_NoDup (incl_refl _) w0 Hall0).
  eexists. split; [reflexivity|].
  destruct (rewritten_frame c FixLocalization.languages w0) as (_ & _ & H3 & _).
  split; [exact H3|].
  intros l Hl. split.
  - now apply rewritten_files; [apply languages_NoDup|apply incl_refl|].
  - intros e He. now apply updated_has_line.
Qed.

Lemma all_tables_get_every_pattern_witness :
  exists w',
    FixLocalization.add_format_patterns world_with_tables = (Ret tt, w') /\
    written w' = written world_with_tables ++
                 rewrites (fun _ => []) FixLocalization.languages /\
    forall l, In l FixLocalization.languages ->
      files w' (Localize.localizable_path l)
        = Some (FixLocalization.updated l []) /\
      forall e, In e FixLocalization.localization_patterns ->
        contains (line_of l e) (FixLocalization.updated l []) = true.
Proof.
  apply (all_tables_get_every_pattern world_with_tables (fun _ => [])).
  intros l Hl. unfold FixLocalization.languages in Hl. cbn [In] in Hl.
  destruct Hl as [<-|[<-|[<-|[<-|[]]]]]; repeat split; vm_compute; reflexivity.
Defined.

(** X13.  The rewriting is not atomic: when the file of a language is
    missing, the run stops there with FileNotFoundError, and the files of
    the languages before it stay rewritten. *)
Theorem missing_table_stops_midway
  (w : world) (c : text -> text) (done rest : list text) (missing : text) :
  FixLocalization.languages = done ++ missing :: rest ->
  (forall l, In l done -> table_at_hand c w l) ->
  files w (Localize.localizable_path missing) = None ->
  exists w',
    FixLocalization.add_format_patterns w = (Raise FileNotFoundError, w') /\
    written w' = written w ++ rewrites c done /\
    forall l, In l done ->
      files w' (Localize.localizable_path l) = Some (FixLocalization.updated l (c l)).
Proof.
  intros Hsplit Hall Hmiss.
  assert (Hnd : NoDup (done ++ missing :: rest))
    by (rewrite <- Hsplit; apply languages_NoDup).
  assert (Hnd1 : NoDup done) by (apply NoDup_app_remove_r in Hnd; exact Hnd).
  assert (Hincl : incl done FixLocalization.languages)
    by (rewrite Hsplit; intros x Hx; apply in_or_app; now left).
  assert (Hin : In missing FixLocalization.languages)
    by (rewrite Hsplit; apply in_or_app; right; now left).
  assert (Hnot : ~ In missing done).
  { intros H. apply NoDup_remove_2 in Hnd. apply Hnd. apply in_or_app. now left. }
  unfold FixLocalization.add_format_patterns.
  unfold bind at 1. unfold print at 1.
  set (w0 := mkWorld _ _ _ _ _ _ _ _).
  assert (Hall0 : forall l, In l done -> table_at_hand c w0 l) by exact Hall.
  rewrite Hsplit, for_each_app.
  rewrite (for_each_update c done Hnd1 Hincl w0 Hall0).
  destruct (rewritten_frame c done w0) as (_ & _ & H3 & H4).
  cbn [FixLocalization.for_each]. unfold bind.
  rewrite update_language_missing.
  - eexists. split; [reflexivity|]. split; [exact H3|].
    intros l Hl. now apply rewritten_files.
  - rewrite H4; [exact Hmiss|].
    intros l Hl. apply languages_paths_distinct; [exact Hin|now apply Hincl|].
    intros ->. contradiction.
Qed.

Lemma missing_table_stops_midway_witness :
  exists w',
    FixLocalization.add_format_patterns (world_with (Localize.localizable_path "en") [])
      = (Raise FileNotFoundError, w') /\
    written w' = written (world_with (Localize.localizable_path "en") []) ++
                 rewrites (fun _ => []) ["en" : text] /\
    forall l, In l ["en" : text] ->
      files w' (Localize.localizable_path l) = Some (FixLocalization.updated l []).
Proof.
  apply (missing_table_stops_midway (world_with (Localize.localizable_path "en") [])
           (fun _ => []) ["en" : text] ["es" : text; "fr" : text] "de").
  - reflexivity.
  - intros l [<-|[]]. repeat split.
  - vm_compute. reflexivity.
Defined.
(** ** add_file_to_xcode.py: where the first two entries land *)

Section Enclosed.

Variables a b : text.

Let tailB : pattern := [Close; Open; Lit b; Close].

Let gB (cs : caps) (pos : nat) : caps :=
  mkCaps pos ((pos, pos + List.length b) :: (cur cs, pos) :: closed cs).

Let after_a (s : text) (pos : nat) (_ : caps) : option rmatch :=
  match str_find b s with
  | None => None
  | Some j =>
      let p0 := pos - List.length a in
      Some (mkMatch p0 (pos + j + List.length b)
                    [(p0, pos); (pos, pos + j); (pos + j, pos + j + List.length b)])
  end.

Lemma tailB_spec (s : text) (pos : nat) (cs : caps) :
  match_here tailB s pos cs =
  if starts_with b s
  then (fun (_ : text) p c => Some (p, c))
         (skipn (List.length b) s) (pos + List.length b) (gB cs pos)
  else None.
Proof.
  unfold tailB, gB. cbn [match_here cur closed].
  destruct (starts_with b s); reflexivity.
Qed.

Lemma lazy_B (s : text) (pos : nat) (cs : caps) :
  match_here (Star false any_char :: tailB) s pos cs =
  match str_find b s with
  | None => None
  | Some j => Some (pos + j + List.length b, gB cs (pos + j))
  end.
Proof.
  rewrite match_lazy_any.
  rewrite (lazy_stops_at_first (match_here tailB) (fun _ p c => Some (p, c)) b gB
             tailB_spec).
  - reflexivity.
  - intros s0 pos0 cs0 H. discriminate.
Qed.

Lemma match_at_enclosed (s : text) (pos : nat) :
  match_at (enclosed a b) s pos =
  if starts_with a s
  then after_a (skipn (List.length a) s) (pos + List.length a) no_caps
  else None.
Proof.
  unfold match_at.
  change (enclosed a b)
    with (Open :: Lit a :: Close :: Open :: Star false any_char :: tailB).
  cbn [match_here cur closed no_caps].
  destruct (starts_with a s); [|reflexivity].
  rewrite lazy_B. unfold after_a.
  destruct (str_find b _) as [j|]; [|reflexivity].
  unfold gB. cbn [closed cur rev app].
  replace (pos + List.length a - List.length a) with pos by lia.
  reflexivity.
Qed.

Lemma after_a_fails : fails_on_suffixes after_a.
Proof.
  intros s pos cs H n pos' cs'. unfold after_a in *.
  destruct (str_find b s) eqn:E; [discriminate|].
  now rewrite (str_find_none_skipn _ _ n E).
Qed.

(** [re.search] for a section is the chain of two first occurrences. *)
Lemma search_enclosed (s : text) (pos : nat) :
  search_from (enclosed a b) s pos = find_enclosed a b s pos.
Proof.
  pose proof (lazy_stops_at_first
                (fun s pos (_ : caps) => match_at (enclosed a b) s pos)
                after_a a (fun cs _ => cs)
                (fun s pos _ => match_at_enclosed s pos) after_a_fails
                s pos no_caps) as H.
  rewrite search_from_first_success. etransitivity; [exact H|]. clear H.
  unfold find_enclosed.
  destruct (str_find a s) as [i|]; [|reflexivity].
  unfold after_a.
  destruct (str_find b _) as [j|]; [|reflexivity].
  cbv zeta.
  replace (pos + i + List.length a - List.length a) with (pos + i) by lia.
  reflexivity.
Qed.

Lemma splice_before_close (u body rest entry : text) :
  str_find a (u ++ a) = Some (List.length u) ->
  str_find b (body ++ b) = Some (List.length body) ->
  match re_search (enclosed a b) (u ++ a ++ body ++ b ++ rest) with
  | None => None
  | Some m => Some (splice (u ++ a ++ body ++ b ++ rest) (end_of m 2) entry)
  end = Some (u ++ a ++ body ++ entry ++ b ++ rest).
Proof.
  intros Ha Hb. unfold re_search. rewrite search_enclosed. unfold find_enclosed.
  rewrite (str_find_window_end _ _ _ Ha), skipn_app2.
  rewrite (str_find_window_end _ _ _ Hb).
  cbv zeta. unfold end_of, group_span. cbn [m_groups nth Nat.sub snd].
  f_equal. unfold splice.
  replace (0 + List.length u + List.length a + List.length body)
    with (List.length (u ++ a ++ body)) by (rewrite !length_app; lia).
  replace (u ++ a ++ body ++ b ++ rest) with ((u ++ a ++ body) ++ b ++ rest)
    by now rewrite <- !app_assoc.
  rewrite firstn_app, firstn_all, Nat.sub_diag, skipn_app_length.
  cbn [firstn]. rewrite app_nil_r, <- !app_assoc. reflexivity.
Qed.

End Enclosed.

(** X14.  The file reference and the build file land at the end of their
    sections: each entry is put immediately before the first closing marker,
    two tabs included, that follows the first opening marker, so after every
    entry the section had. *)
Theorem add_file_entries_end_their_sections
  (file_ref_id build_file_id name u body rest : text) :
  (str_find BEGIN_FILE_REFS (u ++ BEGIN_FILE_REFS) = Some (List.length u) ->
   str_find END_FILE_REFS (body ++ END_FILE_REFS) = Some (List.length body) ->
   AddFile.step_file_ref file_ref_id name
     (u ++ BEGIN_FILE_REFS ++ body ++ END_FILE_REFS ++ rest)
   = Some (u ++ BEGIN_FILE_REFS ++ body ++
           AddFile.file_ref_entry file_ref_id name ++ END_FILE_REFS ++ rest)) /\
  (str_find BEGIN_BUILD_FILES (u ++ BEGIN_BUILD_FILES) = Some (List.length u) ->
   str_find END_BUILD_FILES (body ++ END_BUILD_FILES) = Some (List.length body) ->
   AddFile.step_build_file build_file_id file_ref_id name
     (u ++ BEGIN_BUILD_FILES ++ body ++ END_BUILD_FILES ++ rest)
   = Some (u ++ BEGIN_BUILD_FILES ++ body ++
           AddFile.build_file_entry build_file_id file_ref_id name ++
           END_BUILD_FILES ++ rest)).
Proof.
  split; intros Ha Hb.
  - exact (splice_before_close BEGIN_FILE_REFS END_FILE_REFS u body rest
             (AddFile.file_ref_entry file_ref_id name) Ha Hb).
  - exact (splice_before_close BEGIN_BUILD_FILES END_BUILD_FILES u body rest
             (AddFile.build_file_entry build_file_id file_ref_id name) Ha Hb).
Qed.

Lemma add_file_entries_end_their_sections_witness :
  AddFile.step_file_ref foo_ref_id "Foo.swift"
    ("{" ++ BEGIN_FILE_REFS ++ [NL] ++ END_FILE_REFS ++ [NL])
  = Some ("{" ++ BEGIN_FILE_REFS ++ [NL] ++
          AddFile.file_ref_entry foo_ref_id "Foo.swift" ++ END_FILE_REFS ++ [NL]) /\
  AddFile.step_build_file foo_build_id foo_ref_id "Foo.swift"
    ("{" ++ BEGIN_BUILD_FILES ++ [NL] ++ END_BUILD_FILES ++ [NL])
  = Some ("{" ++ BEGIN_BUILD_FILES ++ [NL] ++
          AddFile.build_file_entry foo_build_id foo_ref_id "Foo.swift" ++
          END_BUILD_FILES ++ [NL]).
Proof.
  destruct (add_file_entries_end_their_sections foo_ref_id foo_build_id "Foo.swift"
              "{" [NL] [NL]) as [H1 H2].
  split; [apply H1|apply H2]; reflexivity.
Defined.

(** ** localize_app.py: the strings extracted from the Swift sources *)

Lemma set_add_Forall (P : text -> Prop) (x : text) (s : list text) :
  Forall P s -> P x -> Forall P (set_add x s).
Proof.
  intros Hs Hx. unfold set_add. destruct (existsb _ s); [exact Hs|].
  apply Forall_app. split; [exact Hs|now constructor].
Qed.

Lemma set_add_NoDup (x : text) (s : list text) :
  NoDup s -> NoDup (set_add x s).
Proof.
  intros Hs. unfold set_add. destruct (existsb (text_eqb x) s) eqn:E; [exact Hs|].
  apply NoDup_app; [exact Hs|repeat constructor; intros []|].
  intros y Hy [Hxy|[]]. subst y.
  assert (H : existsb (text_eqb x) s = true).
  { apply existsb_exists. exists x. split; [exact Hy|apply text_eqb_refl]. }
  congruence.
Qed.

Lemma add_matches_Forall (P : text -> Prop) (r : pattern) (content : text) :
  (forall pre s m, content = pre ++ s ->
     match_at r s (List.length pre) = Some m -> P (group content m 1)) ->
  forall ids, Forall P ids -> Forall P (FixResources.add_matches r content ids).
Proof.
  intros Hr. unfold FixResources.add_matches, re_finditer.
  assert (Hm : forall m, In m (finditer_from r content 0 0) -> P (group content m 1)).
  { intros m Hin. apply finditer_In in Hin.
    destruct Hin as (pre & s' & E & Hm). exact (Hr pre s' m E Hm). }
  revert Hm. generalize (finditer_from r content 0 0) as ms.
  induction ms as [|m ms IH]; intros Hms ids Hids; [exact Hids|].
  cbn [fold_left]. apply IH.
  - intros m' Hin. apply Hms. now right.
  - apply set_add_Forall; [exact Hids|apply Hms; now left].
Qed.

Lemma add_matches_NoDup (r : pattern) (content : text) (ids : list text) :
  NoDup ids -> NoDup (FixResources.add_matches r content ids).
Proof.
  unfold FixResources.add_matches. revert ids.
  induction (re_finditer r content) as [|m ms IH]; intros ids H; [exact H|].
  cbn [fold_left]. apply IH. now apply set_add_NoDup.
Qed.

Ltac open_match E :=
  unfold match_at;
  match goal with
  | |- match match_here ?r ?s ?p ?c with _ => _ end = Some _ -> _ =>
      destruct (match_here r s p c) as [[? ?]|] eqn:E; [|discriminate]
  end;
  intros [= <-]; apply match_here_matches in E.

Ltac group_is front c1 x1 rest :=
  unfold group, start_of, end_of, group_span;
  cbn [m_groups rev app nth Nat.sub fst snd closed];
  rewrite (slice_parts _ front (c1 :: x1) rest);
  [ split; [discriminate|now apply forallb_cons_true]
  | repeat (rewrite <- app_assoc; cbn [app]); reflexivity
  | rewrite ?length_app; cbn [List.length]; rewrite ?length_app; cbn [List.length]; lia
  | rewrite ?length_app; cbn [List.length]; rewrite ?length_app; cbn [List.length]; lia ].

Lemma text_pattern_group (pre s : text) (m : rmatch) :
  match_at LocalizeApp.text_pattern s (List.length pre) = Some m ->
  quoteless (group (pre ++ s) m 1).
Proof.
  open_match E.
  cbn [LocalizeApp.text_pattern LocalizeApp.quoted_text Plus Group app matches
       cur closed no_caps] in E.
  destruct E as (t0 & -> & c1 & t1 & -> & Hc1 & x1 & t2 & -> & Hx1 &
                 t3 & -> & _ & ->).
  group_is (pre ++ LocalizeApp.text_open) c1 x1 (([QUOTE] ++ ")") ++ t3).
Qed.

Lemma title_pattern_group (pre s : text) (m : rmatch) :
  match_at LocalizeApp.title_pattern s (List.length pre) = Some m ->
  quoteless (group (pre ++ s) m 1).
Proof.
  open_match E.
  cbn [LocalizeApp.title_pattern LocalizeApp.quoted_text Plus Group app matches
       cur closed no_caps] in E.
  destruct E as (t & -> & w & t' & -> & _ &
                 t0 & -> & c1 & t1 & -> & Hc1 & x1 & t2 & -> & Hx1 &
                 t3 & -> & _ & ->).
  group_is (pre ++ "title:" ++ w ++ LocalizeApp.text_open) c1 x1
           (([QUOTE] ++ ")") ++ t3).
Qed.

Lemma message_pattern_group (pre s : text) (m : rmatch) :
  match_at LocalizeApp.message_pattern s (List.length pre) = Some m ->
  quoteless (group (pre ++ s) m 1).
Proof.
  open_match E.
  cbn [LocalizeApp.message_pattern LocalizeApp.quoted_text Plus Group app matches
       cur closed no_caps] in E.
  destruct E as (t & -> & w & t' & -> & _ &
                 t0 & -> & c1 & t1 & -> & Hc1 & x1 & t2 & -> & Hx1 &
                 t3 & -> & _ & ->).
  group_is (pre ++ "message:" ++ w ++ LocalizeApp.text_open) c1 x1
           (([QUOTE] ++ ")") ++ t3).
Qed.

Lemma destructive_pattern_group (pre s : text) (m : rmatch) :
  match_at LocalizeApp.destructive_pattern s (List.length pre) = Some m ->
  quoteless (group (pre ++ s) m 1).
Proof.
  open_match E.
  cbn [LocalizeApp.destructive_pattern LocalizeApp.quoted_text Plus Group app matches
       cur closed no_caps] in E.
  destruct E as (t & -> & d & t' & -> & _ & w & t'' & -> & _ & u & -> &
                 t0 & -> & c1 & t1 & -> & Hc1 & x1 & t2 & -> & Hx1 &
                 t3 & -> & _ & ->).
  group_is (pre ++ "." ++ d :: w ++ "(" ++ LocalizeApp.text_open) c1 x1
           (([QUOTE] ++ "))") ++ t3).
Qed.

Lemma extracted_quoteless (content : text) :
  Forall quoteless (LocalizeApp.extracted content) /\
  NoDup (LocalizeApp.extracted content).
Proof.
  unfold LocalizeApp.extracted. split.
  - apply add_matches_Forall;
      [intros pre s m -> H; exact (destructive_pattern_group pre s m H)|].
    apply add_matches_Forall;
      [intros pre s m -> H; exact (message_pattern_group pre s m H)|].
    apply add_matches_Forall;
      [intros pre s m -> H; exact (title_pattern_group pre s m H)|].
    apply add_matches_Forall;
      [intros pre s m -> H; exact (text_pattern_group pre s m H)|].
    constructor.
  - repeat apply add_matches_NoDup. constructor.
Qed.

(** X15.  From a readable Swift source extract_hardcoded_strings returns a
    set of strings, each with one character at least and none with a double
    quote, and leaves the world as it was. *)
Theorem extracted_strings_have_no_quote (w : world) (p : path) (content : text) :
  files w p = Some content ->
  unreadable w p = false ->
  exists strings,
    LocalizeApp.extract_hardcoded_strings p w = (Ret strings, w) /\
    Forall quoteless strings /\ NoDup strings.
Proof.
  intros Hfile Hread. exists (LocalizeApp.extracted content). split.
  - unfold LocalizeApp.extract_hardcoded_strings, bind, read_file, ret.
    now rewrite Hfile, Hread.
  - apply extracted_quoteless.
Qed.

Lemma extracted_strings_have_no_quote_witness :
  exists strings,
    LocalizeApp.extract_hardcoded_strings "ContentView.swift"
      (world_with "ContentView.swift" swift_source)
      = (Ret strings, world_with "ContentView.swift" swift_source) /\
    Forall quoteless strings /\ NoDup strings.
Proof.
  apply (extracted_strings_have_no_quote
           (world_with "ContentView.swift" swift_source)
           "ContentView.swift" swift_source); reflexivity.
Defined.

Lemma quoteless_no_quote (k : text) :
  forallb not_quote k = false -> ~ quoteless k.
Proof. intros H [_ H']. congruence. Qed.

(** X16.  No table the script builds has a phrase with a double quote as a
    key, whatever the English file holds and whatever was extracted: such a
    phrase is never translated.  Each of the three dictionaries has an entry
    for one, the hint that quotes the Update Wallpaper button, and that entry
    is never used. *)
Theorem quoted_phrases_are_never_translated :
  (forall (content_en : text) (meaningful_strings : list text) (k : text),
     Forall quoteless meaningful_strings ->
     forallb not_quote k = false ->
     dict_get (Localize.complete_english (Localize.parse_translations content_en)
                                         meaningful_strings) k = None) /\
  forallb not_quote update_wallpaper_hint = false /\
  dict_has table_de update_wallpaper_hint = true /\
  dict_has table_es update_wallpaper_hint = true /\
  dict_has table_fr update_wallpaper_hint = true.
Proof.
  split; [|repeat split; vm_compute; reflexivity].
  intros content_en ms k Hms Hk.
  unfold Localize.complete_english.
  rewrite extracted_fold_get, persisted_fold_get, dict_get_keys.
  unfold dict_has. cbn [dict_get].
  destruct (dict_get (Localize.parse_translations content_en) k) as [v|] eqn:E.
  - exfalso. apply (quoteless_no_quote k Hk).
    apply dict_get_In_entry in E.
    pose proof (parse_translations_quoteless content_en) as Hall.
    rewrite Forall_forall in Hall. exact (proj1 (Hall _ E)).
  - destruct (existsb (text_eqb k) ms) eqn:Ex; [|reflexivity].
    exfalso. apply (quoteless_no_quote k Hk).
    apply existsb_exists in Ex. destruct Ex as (x & Hx & Heq).
    apply text_eqb_eq in Heq. subst x.
    rewrite Forall_forall in Hms. exact (Hms _ Hx).
Qed.

Lemma quoted_phrases_are_never_translated_witness :
  dict_get (Localize.complete_english (Localize.parse_translations persisted_de)
                                      (LocalizeApp.extracted swift_source))
           update_wallpaper_hint = None.
Proof.
  destruct quoted_phrases_are_never_translated as [H _].
  apply H.
  - apply extracted_quoteless.
  - vm_compute. reflexivity.
Defined.
(** ** add_resource_to_xcode.py: where the first two entries land *)

Lemma match_lit (l : text) (r : pattern) (t : text) (pos : nat) (cs : caps) :
  match_here (Lit l :: r) (l ++ t) pos cs = match_here r t (pos + List.length l) cs.
Proof. cbn [match_here]. now rewrite starts_with_app, skipn_app_length. Qed.

Lemma match_open (r : pattern) (s : text) (pos : nat) (cs : caps) :
  match_here (Open :: r) s pos cs = match_here r s pos (mkCaps pos (closed cs)).
Proof. reflexivity. Qed.

Lemma match_close (r : pattern) (s : text) (pos : nat) (cs : caps) :
  match_here (Close :: r) s pos cs =
  match_here r s pos (mkCaps (cur cs) ((cur cs, pos) :: closed cs)).
Proof. reflexivity. Qed.

(** A greedy repetition that can take all of [x] and no more, before a
    continuation that matches there, takes all of [x]. *)
Lemma match_greedy_all (p : ascii -> bool) (r : pattern) (x t : text)
  (cs : caps) (m : nat * caps) :
  forallb p x = true ->
  match t with [] => True | c :: _ => p c = false end ->
  forall pos,
    match_here r t (pos + List.length x) cs = Some m ->
    match_here (Star true p :: r) (x ++ t) pos cs = Some m.
Proof.
  intros Hx Ht. induction x as [|c x IH]; intros pos H.
  - cbn [List.length app] in *. rewrite Nat.add_0_r in H.
    rewrite match_star_greedy. destruct t as [|d t]; [exact H|].
    now rewrite Ht.
  - cbn in Hx. apply andb_true_iff in Hx. destruct Hx as [Hc Hx].
    rewrite match_star_greedy. cbn [app]. rewrite Hc.
    rewrite (IH Hx (S pos)); [reflexivity|].
    cbn [List.length] in H. now replace (S pos + List.length x)
      with (pos + S (List.length x)) by lia.
Qed.

Lemma first_success_skip {R : Type} (K : text -> nat -> option R) (x t : text) :
  forall pos,
    (forall k, k < List.length x -> K (skipn k x ++ t) (pos + k) = None) ->
    first_success K (x ++ t) pos = first_success K t (pos + List.length x).
Proof.
  induction x as [|c x IH]; intros pos H.
  - cbn [app List.length]. now rewrite Nat.add_0_r.
  - cbn [app first_success].
    pose proof (H 0 (Nat.lt_0_succ _)) as H0.
    cbn [skipn app] in H0. rewrite Nat.add_0_r in H0. rewrite H0.
    rewrite IH.
    + cbn [List.length]. now replace (S pos + List.length x)
        with (pos + S (List.length x)) by lia.
    + intros k Hk. specialize (H (S k)). cbn [skipn List.length] in H.
      replace (S pos + k) with (pos + S k) by lia. apply H. lia.
Qed.

Lemma first_success_here {R : Type} (K : text -> nat -> option R) (t : text)
  (pos : nat) (m : R) :
  K t pos = Some m -> first_success K t pos = Some m.
Proof. intros H. destruct t; cbn [first_success]; now rewrite H. Qed.

Lemma str_find_first (x s : text) (i : nat) :
  str_find x s = Some i ->
  forall k, k < i -> starts_with x (skipn k s) = false.
Proof.
  revert i. induction s as [|c s IH]; intros i H k Hk.
  - cbn in H. destruct (starts_with x []); [|discriminate].
    injection H as <-. lia.
  - cbn [str_find] in H. destruct (starts_with x (c :: s)) eqn:E.
    + injection H as <-. lia.
    + destruct (str_find x s) as [j|] eqn:F; [|discriminate].
      injection H as <-. destruct k as [|k]; [exact E|].
      cbn [skipn]. apply (IH j eq_refl). lia.
Qed.

Lemma skipn_app_le {A} (k : nat) (x t : list A) :
  k <= List.length x -> skipn k (x ++ t) = skipn k x ++ t.
Proof.
  intros H. rewrite skipn_app. replace (k - List.length x) with 0 by lia.
  reflexivity.
Qed.

Lemma forallb_app_true {A} (p : A -> bool) (x y : list A) :
  forallb p (x ++ y) = true -> forallb p x = true /\ forallb p y = true.
Proof. rewrite forallb_app. apply andb_true_iff. Qed.

Section Spaced.

Variables (a b' : text) (b0 : ascii).
Hypothesis Hb0 : is_space b0 = false.

Let b : text := b0 :: b'.

Let inner : pattern := [Star true is_space; Lit b; Close].
Let cont2 : pattern := Close :: Open :: inner.

Lemma inner_matches (ws2 rest : text) (pos : nat) (cs : caps) :
  forallb is_space ws2 = true ->
  match_here inner (ws2 ++ b ++ rest) pos cs =
  Some (pos + List.length ws2 + List.length b,
        mkCaps (cur cs)
               ((cur cs, pos + List.length ws2 + List.length b) :: closed cs)).
Proof.
  intros Hws. unfold inner. apply match_greedy_all; [exact Hws|exact Hb0|].
  rewrite match_lit. reflexivity.
Qed.

(** Before a character that is not white space, with no [b] up to it, the
    closing group does not match. *)
Lemma inner_fails (y : text) (c : ascii) (t : text) (pos : nat) (cs : caps) :
  is_space c = false ->
  (forall i, i <= List.length y -> starts_with b (skipn i (y ++ [c] ++ t)) = false) ->
  match_here inner (y ++ [c] ++ t) pos cs = None.
Proof.
  intros Hc Hno.
  destruct (match_here inner (y ++ [c] ++ t) pos cs) as [[e cs']|] eqn:E;
    [|reflexivity].
  exfalso. apply match_here_matches in E.
  unfold inner in E. cbn [matches] in E.
  destruct E as (x & t1 & Hs & Hx & t2 & -> & _).
  assert (Hlen : List.length x <= List.length y).
  { apply app_eq_app in Hs. destruct Hs as (l & [[-> _]|[-> Hl]]).
    - rewrite length_app. lia.
    - destruct l as [|d l]; [rewrite app_nil_r; lia|].
      injection Hl as <- _. apply forallb_app_true in Hx.
      destruct Hx as [_ Hx]. cbn in Hx. now rewrite Hc in Hx. }
  specialize (Hno _ Hlen). rewrite Hs, skipn_app_length in Hno.
  now rewrite starts_with_app in Hno.
Qed.

Lemma spaced_match (ws body ws2 rest : text) (pos : nat) :
  forallb is_space ws = true -> forallb is_space ws2 = true ->
  no_blank_ends body = true -> (body = [] -> ws2 = []) ->
  str_find b ((body ++ ws2) ++ b) = Some (List.length (body ++ ws2)) ->
  let p1 := pos + List.length a + List.length ws in
  let p2 := p1 + List.length body in
  let p3 := p2 + List.length ws2 + List.length b in
  match_at (spaced a b) (a ++ ws ++ body ++ ws2 ++ b ++ rest) pos =
  Some (mkMatch pos p3 [(pos, p1); (p1, p2); (p2, p3)]).
Proof.
  intros Hws Hws2 Hends Hempty Hfind p1 p2 p3.
  unfold match_at.
  change (spaced a b)
    with (Open :: Lit a :: Star true is_space :: Close :: Open ::
          Star false any_char :: cont2).
  rewrite match_open, match_lit. cbn [closed no_caps].
  assert (Hlazy :
    match_here (Star false any_char :: cont2) (body ++ ws2 ++ b ++ rest) p1
               (mkCaps p1 [(pos, p1)])
    = Some (p3, mkCaps p2 [(p2, p3); (p1, p2); (pos, p1)])).
  { rewrite match_lazy_any. rewrite first_success_skip.
    - apply first_success_here. unfold cont2. rewrite match_close, match_open.
      rewrite (inner_matches ws2 rest _ _ Hws2). reflexivity.
    - intros k Hk. unfold cont2. rewrite match_close, match_open.
      destruct body as [|c0 body0] eqn:Eb; [cbn in Hk; lia|]. rewrite <- Eb in *.
      assert (Hlast : exists y c, body = y ++ [c] /\ is_space c = false).
      { exists (removelast body), (last body c0). split.
        - apply app_removelast_last. rewrite Eb. discriminate.
        - rewrite Eb in Hends |- *. cbn [no_blank_ends] in Hends.
          apply andb_true_iff in Hends. destruct Hends as [_ H].
          now apply negb_true_iff in H. }
      destruct Hlast as (y & c & Hy & Hc).
      assert (Hky : k <= List.length y)
        by (rewrite Hy, length_app in Hk; cbn in Hk; lia).
      rewrite Hy, skipn_app_le by exact Hky. rewrite <- !app_assoc.
      apply inner_fails; [exact Hc|].
      intros i Hi.
      pose proof (str_find_window_end _ _ rest Hfind) as Hf.
      assert (Heq : skipn i (skipn k y ++ [c] ++ ws2 ++ b ++ rest)
                    = skipn (i + k) ((body ++ ws2) ++ b ++ rest)).
      { rewrite <- skipn_skipn. f_equal. rewrite Hy.
        repeat (rewrite <- app_assoc; cbn [app]).
        rewrite skipn_app_le by exact Hky. reflexivity. }
      rewrite Heq. apply (str_find_first _ _ _ Hf).
      rewrite length_skipn in Hi.
      rewrite length_app, Hy, length_app. cbn [List.length]. lia. }
  assert (Hnext : match body ++ ws2 ++ b ++ rest with
                  | [] => True
                  | c :: _ => is_space c = false
                  end).
  { destruct body as [|c0 body0].
    - rewrite (Hempty eq_refl). exact Hb0.
    - cbn [no_blank_ends] in Hends. apply andb_true_iff in Hends.
      destruct Hends as [H _]. now apply negb_true_iff in H. }
  rewrite (match_greedy_all is_space
             (Close :: Open :: Star false any_char :: cont2) ws
             (body ++ ws2 ++ b ++ rest) (mkCaps pos [])
             (p3, mkCaps p2 [(p2, p3); (p1, p2); (pos, p1)])
             Hws Hnext (pos + List.length a)).
  - reflexivity.
  - rewrite match_close, match_open. exact Hlazy.
Qed.

Lemma spaced_splice (u ws body ws2 rest entry : text) :
  str_find a (u ++ a) = Some (List.length u) ->
  forallb is_space ws = true -> forallb is_space ws2 = true ->
  no_blank_ends body = true -> (body = [] -> ws2 = []) ->
  str_find b ((body ++ ws2) ++ b) = Some (List.length (body ++ ws2)) ->
  AddResource.insert_at_end2 (spaced a b) entry
    (u ++ a ++ ws ++ body ++ ws2 ++ b ++ rest)
  = Some (u ++ a ++ ws ++ body ++ entry ++ ws2 ++ b ++ rest).
Proof.
  intros Ha Hws Hws2 Hends Hempty Hfind.
  unfold AddResource.insert_at_end2, re_search.
  rewrite search_from_first_success, first_success_skip.
  - rewrite (first_success_here _ _ _ _
               (spaced_match ws body ws2 rest (0 + List.length u)
                  Hws Hws2 Hends Hempty Hfind)).
    cbv zeta. unfold end_of, group_span. cbn [m_groups nth Nat.sub snd].
    f_equal. unfold splice.
    replace (0 + List.length u + List.length a + List.length ws + List.length body)
      with (List.length (u ++ a ++ ws ++ body)) by (rewrite !length_app; lia).
    replace (u ++ a ++ ws ++ body ++ ws2 ++ b ++ rest)
      with ((u ++ a ++ ws ++ body) ++ ws2 ++ b ++ rest)
      by now rewrite <- !app_assoc.
    rewrite firstn_app, firstn_all, Nat.sub_diag, skipn_app_length.
    cbn [firstn]. rewrite app_nil_r, <- !app_assoc. reflexivity.
  - intros k Hk. unfold match_at.
    change (spaced a b)
      with (Open :: Lit a :: Star true is_space :: Close :: Open ::
            Star false any_char :: cont2).
    rewrite match_open. cbn [match_here].
    pose proof (str_find_window_end _ _ (ws ++ body ++ ws2 ++ b ++ rest) Ha) as Hf.
    pose proof (str_find_first _ _ _ Hf k Hk) as Hno.
    rewrite skipn_app_le in Hno by lia. now rewrite Hno.
Qed.

End Spaced.

(** X17.  The add-resource script puts the file reference and the build file
    right after the last character of their section that is not white space:
    before the white space that precedes the closing marker, not on a line
    of their own.  In an empty section the entry follows the white space
    after the opening marker. *)
Theorem add_resource_entries_follow_last_entry
  (entry u ws body ws2 rest : text) :
  forallb is_space ws = true -> forallb is_space ws2 = true ->
  no_blank_ends body = true -> (body = [] -> ws2 = []) ->
  (str_find BEGIN_FILE_REFS (u ++ BEGIN_FILE_REFS) = Some (List.length u) ->
   str_find CLOSE_FILE_REFS ((body ++ ws2) ++ CLOSE_FILE_REFS)
     = Some (List.length (body ++ ws2)) ->
   AddResource.insert_at_end2 AddResource.file_ref_pattern entry
     (u ++ BEGIN_FILE_REFS ++ ws ++ body ++ ws2 ++ CLOSE_FILE_REFS ++ rest)
   = Some (u ++ BEGIN_FILE_REFS ++ ws ++ body ++ entry ++ ws2 ++
           CLOSE_FILE_REFS ++ rest)) /\
  (str_find BEGIN_BUILD_FILES (u ++ BEGIN_BUILD_FILES) = Some (List.length u) ->
   str_find CLOSE_BUILD_FILES ((body ++ ws2) ++ CLOSE_BUILD_FILES)
     = Some (List.length (body ++ ws2)) ->
   AddResource.insert_at_end2 AddResource.build_file_pattern entry
     (u ++ BEGIN_BUILD_FILES ++ ws ++ body ++ ws2 ++ CLOSE_BUILD_FILES ++ rest)
   = Some (u ++ BEGIN_BUILD_FILES ++ ws ++ body ++ entry ++ ws2 ++
           CLOSE_BUILD_FILES ++ rest)).
Proof.
  intros Hws Hws2 Hends Hempty. split; intros Ha Hb.
  - exact (spaced_splice BEGIN_FILE_REFS
             (list_ascii_of_string "* End PBXFileReference section */") "/"
             eq_refl u ws body ws2 rest entry Ha Hws Hws2 Hends Hempty Hb).
  - exact (spaced_splice BEGIN_BUILD_FILES
             (list_ascii_of_string "* End PBXBuildFile section */") "/"
             eq_refl u ws body ws2 rest entry Ha Hws Hws2 Hends Hempty Hb).
Qed.

Lemma add_resource_entries_follow_last_entry_witness :
  AddResource.insert_at_end2 AddResource.file_ref_pattern
    (AddResource.file_ref_entry foo_ref_id AddResource.resource_file "text.xml")
    ("{" ++ BEGIN_FILE_REFS ++ [NL; TAB; TAB] ++
     "A1 /* a.png */ = {isa = PBXFileReference; };" ++ [NL] ++
     CLOSE_FILE_REFS ++ [NL])
  = Some ("{" ++ BEGIN_FILE_REFS ++ [NL; TAB; TAB] ++
          "A1 /* a.png */ = {isa = PBXFileReference; };" ++
          AddResource.file_ref_entry foo_ref_id AddResource.resource_file "text.xml" ++
          [NL] ++ CLOSE_FILE_REFS ++ [NL]).
Proof.
  destruct (add_resource_entries_follow_last_entry
              (AddResource.file_ref_entry foo_ref_id AddResource.resource_file
                 "text.xml")
              "{" [NL; TAB; TAB] "A1 /* a.png */ = {isa = PBXFileReference; };"
              [NL] [NL] eq_refl eq_refl eq_refl) as [H _].
  - discriminate.
  - apply H; reflexivity.
Defined.

(** ** localize_app.py: reading back what was written *)

Lemma match_one (p : ascii -> bool) (r : pattern) (c : ascii) (t : text)
  (pos : nat) (cs : caps) :
  p c = true -> match_here (One p :: r) (c :: t) pos cs = match_here r t (S pos) cs.
Proof. intros H. cbn [match_here]. now rewrite H. Qed.

(** A quoted group, before a continuation that matches after it. *)
Lemma match_quoted (r : pattern) (x t : text) (pos : nat) (cs : caps)
  (m : nat * caps) :
  quoteless x ->
  match_here r t (pos + List.length x + 2)
             (mkCaps (pos + 1) ((pos + 1, pos + 1 + List.length x) :: closed cs))
    = Some m ->
  match_here (Lit [QUOTE] :: Open :: One not_quote :: Star true not_quote :: Close ::
              Lit [QUOTE] :: r)
             ([QUOTE] ++ x ++ [QUOTE] ++ t) pos cs = Some m.
Proof.
  intros [Hne Hx] H. destruct x as [|c x]; [contradiction|].
  cbn in Hx. apply andb_true_iff in Hx. destruct Hx as [Hc Hx].
  rewrite match_lit, match_open. cbn [app].
  rewrite (match_one _ _ _ _ _ _ Hc).
  apply match_greedy_all; [exact Hx|reflexivity|].
  rewrite match_close. change (QUOTE :: t) with ([QUOTE] ++ t). rewrite match_lit.
  cbn [cur closed List.length] in *.
  replace (S (pos + 1) + List.length x + 1) with (pos + S (List.length x) + 2) by lia.
  replace (S (pos + 1) + List.length x) with (pos + 1 + S (List.length x)) by lia.
  exact H.
Qed.

Lemma strings_line_match (k v rest : text) (pos : nat) :
  quoteless k -> quoteless v ->
  match_at Localize.strings_pattern (strings_line k v ++ rest) pos =
  Some (mkMatch pos (pos + List.length (strings_line k v))
                [(pos + 1, pos + 1 + List.length k);
                 (pos + List.length k + 6, pos + List.length k + 6 + List.length v)]).
Proof.
  intros Hk Hv. unfold match_at.
  change Localize.strings_pattern
    with (Lit [QUOTE] :: Open :: One not_quote :: Star true not_quote :: Close ::
          Lit [QUOTE] :: Star true is_space :: Lit "=" :: Star true is_space ::
          Lit [QUOTE] :: Open :: One not_quote :: Star true not_quote :: Close ::
          Lit [QUOTE] :: [Lit ";"]).
  replace (strings_line k v ++ rest)
    with ([QUOTE] ++ k ++ [QUOTE] ++ [" "%char] ++ "=" ++ [" "%char] ++
          [QUOTE] ++ v ++ [QUOTE] ++ ";" ++ rest)
    by (unfold strings_line; repeat (rewrite <- app_assoc; cbn [app]); reflexivity).
  rewrite (match_quoted _ k _ pos no_caps
             (pos + List.length (strings_line k v),
              mkCaps (pos + List.length k + 6)
                     [(pos + List.length k + 6, pos + List.length k + 6 + List.length v);
                      (pos + 1, pos + 1 + List.length k)]) Hk).
  - reflexivity.
  - apply match_greedy_all; [reflexivity|reflexivity|].
    rewrite match_lit.
    apply match_greedy_all; [reflexivity|reflexivity|].
    apply match_quoted; [exact Hv|].
    rewrite match_lit. cbn [match_here closed List.length].
    unfold strings_line. rewrite ?length_app.
    cbn [List.length list_ascii_of_string closed no_caps].
    replace (pos + List.length k + 2 + 1 + 1 + 1 + 1)
      with (pos + List.length k + 6) by lia.
    apply f_equal. apply (f_equal2 pair); [lia|reflexivity].
Qed.

Lemma strings_no_match (c : ascii) (t : text) (pos : nat) :
  not_quote c = true -> match_at Localize.strings_pattern (c :: t) pos = None.
Proof.
  intros H. unfold match_at, Localize.strings_pattern. cbn [app match_here starts_with].
  unfold not_quote in H. apply negb_true_iff in H.
  rewrite Ascii.eqb_sym, H. reflexivity.
Qed.

Lemma strings_line_groups (pre k v rest : text) :
  let content := pre ++ strings_line k v ++ rest in
  let m := mkMatch (List.length pre)
                   (List.length pre + List.length (strings_line k v))
                   [(List.length pre + 1, List.length pre + 1 + List.length k);
                    (List.length pre + List.length k + 6,
                     List.length pre + List.length k + 6 + List.length v)] in
  group content m 1 = k /\ group content m 2 = v.
Proof.
  cbv zeta. unfold group, start_of, end_of, group_span.
  cbn [m_groups nth Nat.sub fst snd]. split.
  - apply (slice_parts _ (pre ++ [QUOTE]) k
             ([QUOTE] ++ " = " ++ [QUOTE] ++ v ++ [QUOTE] ++ ";" ++ rest)).
    + unfold strings_line. now rewrite <- !app_assoc.
    + rewrite length_app. reflexivity.
    + rewrite length_app. reflexivity.
  - apply (slice_parts _ (pre ++ [QUOTE] ++ k ++ [QUOTE] ++ " = " ++ [QUOTE]) v
             ([QUOTE] ++ ";" ++ rest)).
    + unfold strings_line. now rewrite <- !app_assoc.
    + rewrite ?length_app. cbn [List.length list_ascii_of_string].
      rewrite ?length_app. cbn [List.length]. lia.
    + rewrite ?length_app. cbn [List.length list_ascii_of_string].
      rewrite ?length_app. cbn [List.length]. lia.
Qed.

(** Reading a readable text gives its entries, in order. *)
Lemma parse_readable (t : text) (es : list (text * text)) :
  readable t es ->
  forall (pre : text) (acc : dict text),
    fold_left (fun translations m =>
                 dict_set translations (group (pre ++ t) m 1) (group (pre ++ t) m 2))
              (finditer_from Localize.strings_pattern t (List.length pre) 0) acc
    = fold_left (fun translations kv => dict_set translations (fst kv) (snd kv)) es acc.
Proof.
  induction 1 as [|c t es Hc Hr IH|k v t es Hk Hv Hr IH]; intros pre acc.
  - reflexivity.
  - cbn [finditer_from]. rewrite (strings_no_match c t _ Hc).
    specialize (IH (pre ++ [c]) acc).
    rewrite <- app_assoc, length_app in IH. cbn [app List.length] in IH.
    rewrite Nat.add_1_r in IH. exact IH.
  - rewrite (finditer_matched _ _ _ _ _
               (strings_line_match k v t (List.length pre) Hk Hv) eq_refl)
      by (unfold strings_line; discriminate).
    cbn [fold_left m_end].
    destruct (strings_line_groups pre k v t) as [G1 G2]. cbv zeta in G1, G2.
    rewrite G1, G2.
    specialize (IH (pre ++ strings_line k v) (dict_set acc k v)).
    rewrite <- app_assoc, length_app in IH. exact IH.
Qed.

Lemma readable_quiet (q t : text) (es : list (text * text)) :
  forallb not_quote q = true -> readable t es -> readable (q ++ t) es.
Proof.
  induction q as [|c q IH]; intros Hq Hr; [exact Hr|].
  cbn in Hq. apply andb_true_iff in Hq. destruct Hq as [Hc Hq].
  cbn [app]. constructor; [exact Hc|now apply IH].
Qed.

Lemma readable_app (a b : text) (es1 es2 : list (text * text)) :
  readable a es1 -> readable b es2 -> readable (a ++ b) (es1 ++ es2).
Proof.
  induction 1 as [|c t es Hc Hr IH|k v t es Hk Hv Hr IH]; intros Hb.
  - exact Hb.
  - cbn [app]. constructor; [exact Hc|now apply IH].
  - rewrite <- app_assoc. cbn [app]. constructor; [exact Hk|exact Hv|now apply IH].
Qed.

Lemma escape_quotes_id (k : text) :
  forallb not_quote k = true -> escape_quotes k = k.
Proof.
  induction k as [|c k IH]; intros H; [reflexivity|].
  cbn in H. apply andb_true_iff in H. destruct H as [Hc Hk].
  unfold escape_quotes in *. cbn [flat_map].
  unfold not_quote in Hc. apply negb_true_iff in Hc. rewrite Hc.
  cbn [app]. f_equal. now apply IH.
Qed.

Lemma insert_sorted_In (x y : text) (l : list text) :
  In x (LocalizeApp.insert_sorted y l) <-> x = y \/ In x l.
Proof.
  induction l as [|z l IH]; cbn [LocalizeApp.insert_sorted].
  - cbn. intuition.
  - destruct (LocalizeApp.text_leb y z); cbn [In]; [intuition|].
    rewrite IH. intuition.
Qed.

Lemma sorted_In (x : text) (l : list text) :
  In x (LocalizeApp.sorted l) <-> In x l.
Proof.
  unfold LocalizeApp.sorted. induction l as [|y l IH]; cbn [fold_right]; [tauto|].
  rewrite insert_sorted_In, IH. cbn. intuition.
Qed.

Lemma category_of_In (k : text) :
  In (LocalizeApp.category_of k) (dict_keys LocalizeApp.categories).
Proof.
  unfold LocalizeApp.category_of.
  destruct (find _ LocalizeApp.categories) as [cat|] eqn:E.
  - apply find_some in E. destruct E as [E _]. unfold dict_keys. now apply in_map.
  - vm_compute. tauto.
Qed.

Lemma dict_get_of_key {V} (d : dict V) (k : text) :
  In k (dict_keys d) -> exists v, dict_get d k = Some v.
Proof.
  intros H. destruct (dict_get d k) as [v|] eqn:E; [now exists v|].
  exfalso. apply (dict_has_In d k); [|exact H]. unfold dict_has. now rewrite E.
Qed.

Lemma dict_get_key {V} (d : dict V) (k : text) (v : V) :
  dict_get d k = Some v -> In k (dict_keys d).
Proof.
  intros H. apply dict_get_In_entry in H. unfold dict_keys.
  apply (in_map fst) in H. exact H.
Qed.

Lemma dict_set_texts (c : dict (list text)) (cat k : text) (texts : list text) :
  dict_get c cat = Some texts ->
  forall x, In x (List.concat (map snd (dict_set c cat (texts ++ [k]))))
            <-> In x (List.concat (map snd c)) \/ x = k.
Proof.
  induction c as [|[c0 t0] c IH]; intros H x; [discriminate|].
  cbn [dict_get] in H. cbn [dict_set].
  destruct (text_eqb c0 cat).
  - injection H as <-. cbn [map snd List.concat]. rewrite !in_app_iff. cbn. intuition.
  - cbn [map snd List.concat]. rewrite !in_app_iff, (IH H x). intuition.
Qed.

Lemma assign_spec (c : dict (list text)) (k : text) :
  dict_keys c = dict_keys LocalizeApp.categories ->
  dict_keys (LocalizeApp.assign c k) = dict_keys LocalizeApp.categories /\
  forall x, In x (List.concat (map snd (LocalizeApp.assign c k)))
            <-> In x (List.concat (map snd c)) \/ x = k.
Proof.
  intros Hn. unfold LocalizeApp.assign.
  destruct (dict_get_of_key c (LocalizeApp.category_of k)) as (texts & E).
  { rewrite Hn. apply category_of_In. }
  rewrite E. split.
  - rewrite dict_keys_set. unfold dict_has. now rewrite E.
  - now apply dict_set_texts.
Qed.

Lemma fold_assign_spec (keys : list text) :
  forall c,
    dict_keys c = dict_keys LocalizeApp.categories ->
    dict_keys (fold_left LocalizeApp.assign keys c)
      = dict_keys LocalizeApp.categories /\
    forall x, In x (List.concat (map snd (fold_left LocalizeApp.assign keys c)))
              <-> In x (List.concat (map snd c)) \/ In x keys.
Proof.
  induction keys as [|k keys IH]; intros c Hn; cbn [fold_left].
  - split; [exact Hn|]. cbn. tauto.
  - destruct (assign_spec c k Hn) as [Hn' Hk].
    destruct (IH _ Hn') as [Hn'' Hx]. split; [exact Hn''|].
    intros x. rewrite Hx, Hk. cbn. intuition.
Qed.

(** The texts of the categories are the keys of the table, none lost and
    none invented, and the categories are the seven of the script. *)
Lemma categorized_spec (d : dict text) :
  dict_keys (LocalizeApp.categorized d) = dict_keys LocalizeApp.categories /\
  forall x, In x (List.concat (map snd (LocalizeApp.categorized d))) <-> In x (dict_keys d).
Proof.
  unfold LocalizeApp.categorized.
  destruct (fold_assign_spec (LocalizeApp.sorted (dict_keys d))
              (map (fun category => (fst category, [])) LocalizeApp.categories))
    as [Hn Hx].
  { unfold dict_keys. rewrite map_map. reflexivity. }
  split; [exact Hn|]. intros x. rewrite Hx, sorted_In.
  assert (E : List.concat (map snd (map (fun category : text * list text =>
                                      (fst category, ([] : list text)))
                                   LocalizeApp.categories)) = [])
    by reflexivity.
  rewrite E. cbn. tauto.
Qed.

Lemma header_quiet (language_code : text) :
  forallb not_quote language_code = true ->
  forallb not_quote (LocalizeApp.header language_code) = true.
Proof.
  intros H. unfold LocalizeApp.header.
  assert (Hname : forallb not_quote
                    match dict_get LocalizeApp.language_names language_code with
                    | Some name => name
                    | None => language_code
                    end = true).
  { assert (E : LocalizeApp.language_names =
                [("en" : text, "English" : text);
                 ("de" : text, "German - Deutsch" : text);
                 ("es" : text, "Spanish - Español" : text);
                 ("fr" : text, "French - Français" : text)]) by reflexivity.
    rewrite E. cbn [dict_get].
    repeat (destruct (text_eqb _ language_code); [reflexivity|]). exact H. }
  rewrite !forallb_app, Hname. reflexivity.
Qed.

Section Written.

Variable d : dict text.
Hypothesis Hd : Forall (fun kv => quoteless (fst kv) /\ quoteless (snd kv)) d.

Let pair_of (k : text) : text * text := (k, LocalizeApp.translation d k).

Lemma key_quoteless (k : text) :
  In k (dict_keys d) -> quoteless k /\ quoteless (LocalizeApp.translation d k).
Proof.
  intros H. destruct (dict_get_of_key d k H) as (v & E).
  unfold LocalizeApp.translation. rewrite E.
  apply dict_get_In_entry in E. rewrite Forall_forall in Hd.
  exact (Hd _ E).
Qed.

Lemma entries_readable (texts : list text) :
  (forall k, In k texts -> In k (dict_keys d)) ->
  readable (flat_map (LocalizeApp.entry d) texts) (map pair_of texts).
Proof.
  induction texts as [|k texts IH]; intros H; [constructor|].
  cbn [flat_map map].
  destruct (key_quoteless k (H k (or_introl eq_refl))) as [Hk Hv].
  unfold LocalizeApp.entry at 1.
  rewrite (escape_quotes_id k (proj2 Hk)),
          (escape_quotes_id _ (proj2 Hv)).
  replace (([QUOTE] ++ k ++ [QUOTE] ++ " = " ++ [QUOTE] ++
            LocalizeApp.translation d k ++ [QUOTE] ++ ";" ++ [NL]) ++
           flat_map (LocalizeApp.entry d) texts)
    with (strings_line k (LocalizeApp.translation d k) ++
          [NL] ++ flat_map (LocalizeApp.entry d) texts)
    by (unfold strings_line; now rewrite <- !app_assoc).
  constructor; [exact Hk|exact Hv|].
  cbn [app]. constructor; [reflexivity|].
  apply IH. intros k' Hk'. apply H. now right.
Qed.

Lemma add_category_readable (content : text) (es : list (text * text))
  (category : text * list text) :
  readable content es ->
  forallb not_quote (fst category) = true ->
  (forall k, In k (snd category) -> In k (dict_keys d)) ->
  readable (LocalizeApp.add_category d content category)
           (es ++ map pair_of (snd category)).
Proof.
  intros Hc Hname Hkeys. unfold LocalizeApp.add_category.
  destruct (snd category) as [|k texts] eqn:E.
  - cbn [map]. now rewrite app_nil_r.
  - apply readable_app; [exact Hc|].
    apply readable_quiet; [reflexivity|].
    apply readable_quiet; [exact Hname|].
    cbn [app]. constructor; [reflexivity|].
    rewrite <- (app_nil_r (map pair_of (k :: texts))).
    apply readable_app; [now apply entries_readable|].
    constructor; [reflexivity|constructor].
Qed.

Lemma fold_add_category_readable (categories : list (text * list text)) :
  forall content es,
    readable content es ->
    (forall category, In category categories ->
       forallb not_quote (fst category) = true /\
       forall k, In k (snd category) -> In k (dict_keys d)) ->
    readable (fold_left (LocalizeApp.add_category d) categories content)
             (es ++ map pair_of (List.concat (map snd categories))).
Proof.
  induction categories as [|category categories IH]; intros content es Hc Hall.
  - cbn. now rewrite app_nil_r.
  - cbn [fold_left map List.concat]. rewrite map_app, app_assoc.
    apply IH.
    + destruct (Hall category (or_introl eq_refl)) as [Hname Hkeys].
      now apply add_category_readable.
    + intros c Hin. apply Hall. now right.
Qed.

Lemma category_names_quiet (category : text * list text) :
  In category (LocalizeApp.categorized d) ->
  forallb not_quote (fst category) = true.
Proof.
  intros Hin. destruct (categorized_spec d) as [Hn _].
  assert (H : In (fst category) (dict_keys LocalizeApp.categories)).
  { rewrite <- Hn. unfold dict_keys. now apply in_map. }
  assert (Hall : forallb (forallb not_quote) (dict_keys LocalizeApp.categories) = true)
    by (vm_compute; reflexivity).
  rewrite forallb_forall in Hall. exact (Hall _ H).
Qed.

Lemma file_content_readable (language_code : text) :
  forallb not_quote language_code = true ->
  readable (LocalizeApp.file_content d language_code)
           (map pair_of (List.concat (map snd (LocalizeApp.categorized d)))).
Proof.
  intros Hl. unfold LocalizeApp.file_content.
  apply (fold_add_category_readable (LocalizeApp.categorized d)
           (LocalizeApp.header language_code) []).
  - rewrite <- (app_nil_r (LocalizeApp.header language_code)).
    apply readable_quiet; [now apply header_quiet|constructor].
  - intros category Hin. split; [now apply category_names_quiet|].
    intros k Hk. apply (categorized_spec d).
    apply in_concat. exists (snd category). split; [now apply in_map|exact Hk].
Qed.

Lemma fold_set_pairs (ks : list text) (acc : dict text) :
  fold_left (fun translations kv => dict_set translations (fst kv) (snd kv))
            (map pair_of ks) acc
  = fold_left (fun translations k =>
                 dict_set translations k (LocalizeApp.translation d k)) ks acc.
Proof.
  revert acc. induction ks as [|k ks IH]; intros acc; [reflexivity|].
  cbn [map fold_left]. apply IH.
Qed.

Lemma parse_file_content (language_code k : text) :
  forallb not_quote language_code = true ->
  dict_get (Localize.parse_translations (LocalizeApp.file_content d language_code)) k
  = dict_get d k.
Proof.
  intros Hl. unfold Localize.parse_translations, re_finditer.
  pose proof (parse_readable _ _ (file_content_readable language_code Hl) [] [])
    as Hp.
  cbn [app List.length] in Hp. rewrite Hp, fold_set_pairs.
  rewrite (dict_get_fold_set (LocalizeApp.translation d)).
  destruct (categorized_spec d) as [_ Hx].
  destruct (dict_get d k) as [v|] eqn:E.
  - assert (Hin : In k (List.concat (map snd (LocalizeApp.categorized d))))
      by (apply Hx; exact (dict_get_key _ _ _ E)).
    rewrite (existsb_text_In k _ Hin).
    unfold LocalizeApp.translation. now rewrite E.
  - destruct (existsb _ _) eqn:Ex; [|reflexivity].
    exfalso. apply existsb_exists in Ex. destruct Ex as (x & Hin & Heq).
    apply text_eqb_eq in Heq. subst x. apply Hx in Hin.
    destruct (dict_get_of_key d k Hin) as (v & E'). congruence.
Qed.

End Written.

(** X18.  What write_localizable_file writes, read_existing_translations
    reads back: when no phrase and no translation of the table is empty or
    has a double quote, the table read from the file just written gives
    every phrase the translation the written table gave it, and has no
    other phrase. *)
Theorem written_table_reads_back
  (w : world) (p : path) (translations : dict text) (language_code : text) :
  unwritable w p = false -> unreadable w p = false ->
  Forall (fun kv => quoteless (fst kv) /\ quoteless (snd kv)) translations ->
  forallb not_quote language_code = true ->
  exists w1 read,
    LocalizeApp.write_localizable_file p translations language_code w = (Ret tt, w1) /\
    Localize.read_existing_translations p w1 = (Ret read, w1) /\
    forall k, dict_get read k = dict_get translations k.
Proof.
  intros Hw Hr Hd Hl.
  unfold LocalizeApp.write_localizable_file.
  rewrite write_file_run, (proj2 (write_error_unwritable w p) Hw),
    (after_write_through _ _ _ Hw).
  eexists. eexists. split; [reflexivity|]. split.
  - rewrite read_existing_run, files_store. cbn [store unreadable].
    rewrite Hr. reflexivity.
  - intros k. now apply parse_file_content.
Qed.

Lemma written_table_reads_back_witness :
  exists w1 read,
    LocalizeApp.write_localizable_file (Localize.localizable_path "de")
      [("Cancel" : text, "Abbrechen" : text); ("Zebra" : text, "Zebra" : text)] "de"
      world_with_de = (Ret tt, w1) /\
    Localize.read_existing_translations (Localize.localizable_path "de") w1
      = (Ret read, w1) /\
    forall k, dict_get read k
              = dict_get [("Cancel" : text, "Abbrechen" : text);
                          ("Zebra" : text, "Zebra" : text)] k.
Proof.
  apply (written_table_reads_back world_with_de (Localize.localizable_path "de")
           [("Cancel" : text, "Abbrechen" : text); ("Zebra" : text, "Zebra" : text)]
           "de").
  - reflexivity.
  - reflexivity.
  - repeat constructor; discriminate.
  - reflexivity.
Defined.

(** ** add_file_to_xcode.py: where the last two entries land *)

Lemma match_lit_fails (l : text) (r : pattern) (s : text) (pos : nat) (cs : caps) :
  starts_with l s = false -> match_here (Lit l :: r) s pos cs = None.
Proof. intros H. cbn [match_here]. now rewrite H. Qed.

Lemma match_lazy_skip (p : ascii -> bool) (r : pattern) (x t : text) (cs : caps) :
  forallb p x = true ->
  forall pos,
    (forall k, k < List.length x -> match_here r (skipn k x ++ t) (pos + k) cs = None) ->
    match_here (Star false p :: r) (x ++ t) pos cs
    = match_here (Star false p :: r) t (pos + List.length x) cs.
Proof.
  induction x as [|c x IH]; intros Hx pos H.
  - cbn [app List.length]. now rewrite Nat.add_0_r.
  - cbn in Hx. apply andb_true_iff in Hx. destruct Hx as [Hc Hx].
    rewrite match_star_lazy. cbn [app].
    pose proof (H 0 (Nat.lt_0_succ _)) as H0.
    cbn [skipn app] in H0. rewrite Nat.add_0_r in H0. rewrite H0, Hc.
    rewrite (IH Hx (S pos)).
    + cbn [List.length]. now replace (S pos + List.length x)
        with (pos + S (List.length x)) by lia.
    + intros k Hk. specialize (H (S k)). cbn [skipn List.length] in H.
      replace (S pos + k) with (pos + S k) by lia. apply H. lia.
Qed.

(** A lazy repetition before a continuation that needs [l] to start: it
    runs up to the first [l], when the continuation matches there. *)
Lemma match_lazy_until (p : ascii -> bool) (r : pattern) (x l t : text)
  (pos : nat) (cs : caps) (m : nat * caps) :
  forallb p x = true ->
  str_find l (x ++ l) = Some (List.length x) ->
  (forall s pos cs, starts_with l s = false -> match_here r s pos cs = None) ->
  match_here r (l ++ t) (pos + List.length x) cs = Some m ->
  match_here (Star false p :: r) (x ++ l ++ t) pos cs = Some m.
Proof.
  intros Hx Hfind Hr Hm. rewrite (match_lazy_skip p r x (l ++ t) cs Hx).
  - rewrite match_star_lazy. now rewrite Hm.
  - intros k Hk. apply Hr.
    pose proof (str_find_window_end _ _ t Hfind) as Hf.
    pose proof (str_find_first _ _ _ Hf k Hk) as Hno.
    now rewrite skipn_app_le in Hno by lia.
Qed.

Lemma match_ones (p : ascii -> bool) (r : pattern) (x t : text) (cs : caps) :
  forallb p x = true ->
  forall pos,
    match_here (repeat (One p) (List.length x) ++ r) (x ++ t) pos cs
    = match_here r t (pos + List.length x) cs.
Proof.
  induction x as [|c x IH]; intros Hx pos.
  - cbn [List.length repeat app]. now rewrite Nat.add_0_r.
  - cbn in Hx. apply andb_true_iff in Hx. destruct Hx as [Hc Hx].
    cbn [List.length repeat app]. rewrite (match_one _ _ _ _ _ _ Hc), (IH Hx).
    now replace (S pos + List.length x) with (pos + S (List.length x)) by lia.
Qed.

Lemma matches_ones (p : ascii -> bool) (r : pattern) (n : nat) :
  forall s pos cs e cs',
    matches (repeat (One p) n ++ r) s pos cs e cs' ->
    exists x t, s = x ++ t /\ List.length x = n /\ matches r t (pos + n) cs e cs'.
Proof.
  induction n as [|n IH]; intros s pos cs e cs' H.
  - exists [], s. rewrite Nat.add_0_r. now repeat split.
  - cbn [repeat app matches] in H. destruct H as (c & t & -> & _ & H).
    destruct (IH _ _ _ _ _ H) as (x & t' & -> & Hlen & H').
    exists (c :: x), t'. repeat split.
    + cbn. now rewrite Hlen.
    + now replace (pos + S n) with (S pos + n) by lia.
Qed.

Lemma phase_entry_lands (isa close entry u a g rest : text) :
  str_find isa (u ++ isa) = Some (List.length u) ->
  forallb not_rbrace a = true ->
  str_find FILES_OPEN (a ++ FILES_OPEN) = Some (List.length a) ->
  str_find close (g ++ close) = Some (List.length g) ->
  match re_search (phase_pattern isa close)
          (u ++ isa ++ a ++ FILES_OPEN ++ g ++ close ++ rest) with
  | None => None
  | Some m =>
      Some (splice (u ++ isa ++ a ++ FILES_OPEN ++ g ++ close ++ rest)
                   (end_of m 2) entry)
  end
  = Some (u ++ isa ++ a ++ FILES_OPEN ++ g ++ entry ++ close ++ rest).
Proof.
  intros Hu Ha Hfa Hg. unfold re_search.
  change (phase_pattern isa close)
    with (Open :: Lit isa :: Star false not_rbrace :: Lit FILES_OPEN ::
          Close :: Open :: Star false any_char :: Close :: Open ::
          Lit close :: [Close]).
  set (P := Open :: Lit isa :: _).
  set (p1 := 0 + List.length u + List.length isa + List.length a
             + List.length FILES_OPEN).
  set (p2 := p1 + List.length g).
  set (p3 := p2 + List.length close).
  assert (Hm : match_at P (isa ++ a ++ FILES_OPEN ++ g ++ close ++ rest)
                        (0 + List.length u)
               = Some (mkMatch (0 + List.length u) p3
                               [(0 + List.length u, p1); (p1, p2); (p2, p3)])).
  { unfold match_at, P. rewrite match_open, match_lit.
    rewrite (match_lazy_until not_rbrace _ a FILES_OPEN
               (g ++ close ++ rest) _ _
               (p3, mkCaps p2 [(p2, p3); (p1, p2); (0 + List.length u, p1)])
               Ha Hfa).
    - reflexivity.
    - intros s pos cs H. now apply match_lit_fails.
    - rewrite match_lit, match_close, match_open.
      apply (match_lazy_until any_char _ g close rest).
      + clear. induction g; [reflexivity|assumption].
      + exact Hg.
      + intros s pos cs H. rewrite match_close, match_open.
        now apply match_lit_fails.
      + rewrite match_close, match_open, match_lit, match_close.
        reflexivity. }
  rewrite search_from_first_success, first_success_skip.
  - rewrite (first_success_here _ _ _ _ Hm).
    unfold end_of, group_span. cbn [m_groups nth Nat.sub snd].
    f_equal. unfold splice, p2, p1.
    replace (0 + List.length u + List.length isa + List.length a +
             List.length FILES_OPEN + List.length g)
      with (List.length (u ++ isa ++ a ++ FILES_OPEN ++ g))
      by (rewrite !length_app; lia).
    replace (u ++ isa ++ a ++ FILES_OPEN ++ g ++ close ++ rest)
      with ((u ++ isa ++ a ++ FILES_OPEN ++ g) ++ close ++ rest)
      by now rewrite <- !app_assoc.
    rewrite firstn_app, firstn_all, Nat.sub_diag, skipn_app_length.
    cbn [firstn]. rewrite app_nil_r, <- !app_assoc. reflexivity.
  - intros k Hk. unfold match_at, P. rewrite match_open.
    rewrite match_lit_fails; [reflexivity|].
    pose proof (str_find_window_end _ _
                  (a ++ FILES_OPEN ++ g ++ close ++ rest) Hu) as Hf.
    pose proof (str_find_first _ _ _ Hf k Hk) as Hno.
    now rewrite skipn_app_le in Hno by lia.
Qed.

Lemma group_entry_lands (entry u id a g rest : text) :
  List.length id = 24 -> forallb is_upper_or_digit id = true ->
  str_find NOTEWALL_OPEN ((u ++ id) ++ NOTEWALL_OPEN) = Some (List.length (u ++ id)) ->
  forallb not_rbrace a = true ->
  str_find CHILDREN_OPEN (a ++ CHILDREN_OPEN) = Some (List.length a) ->
  str_find LIST_CLOSE (g ++ LIST_CLOSE) = Some (List.length g) ->
  match re_search AddFile.group_pattern
          (u ++ id ++ NOTEWALL_OPEN ++ a ++ CHILDREN_OPEN ++ g ++ LIST_CLOSE ++ rest) with
  | None => None
  | Some m =>
      Some (firstn (start_of m 2)
              (u ++ id ++ NOTEWALL_OPEN ++ a ++ CHILDREN_OPEN ++ g ++ LIST_CLOSE ++ rest)
            ++ (group (u ++ id ++ NOTEWALL_OPEN ++ a ++ CHILDREN_OPEN ++ g ++
                       LIST_CLOSE ++ rest) m 2 ++ entry)
            ++ skipn (end_of m 2)
                 (u ++ id ++ NOTEWALL_OPEN ++ a ++ CHILDREN_OPEN ++ g ++ LIST_CLOSE ++ rest))
  end
  = Some (u ++ id ++ NOTEWALL_OPEN ++ a ++ CHILDREN_OPEN ++ g ++ entry ++
          LIST_CLOSE ++ rest).
Proof.
  intros Hlen Hid Hnw Ha Hfa Hg. unfold re_search.
  change AddFile.group_pattern
    with (Open :: repeat (One is_upper_or_digit) 24 ++
          Close :: Lit NOTEWALL_OPEN :: Star false not_rbrace :: Lit CHILDREN_OPEN ::
          Open :: Star false any_char :: Close :: [Lit LIST_CLOSE]).
  set (P := Open :: _).
  set (content := u ++ id ++ NOTEWALL_OPEN ++ a ++ CHILDREN_OPEN ++ g ++
                  LIST_CLOSE ++ rest).
  set (p0 := 0 + List.length u).
  set (p1 := p0 + 24 + List.length NOTEWALL_OPEN + List.length a
             + List.length CHILDREN_OPEN).
  set (p2 := p1 + List.length g).
  assert (Hm : match_at P (id ++ NOTEWALL_OPEN ++ a ++ CHILDREN_OPEN ++ g ++
                           LIST_CLOSE ++ rest) p0
               = Some (mkMatch p0 (p2 + List.length LIST_CLOSE)
                               [(p0, p0 + 24); (p1, p2)])).
  { unfold match_at, P. rewrite match_open. rewrite <- Hlen at 1.
    rewrite (match_ones _ _ id _ _ Hid), Hlen, match_close, match_lit.
    rewrite (match_lazy_until not_rbrace _ a CHILDREN_OPEN
               (g ++ LIST_CLOSE ++ rest) _ _
               (p2 + List.length LIST_CLOSE,
                mkCaps p1 [(p1, p2); (p0, p0 + 24)]) Ha Hfa).
    - reflexivity.
    - intros s pos cs H. now apply match_lit_fails.
    - rewrite match_lit, match_open.
      apply (match_lazy_until any_char _ g LIST_CLOSE rest).
      + clear. induction g; [reflexivity|assumption].
      + exact Hg.
      + intros s pos cs H. rewrite match_close. now apply match_lit_fails.
      + rewrite match_close, match_lit. reflexivity. }
  rewrite search_from_first_success. unfold content. rewrite first_success_skip.
  - fold p0. rewrite (first_success_here _ _ _ _ Hm).
    unfold group, start_of, end_of, group_span. cbn [m_groups nth Nat.sub fst snd].
    f_equal. fold content.
    assert (Hc : content = (u ++ id ++ NOTEWALL_OPEN ++ a ++ CHILDREN_OPEN) ++ g ++
                           LIST_CLOSE ++ rest)
      by (unfold content; now rewrite <- !app_assoc).
    assert (L1 : p1 = List.length (u ++ id ++ NOTEWALL_OPEN ++ a ++ CHILDREN_OPEN))
      by (unfold p1, p0; rewrite !length_app, Hlen; lia).
    rewrite (slice_parts content _ g (LIST_CLOSE ++ rest) p1 p2 Hc L1)
      by (unfold p2; lia).
    assert (Hc2 : content = ((u ++ id ++ NOTEWALL_OPEN ++ a ++ CHILDREN_OPEN) ++ g) ++
                            LIST_CLOSE ++ rest)
      by (unfold content; now rewrite <- !app_assoc).
    assert (L2 : p2 = List.length ((u ++ id ++ NOTEWALL_OPEN ++ a ++ CHILDREN_OPEN) ++ g))
      by (rewrite (length_app (u ++ id ++ NOTEWALL_OPEN ++ a ++ CHILDREN_OPEN) g),
          <- L1; reflexivity).
    assert (F : firstn p1 content = u ++ id ++ NOTEWALL_OPEN ++ a ++ CHILDREN_OPEN).
    { rewrite Hc, L1, firstn_app, firstn_all, Nat.sub_diag.
      cbn [firstn]. apply app_nil_r. }
    assert (S2 : skipn p2 content = LIST_CLOSE ++ rest).
    { rewrite Hc2, L2. apply skipn_app_length. }
    rewrite F, S2, <- !app_assoc. reflexivity.
  - intros k Hk. unfold match_at.
    destruct (match_here P _ (0 + k) no_caps) as [[e cs']|] eqn:E; [|reflexivity].
    exfalso. apply match_here_matches in E. unfold P in E.
    cbn [matches] in E. apply matches_ones in E.
    destruct E as (x & t & Hs & Hx & E). cbn [matches] in E.
    destruct E as (t' & -> & _).
    pose proof (str_find_window_end _ _
                  (a ++ CHILDREN_OPEN ++ g ++ LIST_CLOSE ++ rest) Hnw) as Hf.
    assert (Hlt : k + 24 < List.length (u ++ id))
      by (rewrite length_app, Hlen; lia).
    pose proof (str_find_first _ _ _ Hf (k + 24) Hlt) as Hno.
    rewrite <- app_assoc in Hno. rewrite Nat.add_comm, <- skipn_skipn in Hno.
    rewrite skipn_app_le in Hno by lia.
    rewrite Hs, <- Hx, skipn_app_length in Hno.
    now rewrite starts_with_app in Hno.
Qed.

(** X19.  The group child and the sources entry of the add-file script land
    at the end of their lists: the child directly before the first closing
    of a list after the first opening of the children of the NoteWall group,
    the sources entry directly before the first closing line after the
    first opening of the files of the sources phase. *)
Theorem add_file_entries_end_their_lists
  (file_ref_id build_file_id name u id a g rest : text) :
  forallb not_rbrace a = true ->
  (List.length id = 24 -> forallb is_upper_or_digit id = true ->
   str_find NOTEWALL_OPEN ((u ++ id) ++ NOTEWALL_OPEN) = Some (List.length (u ++ id)) ->
   str_find CHILDREN_OPEN (a ++ CHILDREN_OPEN) = Some (List.length a) ->
   str_find LIST_CLOSE (g ++ LIST_CLOSE) = Some (List.length g) ->
   AddFile.step_group file_ref_id name
     (u ++ id ++ NOTEWALL_OPEN ++ a ++ CHILDREN_OPEN ++ g ++ LIST_CLOSE ++ rest)
   = Some (u ++ id ++ NOTEWALL_OPEN ++ a ++ CHILDREN_OPEN ++ g ++
           AddFile.children_entry file_ref_id name ++ LIST_CLOSE ++ rest)) /\
  (str_find ISA_SOURCES (u ++ ISA_SOURCES) = Some (List.length u) ->
   str_find FILES_OPEN (a ++ FILES_OPEN) = Some (List.length a) ->
   str_find SOURCES_CLOSE (g ++ SOURCES_CLOSE) = Some (List.length g) ->
   AddFile.step_sources build_file_id name
     (u ++ ISA_SOURCES ++ a ++ FILES_OPEN ++ g ++ SOURCES_CLOSE ++ rest)
   = Some (u ++ ISA_SOURCES ++ a ++ FILES_OPEN ++ g ++
           AddFile.sources_entry build_file_id name ++ SOURCES_CLOSE ++ rest)).
Proof.
  intros Ha. split.
  - intros Hlen Hid Hnw Hfa Hg.
    exact (group_entry_lands (AddFile.children_entry file_ref_id name)
             u id a g rest Hlen Hid Hnw Ha Hfa Hg).
  - intros Hu Hfa Hg.
    exact (phase_entry_lands ISA_SOURCES SOURCES_CLOSE
             (AddFile.sources_entry build_file_id name) u a g rest Hu Ha Hfa Hg).
Qed.

Lemma add_file_entries_end_their_lists_witness :
  AddFile.step_group foo_ref_id "Foo.swift"
    ("{" ++ "A50000020000000000000001" ++ NOTEWALL_OPEN ++ " " ++ CHILDREN_OPEN ++
     [NL; TAB] ++ LIST_CLOSE ++ [NL])
  = Some ("{" ++ "A50000020000000000000001" ++ NOTEWALL_OPEN ++ " " ++ CHILDREN_OPEN ++
          [NL; TAB] ++ AddFile.children_entry foo_ref_id "Foo.swift" ++
          LIST_CLOSE ++ [NL]) /\
  AddFile.step_sources foo_build_id "Foo.swift"
    ("{" ++ ISA_SOURCES ++ " " ++ FILES_OPEN ++ [NL; TAB] ++ SOURCES_CLOSE ++ [NL])
  = Some ("{" ++ ISA_SOURCES ++ " " ++ FILES_OPEN ++ [NL; TAB] ++
          AddFile.sources_entry foo_build_id "Foo.swift" ++ SOURCES_CLOSE ++ [NL]).
Proof.
  destruct (add_file_entries_end_their_lists foo_ref_id foo_build_id "Foo.swift"
              "{" "A50000020000000000000001" " " [NL; TAB] [NL] eq_refl)
    as [H1 H2].
  split; [apply H1|apply H2]; reflexivity.
Defined.

(** ** add_resource_to_xcode.py: where the resources entry lands *)

(** X20.  The resources entry of the add-resource script lands directly
    before the first closing of a list after the first opening of the files
    of the resources phase: after the indentation of the closing line, when
    the list is laid out with one. *)
Theorem add_resource_entry_ends_files_list (entry u a g rest : text) :
  str_find ISA_RESOURCES (u ++ ISA_RESOURCES) = Some (List.length u) ->
  forallb not_rbrace a = true ->
  str_find FILES_OPEN (a ++ FILES_OPEN) = Some (List.length a) ->
  str_find LIST_CLOSE (g ++ LIST_CLOSE) = Some (List.length g) ->
  AddResource.insert_at_end2 AddResource.resources_pattern entry
    (u ++ ISA_RESOURCES ++ a ++ FILES_OPEN ++ g ++ LIST_CLOSE ++ rest)
  = Some (u ++ ISA_RESOURCES ++ a ++ FILES_OPEN ++ g ++ entry ++ LIST_CLOSE ++ rest).
Proof.
  intros Hu Ha Hfa Hg.
  exact (phase_entry_lands ISA_RESOURCES LIST_CLOSE entry u a g rest Hu Ha Hfa Hg).
Qed.

Lemma add_resource_entry_ends_files_list_witness :
  AddResource.insert_at_end2 AddResource.resources_pattern
    (AddResource.resources_entry foo_build_id AddResource.resource_file)
    ("{" ++ ISA_RESOURCES ++ [NL; TAB; TAB; TAB] ++ FILES_OPEN ++
     [NL; TAB; TAB; TAB] ++ LIST_CLOSE ++ [NL])
  = Some ("{" ++ ISA_RESOURCES ++ [NL; TAB; TAB; TAB] ++ FILES_OPEN ++
          [NL; TAB; TAB; TAB] ++
          AddResource.resources_entry foo_build_id AddResource.resource_file ++
          LIST_CLOSE ++ [NL]).
Proof.
  apply (add_resource_entry_ends_files_list
           (AddResource.resources_entry foo_build_id AddResource.resource_file)
           "{" [NL; TAB; TAB; TAB] [NL; TAB; TAB; TAB] [NL]); reflexivity.
Defined.
